(** * Volume segmentation orchestrator (volumeSegmentation.py)

    A shallow embedding of [main] of [src/volumeSegmentation.py]: the
    orchestrator that tiles a sub-volume, feeds the tiles through a U-Net and
    stitches, cleans and stores the result.  The collaborators whose code
    lives in other modules of the repository ([tools.tilingStrategy],
    [tools.preProcessing], [tools.postProcessing], [n5_utils], the Keras
    model) are the fields of a [World] record; every call to one of them is
    recorded, with its outcome, in a trace. *)

From Stdlib Require Import String Bool Arith ZArith Lia.
From Stdlib Require Import QArith Reals Lra List.
Import ListNotations.
Local Open Scope Z_scope.

Set Implicit Arguments.

(** ** Python results: a value or a raised exception *)

Definition exn := string.

Definition IndexError : exn := "IndexError"%string.
Definition ValueError : exn := "ValueError"%string.
Definition AxisError : exn := "AxisError"%string.
Definition InvalidArgumentError : exn := "InvalidArgumentError"%string.
Definition StopIteration : exn := "StopIteration"%string.
Definition UnboundLocalError : exn := "UnboundLocalError"%string.

Inductive result (A : Type) : Type :=
| Ok (a : A)
| Raise (e : exn).
Arguments Ok {A} a.
Arguments Raise {A} e.

Definition rbind {A B} (r : result A) (k : A -> result B) : result B :=
  match r with
  | Ok a => k a
  | Raise e => Raise e
  end.

Fixpoint rmapM {A B} (f : A -> result B) (l : list A) : result (list B) :=
  match l with
  | [] => Ok []
  | x :: xs => rbind (f x) (fun y => rbind (rmapM f xs) (fun ys => Ok (y :: ys)))
  end.

(** [l[i]] for a non-negative index. *)
Definition py_index {A} (l : list A) (i : nat) : result A :=
  match nth_error l i with
  | Some x => Ok x
  | None => Raise IndexError
  end.

(** ** Dense arrays: a shape and the elements in row-major order *)

Record ndarray (V : Type) : Type := mk_ndarray {
  shape : list Z;
  data : list V
}.
Arguments mk_ndarray {V} shape data.

Definition size_of (s : list Z) : Z := fold_right Z.mul 1 s.

(** The scalar operations of numpy and TensorFlow that [main] relies on. *)
Class Scalar (V : Type) : Type := {
  zero : V;
  (** [np.argmax] of one class vector: the first index of a maximum, as a
      value of the array's element type. *)
  argmax1 : list V -> V;
  (** [tf.nn.softmax] of one class vector. *)
  softmax1 : list V -> list V
}.

Section Arrays.
Context {V : Type} `{Scalar V}.

(** [np.zeros(shape=s)]. *)
Definition np_zeros (s : list Z) : result (ndarray V) :=
  if forallb (fun d => 0 <=? d) s
  then Ok (mk_ndarray s (repeat zero (Z.to_nat (size_of s))))
  else Raise ValueError.

(** [a.shape[0]]. *)
Definition shape0 (a : ndarray V) : result Z := py_index (shape a) 0.

(** [a[i, ...]]: the [i]-th item along the first axis. *)
Definition item (a : ndarray V) (i : nat) : ndarray V :=
  let s := tl (shape a) in
  let n := Z.to_nat (size_of s) in
  mk_ndarray s (firstn n (skipn (i * n) (data a))).

(** The [n] vectors of length [c] along the last axis. *)
Definition rows (n c : nat) (d : list V) : list (list V) :=
  map (fun k => firstn c (skipn (k * c) d)) (seq 0 n).

(** [np.argmax(a, axis=-1)]. *)
Definition np_argmax_last (a : ndarray V) : result (ndarray V) :=
  match rev (shape a) with
  | [] => Raise AxisError
  | c :: lead =>
      if c <=? 0 then Raise ValueError
      else
        let s := rev lead in
        Ok (mk_ndarray s
              (map argmax1 (rows (Z.to_nat (size_of s)) (Z.to_nat c) (data a))))
  end.

(** [tf.nn.softmax(a, axis=-1)[..., 1]]. *)
Definition tf_softmax_last_1 (a : ndarray V) : result (ndarray V) :=
  match rev (shape a) with
  | [] => Raise InvalidArgumentError
  | c :: lead =>
      if c <=? 1 then Raise InvalidArgumentError
      else
        let s := rev lead in
        Ok (mk_ndarray s
              (map (fun r => nth 1 (softmax1 r) zero)
                   (rows (Z.to_nat (size_of s)) (Z.to_nat c) (data a))))
  end.

(** [tf.expand_dims(x, axis=-1)]. *)
Definition expand_dims_last (a : ndarray V) : ndarray V :=
  mk_ndarray (shape a ++ [1]) (data a).

(** Stacking the elements of one dataset batch along a new first axis. *)
Definition stack (s : list Z) (l : list (ndarray V)) : ndarray V :=
  mk_ndarray (Z.of_nat (length l) :: s) (concat (map (@data V) l)).
End Arrays.

(** ** The orchestrator *)

(** The parsed command line ([args] together with the integer tuples that
    lines 125-129 and 137 read out of the comma-separated options). *)
Record Args (V : Type) : Type := {
  input_path : string;
  input_data_set : string;
  output_data_set : string;
  model_path : string;
  scaling : option V;
  output_path : string;
  start_coord : list Z;
  end_coord : list Z;
  model_input_shape : list Z;
  model_output_shape : list Z;
  image_shape : list Z;
  set_gpu_mem_growth : bool;
  with_post_processing : bool;
  as_binary_mask : bool;
  unet_batch_size : Z;
  high_threshold : V;
  low_threshold : V;
  small_region_probability_threshold : V;
  small_region_size_threshold : Z
}.

(** Modelled from the spec: [AbsoluteCanvas] of [tools.tilingStrategy], whose
    code is not part of the sources at hand, is the triple (global shape,
    area, backing array) of the data model; the area is an axis-aligned box
    written x0,y0,z0,x1,y1,z1. *)
Record AbsoluteCanvas (V : Type) : Type := {
  global_shape : list Z;
  canvas_area : list Z;
  image : ndarray V
}.

(** Modelled from the spec: [UnetTiler3D] of [tools.tilingStrategy] holds a
    tiling, the input canvas and the output canvas; [main] reaches the output
    canvas as [tiler.mask]. *)
Record UnetTiler3D (V T : Type) : Type := {
  tiling_of : T;
  image_canvas : AbsoluteCanvas V;
  mask : AbsoluteCanvas V
}.

(** The collaborators of [main].  Each function returns what the call
    returns, or the exception it raises.  The functions that work in place
    ([writeSlice], [clean_floodFill], [removeSmallObjects]) take the current
    content of the array they mutate and return its new content. *)
Record World (V : Type) : Type := {
  Tiling : Type;
  Model : Type;
  gpu_fix : result unit;
  UnetTiling3D : list Z -> list Z -> list Z -> list Z -> result Tiling;
  getInputVolume : Tiling -> list Z;
  read_n5_block : string -> string -> list Z -> list Z -> result (ndarray V);
  calculateScalingFactor : ndarray V -> result V;
  scaleImage : ndarray V -> V -> result (ndarray V);
  load_model : string -> result Model;
  predict : Model -> ndarray V -> result (ndarray V);
  (** the windows that a generator made by [tiler.getGeneratorFactory()]
      yields, in order *)
  getGeneratorFactory : UnetTiler3D V Tiling -> list (ndarray V);
  (** [len(tiler)] *)
  tiler_len : UnetTiler3D V Tiling -> Z;
  writeSlice : UnetTiler3D V Tiling -> ndarray V -> Z -> ndarray V ->
               result (ndarray V);
  clean_floodFill : ndarray V -> V -> V -> result (ndarray V);
  removeSmallObjects : ndarray V -> V -> Z -> result (ndarray V);
  write_n5_block : string -> string -> list Z -> list Z -> ndarray V ->
                   result unit
}.

Section Orchestrator.
Context {V : Type} `{Scalar V}.
Variable w : World V.

(** The calls that [main] makes, with their arguments. *)
Inductive call : Type :=
| C_gpu_fix
| C_UnetTiling3D (image_shape subvolume input_shape output_shape : list Z)
| C_read_n5_block (path dataset : string) (start end_ : list Z)
| C_calculateScalingFactor (img : ndarray V)
| C_scaleImage (img : ndarray V) (factor : V)
| C_load_model (path : string)
| C_AbsoluteCanvas (canvas : AbsoluteCanvas V)
| C_UnetTiler3D (tiler : UnetTiler3D V (Tiling w))
| C_next
| C_predict (inp : ndarray V)
| C_writeSlice (tile : Z) (window : ndarray V)
| C_clean_floodFill (img : ndarray V) (high low : V)
| C_removeSmallObjects (img : ndarray V) (probability : V) (size : Z)
| C_write_n5_block (path dataset : string) (start end_ : list Z)
                   (img : ndarray V).

Inductive outcome : Type :=
| Returned
| Raised (e : exn).

Definition entry : Type := (call * outcome)%type.

(** The state that [main] works on: the calls made so far, oldest first,
    and the content of [output_image], the array behind
    [tiler.mask.image] ([None] before line 193 allocates it). *)
Record state : Type := {
  trace : list entry;
  mask_image : option (ndarray V)
}.

Definition init : state := {| trace := []; mask_image := None |}.

Definition M (A : Type) : Type := state -> state * result A.

Definition ret {A} (a : A) : M A := fun s => (s, Ok a).

Definition raise {A} (e : exn) : M A := fun s => (s, Raise e).

Definition bind {A B} (m : M A) (k : A -> M B) : M B :=
  fun s =>
    match m s with
    | (s', Ok a) => k a s'
    | (s', Raise e) => (s', Raise e)
    end.

Definition lift {A} (r : result A) : M A := fun s => (s, r).

Definition outcome_of {A} (r : result A) : outcome :=
  match r with
  | Ok _ => Returned
  | Raise e => Raised e
  end.

Definition log (e : entry) (s : state) : state :=
  {| trace := trace s ++ [e]; mask_image := mask_image s |}.

(** A call to a collaborator: it is recorded with its outcome. *)
Definition invoke {A} (c : call) (r : result A) : M A :=
  fun s => (log (c, outcome_of r) s, r).

Definition set_mask (a : ndarray V) : M unit :=
  fun s => ({| trace := trace s; mask_image := Some a |}, Ok tt).

Definition get_mask : M (ndarray V) :=
  fun s =>
    match mask_image s with
    | Some a => (s, Ok a)
    | None => (s, Raise UnboundLocalError)
    end.
End Orchestrator.

Arguments C_gpu_fix {V w}.
Arguments C_UnetTiling3D {V w}.
Arguments C_read_n5_block {V w}.
Arguments C_calculateScalingFactor {V w}.
Arguments C_scaleImage {V w}.
Arguments C_load_model {V w}.
Arguments C_AbsoluteCanvas {V w}.
Arguments C_UnetTiler3D {V w}.
Arguments C_next {V w}.
Arguments C_predict {V w}.
Arguments C_writeSlice {V w}.
Arguments C_clean_floodFill {V w}.
Arguments C_removeSmallObjects {V w}.
Arguments C_write_n5_block {V w}.
Arguments get_mask {V w}.
Arguments set_mask {V w}.
Arguments init {V w}.

Declare Scope py_scope.
Delimit Scope py_scope with py.
Notation "x <- m ;; k" := (bind m (fun x => k))
  (at level 61, m at next level, right associativity) : py_scope.
Notation "m ;; k" := (bind m (fun _ => k))
  (at level 61, right associativity) : py_scope.

Section Main.
Context {V : Type} `{Scalar V}.
Variable w : World V.
Local Open Scope py_scope.

Abbreviation M := (M w).
Abbreviation tiler_t := (UnetTiler3D V (Tiling w)).

(** Line 133: [tuple([end[i] - start[i] for i in range(len(end))])]. *)
Definition subvolume_shape_of (start end_ : list Z) : result (list Z) :=
  rmapM (fun i => rbind (py_index end_ i) (fun e =>
                  rbind (py_index start i) (fun s => Ok (e - s))))
        (seq 0 (length end_)).

(** Line 146: [[np.max([0, d]) for d in input_volume_aabb[:3]]]. *)
Definition unet_start_of (input_volume_aabb : list Z) : list Z :=
  map (fun d => Z.max 0 d) (firstn 3 input_volume_aabb).

(** Lines 147-148:
    [[np.min([image_shape[i], input_volume_aabb[i+3]]) for i in range(3)]]. *)
Definition unet_end_of (image_shape input_volume_aabb : list Z)
  : result (list Z) :=
  rmapM (fun i => rbind (py_index image_shape i) (fun g =>
                  rbind (py_index input_volume_aabb (i + 3)) (fun d =>
                  Ok (Z.min g d))))
        (seq 0 3).

(** ** The dataset of lines 208-214 *)

(** Consecutive groups of [b] elements, the last one possibly shorter. *)
Fixpoint chunk {A} (fuel b : nat) (l : list A) : list (list A) :=
  match fuel with
  | O => []
  | S fuel' =>
      match l with
      | [] => []
      | _ :: _ => firstn b l :: chunk fuel' b (skipn b l)
      end
  end.

Definition has_shape (s : list Z) (a : ndarray V) : bool :=
  if list_eq_dec Z.eq_dec (shape a) s then true else false.

(** Lines 203-206: the U-Net expects an additional channel axis. *)
Definition preprocess_dataset (x : ndarray V) : ndarray V :=
  expand_dims_last x.

(** One element of the batched dataset: the windows of a group, each checked
    against [output_shapes], given a channel axis by [preprocess_dataset]
    and stacked. *)
Definition dataset_batch (s : list Z) (group : list (ndarray V))
  : result (ndarray V) :=
  if forallb (has_shape s) group
  then Ok (stack (s ++ [1]) (map preprocess_dataset group))
  else Raise InvalidArgumentError.

(** [from_generator(...).map(preprocess_dataset).batch(b).prefetch(2)], as
    the sequence of results that successive [next] calls deliver. *)
Definition predictionset (s : list Z) (b : Z) (windows : list (ndarray V))
  : result (list (result (ndarray V))) :=
  if b <=? 0 then Raise InvalidArgumentError
  else Ok (map (dataset_batch s)
               (chunk (length windows) (Z.to_nat b) windows)).

(** ** Setting up (lines 122-198) *)

Definition setup (args : Args V) : M (tiler_t * Model w) :=
  (if set_gpu_mem_growth args
   then invoke C_gpu_fix (gpu_fix w)
   else ret tt) ;;
  let start := start_coord args in
  let end_ := end_coord args in
  let model_input_shape := model_input_shape args in
  let model_output_shape := model_output_shape args in
  let subvolume := start ++ end_ in
  subvolume_shape <- lift (subvolume_shape_of start end_) ;;
  let image_shape := image_shape args in
  tiling <- invoke (C_UnetTiling3D image_shape subvolume
                                   model_input_shape model_output_shape)
                   (UnetTiling3D w image_shape subvolume
                                 model_input_shape model_output_shape) ;;
  let input_volume_aabb := getInputVolume w tiling in
  let unet_start := unet_start_of input_volume_aabb in
  unet_end <- lift (unet_end_of image_shape input_volume_aabb) ;;
  let unet_volume := unet_start ++ unet_end in
  img <- invoke (C_read_n5_block (input_path args) (input_data_set args)
                                 unet_start unet_end)
                (read_n5_block w (input_path args) (input_data_set args)
                               unet_start unet_end) ;;
  scalingFactor <-
    match scaling args with
    | None => invoke (C_calculateScalingFactor img)
                     (calculateScalingFactor w img)
    | Some f => ret f
    end ;;
  img <- invoke (C_scaleImage img scalingFactor)
                (scaleImage w img scalingFactor) ;;
  unet <- invoke (C_load_model (model_path args))
                 (load_model w (model_path args)) ;;
  let input_canvas :=
    {| global_shape := image_shape; canvas_area := unet_volume;
       image := img |} in
  invoke (C_AbsoluteCanvas input_canvas) (Ok tt) ;;
  output_image <- lift (np_zeros subvolume_shape) ;;
  set_mask output_image ;;
  let output_canvas :=
    {| global_shape := image_shape; canvas_area := subvolume;
       image := output_image |} in
  invoke (C_AbsoluteCanvas output_canvas) (Ok tt) ;;
  let tiler :=
    {| tiling_of := tiling; image_canvas := input_canvas;
       mask := output_canvas |} in
  invoke (C_UnetTiler3D tiler) (Ok tt) ;;
  ret (tiler, unet).

(** ** Segmentation (lines 208-240) *)

(** Lines 228-233. *)
Definition reduce_channels (args : Args V) (batch : ndarray V)
  : result (ndarray V) :=
  if as_binary_mask args
  then np_argmax_last batch
  else tf_softmax_last_1 batch.

(** Lines 236-238: the items [i], [i+1], ... of the batch, [n] of them. *)
Fixpoint write_tiles (tiler : tiler_t) (batch : ndarray V) (n i : nat)
         (tile : Z) : M Z :=
  match n with
  | O => ret tile
  | S n' =>
      cur <- get_mask ;;
      new <- invoke (C_writeSlice tile (item batch i))
                    (writeSlice w tiler cur tile (item batch i)) ;;
      set_mask new ;;
      write_tiles tiler batch n' (S i) (tile + 1)
  end.

(** Lines 223-240; [dataset_iterator] is what is left of the dataset. *)
Fixpoint predict_loop (args : Args V) (tiler : tiler_t) (unet : Model w)
         (dataset_iterator : list (result (ndarray V))) (tile : Z)
  : M unit :=
  if tile <? tiler_len w tiler then
    match dataset_iterator with
    | [] => invoke C_next (Raise StopIteration)
    | r :: rest =>
        inp <- invoke C_next r ;;
        batch <- invoke (C_predict inp) (predict w unet inp) ;;
        batch <- lift (reduce_channels args batch) ;;
        n <- lift (shape0 batch) ;;
        tile <- write_tiles tiler batch (Z.to_nat n) 0 tile ;;
        predict_loop args tiler unet rest tile
    end
  else ret tt.

Definition segment (args : Args V) (tiler : tiler_t) (unet : Model w)
  : M unit :=
  ds <- lift (predictionset (model_input_shape args) (unet_batch_size args)
                            (getGeneratorFactory w tiler)) ;;
  predict_loop args tiler unet ds 0.

(** ** Post-processing (lines 243-249) and storing (lines 255-256) *)

Definition postprocess (args : Args V) : M unit :=
  if with_post_processing args then
    img <- get_mask ;;
    img <- invoke (C_clean_floodFill img (high_threshold args)
                                     (low_threshold args))
                  (clean_floodFill w img (high_threshold args)
                                   (low_threshold args)) ;;
    set_mask img ;;
    img <- get_mask ;;
    img <- invoke (C_removeSmallObjects img
                     (small_region_probability_threshold args)
                     (small_region_size_threshold args))
                  (removeSmallObjects w img
                     (small_region_probability_threshold args)
                     (small_region_size_threshold args)) ;;
    set_mask img
  else ret tt.

Definition store (args : Args V) : M unit :=
  img <- get_mask ;;
  invoke (C_write_n5_block (output_path args) (output_data_set args)
                           (start_coord args) (end_coord args) img)
         (write_n5_block w (output_path args) (output_data_set args)
                         (start_coord args) (end_coord args) img).

Definition main (args : Args V) : M unit :=
  env <- setup args ;;
  let (tiler, unet) := env in
  segment args tiler unet ;;
  postprocess args ;;
  store args.

(** A run of the program, from the empty trace. *)
Definition run (args : Args V) : state w * result unit :=
  main args init.
End Main.

(** ** The tile plan of [tools.tilingStrategy] *)

Module TilePlan.

Record vec3 : Type := mk_vec3 { vx : Z; vy : Z; vz : Z }.

(** A half-open box: [bstart] inclusive, [bend] exclusive on every axis. *)
Record bbox : Type := mk_bbox { bstart : vec3; bend : vec3 }.

Record Tile : Type := mk_Tile {
  index : nat;
  input_bbox : bbox;
  output_bbox : bbox;
  valid_output_bbox : bbox
}.

Record TilePlan : Type := mk_TilePlan {
  tiles : list Tile;
  union_input_bbox : bbox;
  target_region : bbox
}.

Definition ConfigurationError : exn := "ConfigurationError"%string.

Definition in_box (p : vec3) (b : bbox) : Prop :=
  (vx (bstart b) <= vx p < vx (bend b)) /\
  (vy (bstart b) <= vy p < vy (bend b)) /\
  (vz (bstart b) <= vz p < vz (bend b)).

Definition vmap2 (f : Z -> Z -> Z) (a b : vec3) : vec3 :=
  mk_vec3 (f (vx a) (vx b)) (f (vy a) (vy b)) (f (vz a) (vz b)).

Definition vall2 (f : Z -> Z -> bool) (a b : vec3) : bool :=
  f (vx a) (vx b) && f (vy a) (vy b) && f (vz a) (vz b).

Definition origin : vec3 := mk_vec3 0 0 0.

(** The box [0, global_shape). *)
Definition whole (global_shape : vec3) : bbox := mk_bbox origin global_shape.

Definition inter (a b : bbox) : bbox :=
  mk_bbox (vmap2 Z.max (bstart a) (bstart b)) (vmap2 Z.min (bend a) (bend b)).

Definition hull (a b : bbox) : bbox :=
  mk_bbox (vmap2 Z.min (bstart a) (bstart b)) (vmap2 Z.max (bend a) (bend b)).

Definition nonempty (b : bbox) : bool := vall2 Z.ltb (bstart b) (bend b).

(** Modelled from the spec: step 1 of the tiling algorithm of
    [UnetTiling3D] (absent from the sources at hand), for one axis: output
    windows start at the start of the target region and advance by the
    model output shape while the start lies before the end of the target
    region.  [None] when the loop has not ended within [fuel] rounds. *)
Fixpoint axis_starts (fuel : nat) (stride end_ s : Z) : option (list Z) :=
  if s <? end_ then
    match fuel with
    | O => None
    | S fuel' => option_map (cons s) (axis_starts fuel' stride end_ (s + stride))
    end
  else Some [].

(** Modelled from the spec: the margin of the absent [UnetTiling3D],
    (input shape - output shape) / 2 on the leading side; the trailing side
    takes the rest, so that an odd difference gives its extra unit to the
    trailing side. *)
Definition margin_leading (input_shape output_shape : vec3) : vec3 :=
  vmap2 (fun i o => (i - o) / 2) input_shape output_shape.

Definition margin_trailing (input_shape output_shape : vec3) : vec3 :=
  vmap2 (fun i o => (i - o) - (i - o) / 2) input_shape output_shape.

(** Modelled from the spec: steps 3 and 5 for the tile of the absent
    [UnetTiling3D] whose output window starts at [s]. *)
Definition make_tile (global_shape : vec3) (target : bbox)
           (input_shape output_shape : vec3) (i : nat) (s : vec3) : Tile :=
  let out := mk_bbox s (vmap2 Z.add s output_shape) in
  {| index := i;
     input_bbox :=
       mk_bbox (vmap2 Z.sub (bstart out)
                      (margin_leading input_shape output_shape))
               (vmap2 Z.add (bend out)
                      (margin_trailing input_shape output_shape));
     output_bbox := out;
     valid_output_bbox := inter (inter out target) (whole global_shape) |}.

(** Step 2: the grid in row-major order, the first axis slowest. *)
Definition grid (xs ys zs : list Z) : list vec3 :=
  map (fun p => mk_vec3 (fst p) (fst (snd p)) (snd (snd p)))
      (list_prod xs (list_prod ys zs)).

Definition number {A} (l : list A) : list (nat * A) :=
  combine (seq 0 (length l)) l.

(** Step 4. *)
Definition union_of (l : list Tile) : bbox :=
  match l with
  | [] => mk_bbox origin origin
  | t :: ts => fold_left (fun acc t' => hull acc (input_bbox t')) ts
                         (input_bbox t)
  end.

(** Modelled from the spec: the constructor of the absent [UnetTiling3D].
    A ConfigurationError when the output shape exceeds the input shape on
    some axis or the target region is empty or lies outside the volume;
    [None] when the tiling loops have not ended within [fuel] rounds. *)
Definition make (fuel : nat) (global_shape : vec3) (target : bbox)
           (input_shape output_shape : vec3) : option (result TilePlan) :=
  if negb (vall2 Z.leb output_shape input_shape) then
    Some (Raise ConfigurationError)
  else if negb (nonempty target) then Some (Raise ConfigurationError)
  else if negb (nonempty (inter target (whole global_shape))) then
    Some (Raise ConfigurationError)
  else
    match axis_starts fuel (vx output_shape) (vx (bend target))
                      (vx (bstart target)),
          axis_starts fuel (vy output_shape) (vy (bend target))
                      (vy (bstart target)),
          axis_starts fuel (vz output_shape) (vz (bend target))
                      (vz (bstart target)) with
    | Some xs, Some ys, Some zs =>
        let ts := map (fun p => make_tile global_shape target input_shape
                                          output_shape (fst p) (snd p))
                      (number (grid xs ys zs)) in
        Some (Ok {| tiles := ts;
                    union_input_bbox := union_of ts;
                    target_region := target |})
    | _, _, _ => None
    end.

(** The plan as [main] sees it: shapes and boxes as flat integer lists.  A
    request whose loops would not end is refused like one with bad shapes. *)
Definition vec3_of (l : list Z) : result vec3 :=
  match l with
  | [x; y; z] => Ok (mk_vec3 x y z)
  | _ => Raise ConfigurationError
  end.

Definition list_of (v : vec3) : list Z := [vx v; vy v; vz v].

Definition aabb_of (b : bbox) : list Z := list_of (bstart b) ++ list_of (bend b).

Definition extent (b : bbox) : vec3 := vmap2 Z.sub (bend b) (bstart b).

(** Enough rounds for the three loops of a plan with positive strides. *)
Definition enough_fuel (target : bbox) : nat :=
  Z.to_nat (Z.max (vx (extent target))
                  (Z.max (vy (extent target)) (vz (extent target)))).

Definition of_lists (image_shape subvolume input_shape output_shape : list Z)
  : result TilePlan :=
  rbind (vec3_of image_shape) (fun g =>
  rbind (vec3_of (firstn 3 subvolume)) (fun s =>
  rbind (vec3_of (skipn 3 subvolume)) (fun e =>
  rbind (vec3_of input_shape) (fun i =>
  rbind (vec3_of output_shape) (fun o =>
  match make (enough_fuel (mk_bbox s e)) g (mk_bbox s e) i o with
  | Some r => r
  | None => Raise ConfigurationError
  end))))).

End TilePlan.

(** ** The tile stream of [tools.tilingStrategy] *)

Module TileStream.
Import TilePlan.

Definition OutOfRangeError : exn := "OutOfRangeError"%string.
Definition ShapeError : exn := "ShapeError"%string.

Definition in_boxb (p : vec3) (b : bbox) : bool :=
  vall2 Z.leb (bstart b) p && vall2 Z.ltb p (bend b).

(** Row-major position [k] of an array of shape [s], and back. *)
Definition unflatten (s : vec3) (k : Z) : vec3 :=
  mk_vec3 (k / (vy s * vz s)) ((k / vz s) mod vy s) (k mod vz s).

Definition flatten (s p : vec3) : Z :=
  (vx p * vy s + vy p) * vz s + vz p.

Definition positions (n : nat) : list Z := map Z.of_nat (seq 0 n).

(** A box written x0,y0,z0,x1,y1,z1. *)
Definition box_of (aabb : list Z) : bbox :=
  mk_bbox (mk_vec3 (nth 0 aabb 0) (nth 1 aabb 0) (nth 2 aabb 0))
          (mk_vec3 (nth 3 aabb 0) (nth 4 aabb 0) (nth 5 aabb 0)).

Section Stream.
Context {V : Type} `{Scalar V}.

(** The value that the canvas holds at the global position [g]. *)
Definition canvas_at (area : bbox) (img : list V) (g : vec3) : V :=
  nth (Z.to_nat (flatten (extent area) (vmap2 Z.sub g (bstart area))))
      img zero.

(** Modelled from the spec: the zero-padded read of one input window by
    the absent [UnetTiler3D]: positions of the window outside the canvas
    area read as zero. *)
Definition read_padded (canvas : AbsoluteCanvas V) (b : bbox) : ndarray V :=
  let area := box_of (canvas_area canvas) in
  mk_ndarray (list_of (extent b))
    (map (fun k =>
            let g := vmap2 Z.add (bstart b) (unflatten (extent b) k) in
            if in_boxb g area
            then canvas_at area (data (image canvas)) g
            else zero)
         (positions (Z.to_nat (size_of (list_of (extent b)))))).

(** Modelled from the spec: the windows of the generator of the absent
    [UnetTiler3D], one per tile, in the order of the tile indices. *)
Definition windows (plan : TilePlan) (canvas : AbsoluteCanvas V)
  : list (ndarray V) :=
  map (fun t => read_padded canvas (input_bbox t)) (tiles plan).

(** Modelled from the spec: [writeSlice] of the absent [UnetTiler3D]: the
    window is cropped to the valid output box of the tile and the crop is
    written into the output canvas; [cur] is the content of the canvas
    before the call and the result its content afterwards. *)
Definition writeSlice (plan : TilePlan) (out_canvas : AbsoluteCanvas V)
           (cur : ndarray V) (i : Z) (window : ndarray V)
  : result (ndarray V) :=
  if (i <? 0) || (Z.of_nat (length (tiles plan)) <=? i)
  then Raise IndexError
  else
    match nth_error (tiles plan) (Z.to_nat i) with
    | None => Raise IndexError
    | Some t =>
        if list_eq_dec Z.eq_dec (shape window)
                       (list_of (extent (output_bbox t)))
        then
          let area := box_of (canvas_area out_canvas) in
          if nonempty (inter (valid_output_bbox t) area) then
            Ok (mk_ndarray (shape cur)
                  (map (fun k =>
                          let g := vmap2 Z.add (bstart area)
                                         (unflatten (extent area) k) in
                          if in_boxb g (valid_output_bbox t)
                          then canvas_at (output_bbox t) (data window) g
                          else nth (Z.to_nat k) (data cur) zero)
                       (positions (length (data cur)))))
          else Raise OutOfRangeError
        else Raise ShapeError
    end.
End Stream.
End TileStream.

(** ** The hysteresis flood fill of [tools.postProcessing] *)

Module Postprocessor.

Definition ShapeError : exn := "ShapeError"%string.

(** The up to six neighbours, as row-major positions, of position [i] in a
    volume of shape [dx, dy, dz]. *)
Definition neighbours (dx dy dz i : nat) : list nat :=
  let x := (i / (dy * dz))%nat in
  let y := ((i / dz) mod dy)%nat in
  let z := (i mod dz)%nat in
  let at_ (x y z : nat) := ((x * dy + y) * dz + z)%nat in
  (if (0 <? x)%nat then [at_ (x - 1)%nat y z] else []) ++
  (if (x + 1 <? dx)%nat then [at_ (x + 1)%nat y z] else []) ++
  (if (0 <? y)%nat then [at_ x (y - 1)%nat z] else []) ++
  (if (y + 1 <? dy)%nat then [at_ x (y + 1)%nat z] else []) ++
  (if (0 <? z)%nat then [at_ x y (z - 1)%nat] else []) ++
  (if (z + 1 <? dz)%nat then [at_ x y (z + 1)%nat] else []).

(** One round of growth: a voxel is reached when it was reached before, or
    when it passes the low threshold and has a reached neighbour. *)
Definition grow_step (nb : nat -> list nat) (pass reached : list bool)
  : list bool :=
  map (fun i => nth i reached false ||
                (nth i pass false &&
                 existsb (fun j => nth j reached false) (nb i)))
      (seq 0 (length reached)).

(** The number of reached voxels. *)
Definition count (m : list bool) : nat := length (filter (fun b => b) m).

(** [le_mask m m']: every voxel of [m] is a voxel of [m']. *)
Definition le_mask (m m' : list bool) : Prop :=
  Forall2 (fun b b' => b = true -> b' = true) m m'.

Fixpoint grow (rounds : nat) (nb : nat -> list nat) (pass reached : list bool)
  : list bool :=
  match rounds with
  | O => reached
  | S rounds' => grow rounds' nb pass (grow_step nb pass reached)
  end.

Section FloodFill.
Context {V : Type}.
(** [geb a b] decides [a >= b]; [one] and [nought] are the foreground and
    background values. *)
Variable geb : V -> V -> bool.
Variables one nought : V.

(** Modelled from the spec: [clean_floodFill] of the absent
    [tools.postProcessing]: the seeds are the voxels at or above the high
    threshold; each seed grows through 6-connected neighbours at or above
    the low threshold; reached voxels become foreground, all others
    background.  As many rounds as there are voxels let the growth come
    to rest.  [a] is the content of the array before the call, the result
    its content afterwards. *)
Definition clean_floodFill (a : ndarray V) (high low : V)
  : result (ndarray V) :=
  match shape a with
  | [dx; dy; dz] =>
      let seeds := map (fun v => geb v high) (data a) in
      let pass := map (fun v => geb v low) (data a) in
      let nb := neighbours (Z.to_nat dx) (Z.to_nat dy) (Z.to_nat dz) in
      let reached := grow (length (data a)) nb pass seeds in
      Ok (mk_ndarray (shape a)
            (map (fun r : bool => if r then one else nought) reached))
  | _ => Raise ShapeError
  end.
End FloodFill.

(** The flood fill on rational voxel values and thresholds. *)
Definition clean_floodFill_Q : ndarray Q -> Q -> Q -> result (ndarray Q) :=
  clean_floodFill (fun a b => Qle_bool b a) (1%Q) (0%Q).

(** A volume of a single voxel. *)
Definition one_voxel (v : Q) : ndarray Q := mk_ndarray [1; 1; 1] [v].

End Postprocessor.


(** ** Real-valued arrays

    The voxel values, logits and thresholds are floating-point numbers in the
    program; here they are real numbers, on which [np.argmax] and
    [tf.nn.softmax] have their textbook definitions. *)

Fixpoint argmax_from (best_i : nat) (best : R) (i : nat) (l : list R) : nat :=
  match l with
  | [] => best_i
  | x :: xs =>
      if Rlt_dec best x
      then argmax_from i x (S i) xs
      else argmax_from best_i best (S i) xs
  end.

Definition argmax_R (l : list R) : R :=
  match l with
  | [] => 0%R
  | x :: xs => INR (argmax_from 0 x 1 xs)
  end.

Definition sum_R (l : list R) : R := fold_right Rplus 0%R l.

Definition softmax_R (l : list R) : list R :=
  map (fun x => (exp x / sum_R (map exp l))%R) l.

#[export] Instance R_Scalar : Scalar R :=
  {| zero := 0%R; argmax1 := argmax_R; softmax1 := softmax_R |}.

Definition Rgeb (a b : R) : bool := if Rle_dec b a then true else false.

(** ** A small world

    A volume of 4 x 4 x 4 voxels that all hold 1, a model with a 1 x 1 x 1
    output window and two classes that answers every input with zero logits,
    and the tile plan, tile stream and flood fill above.  [broken] names a
    tile, if any, whose [writeSlice] call raises. *)

Definition np_full (v : R) (s : list Z) : ndarray R :=
  mk_ndarray s (repeat v (Z.to_nat (size_of s))).

Definition demo_world (broken : option Z) : World R :=
  {| Tiling := TilePlan.TilePlan;
     Model := list Z;
     gpu_fix := Ok tt;
     UnetTiling3D := TilePlan.of_lists;
     getInputVolume := fun t => TilePlan.aabb_of (TilePlan.union_input_bbox t);
     read_n5_block := fun _ _ s e =>
       if (length s =? length e)%nat
       then rbind (subvolume_shape_of s e) (fun sh => Ok (np_full 1%R sh))
       else Raise ValueError;
     calculateScalingFactor := fun _ => Ok 1%R;
     scaleImage := fun img f =>
       Ok (mk_ndarray (shape img) (map (fun x => (x * f)%R) (data img)));
     load_model := fun _ => Ok [1; 1; 1];
     predict := fun m inp =>
       match shape inp with
       | b :: _ => Ok (np_full 0%R ((b :: m) ++ [2]))
       | [] => Raise ValueError
       end;
     getGeneratorFactory := fun t =>
       TileStream.windows (tiling_of t) (image_canvas t);
     tiler_len := fun t =>
       Z.of_nat (length (TilePlan.tiles (tiling_of t)));
     writeSlice := fun t cur i win =>
       if match broken with Some b => i =? b | None => false end
       then Raise "IOError"%string
       else TileStream.writeSlice (tiling_of t) (mask t) cur i win;
     clean_floodFill := Postprocessor.clean_floodFill Rgeb 1%R 0%R;
     removeSmallObjects := fun img _ _ => Ok img;
     write_n5_block := fun _ _ _ _ _ => Ok tt |}.

Definition demo_args (post : bool) : Args R :=
  {| input_path := "in.n5";
     input_data_set := "/s0";
     output_data_set := "/s0";
     model_path := "unet.h5";
     scaling := Some 2%R;
     output_path := "out.n5";
     start_coord := [0; 0; 0];
     end_coord := [1; 1; 2];
     model_input_shape := [3; 3; 3];
     model_output_shape := [1; 1; 1];
     image_shape := [4; 4; 4];
     set_gpu_mem_growth := false;
     with_post_processing := post;
     as_binary_mask := false;
     unet_batch_size := 1;
     high_threshold := 1%R;
     low_threshold := (1 / 2)%R;
     small_region_probability_threshold := (1 / 2)%R;
     small_region_size_threshold := 1 |}.

(** ** Observing a run *)

Section Observers.
Context {V : Type} `{Scalar V}.
Variable w : World V.

Definition final_trace (args : Args V) : list (entry w) :=
  trace (fst (run w args)).

Definition final_result (args : Args V) : result unit := snd (run w args).

Definition final_mask (args : Args V) : option (ndarray V) :=
  mask_image (fst (run w args)).

Definition is_read (c : call w) : bool :=
  match c with C_read_n5_block _ _ _ _ => true | _ => false end.

Definition is_calculateScalingFactor (c : call w) : bool :=
  match c with C_calculateScalingFactor _ => true | _ => false end.

Definition is_scaleImage (c : call w) : bool :=
  match c with C_scaleImage _ _ => true | _ => false end.

Definition is_predict (c : call w) : bool :=
  match c with C_predict _ => true | _ => false end.

Definition is_writeSlice (c : call w) : bool :=
  match c with C_writeSlice _ _ => true | _ => false end.

Definition is_postprocess (c : call w) : bool :=
  match c with
  | C_clean_floodFill _ _ _ | C_removeSmallObjects _ _ _ => true
  | _ => false
  end.

Definition is_store (c : call w) : bool :=
  match c with C_write_n5_block _ _ _ _ _ => true | _ => false end.

(** The calls of a kind, in the order in which they were made. *)
Definition calls_of (p : call w -> bool) (t : list (entry w)) : list (entry w) :=
  filter (fun en => p (fst en)) t.

(** The tile indices of the [writeSlice] calls, in call order. *)
Definition written_tiles (t : list (entry w)) : list Z :=
  flat_map (fun en => match fst en with
                      | C_writeSlice tile _ => [tile]
                      | _ => []
                      end) t.

Definition returned (en : entry w) : Prop := snd en = Returned.
End Observers.

Arguments is_read {V w}.
Arguments is_calculateScalingFactor {V w}.
Arguments is_scaleImage {V w}.
Arguments is_predict {V w}.
Arguments is_writeSlice {V w}.
Arguments is_postprocess {V w}.
Arguments is_store {V w}.
Arguments calls_of {V w}.
Arguments written_tiles {V w}.
Arguments returned {V w}.


(** ** The shape of a run *)

Section Runs.
Context {V : Type} `{Scalar V}.
Variable w : World V.

(** A trace in which an exception, if any call raised one, was raised by the
    last call and is the result. *)
Definition clean {A} (t : list (entry w)) (r : result A) : Prop :=
  Forall returned t \/
  exists pre c e, t = pre ++ [(c, Raised e)] /\ Forall returned pre /\
                  r = Raise e.

(** What a set-up that runs to its end has computed: the values bound at
    lines 133, 139, 147, 154, 159 or 163, 166, 171 and 193. *)
Record Env : Type := {
  e_subvolume_shape : list Z;
  e_tiling : Tiling w;
  e_unet_end : list Z;
  e_raw : ndarray V;
  e_scalingFactor : V;
  e_img : ndarray V;
  e_unet : Model w;
  e_output_image : ndarray V
}.

Definition unet_start_in (env : Env) : list Z :=
  unet_start_of (getInputVolume w (e_tiling env)).

Definition input_canvas_in (args : Args V) (env : Env) : AbsoluteCanvas V :=
  {| global_shape := image_shape args;
     canvas_area := unet_start_in env ++ e_unet_end env;
     image := e_img env |}.

Definition output_canvas_in (args : Args V) (env : Env) : AbsoluteCanvas V :=
  {| global_shape := image_shape args;
     canvas_area := start_coord args ++ end_coord args;
     image := e_output_image env |}.

Definition tiler_in (args : Args V) (env : Env) : UnetTiler3D V (Tiling w) :=
  {| tiling_of := e_tiling env;
     image_canvas := input_canvas_in args env;
     mask := output_canvas_in args env |}.

Definition factor_from (args : Args V) (raw : ndarray V) (f : V) : Prop :=
  match scaling args with
  | Some f' => f = f'
  | None => calculateScalingFactor w raw = Ok f
  end.

Definition setup_ok (args : Args V) (env : Env) : Prop :=
  (set_gpu_mem_growth args = true -> gpu_fix w = Ok tt) /\
  subvolume_shape_of (start_coord args) (end_coord args)
    = Ok (e_subvolume_shape env) /\
  UnetTiling3D w (image_shape args) (start_coord args ++ end_coord args)
               (model_input_shape args) (model_output_shape args)
    = Ok (e_tiling env) /\
  unet_end_of (image_shape args) (getInputVolume w (e_tiling env))
    = Ok (e_unet_end env) /\
  read_n5_block w (input_path args) (input_data_set args)
                (unet_start_in env) (e_unet_end env)
    = Ok (e_raw env) /\
  factor_from args (e_raw env) (e_scalingFactor env) /\
  scaleImage w (e_raw env) (e_scalingFactor env) = Ok (e_img env) /\
  load_model w (model_path args) = Ok (e_unet env) /\
  np_zeros (e_subvolume_shape env) = Ok (e_output_image env).

Definition gpu_entries (args : Args V) : list (entry w) :=
  if set_gpu_mem_growth args then [(C_gpu_fix, Returned)] else [].

Definition calc_entries (args : Args V) (raw : ndarray V) : list (entry w) :=
  match scaling args with
  | Some _ => []
  | None => [(C_calculateScalingFactor raw, Returned)]
  end.

(** The calls of a set-up that runs to its end. *)
Definition setup_trace (args : Args V) (env : Env) : list (entry w) :=
  gpu_entries args ++
  [(C_UnetTiling3D (image_shape args) (start_coord args ++ end_coord args)
                   (model_input_shape args) (model_output_shape args),
    Returned);
   (C_read_n5_block (input_path args) (input_data_set args)
                    (unet_start_in env) (e_unet_end env), Returned)] ++
  calc_entries args (e_raw env) ++
  [(C_scaleImage (e_raw env) (e_scalingFactor env), Returned);
   (C_load_model (model_path args), Returned);
   (C_AbsoluteCanvas (input_canvas_in args env), Returned);
   (C_AbsoluteCanvas (output_canvas_in args env), Returned);
   (C_UnetTiler3D (tiler_in args env), Returned)].

(** The arguments with which the bulk read is issued. *)
Definition read_args_ok (args : Args V) (path dataset : string)
           (start end_ : list Z) : Prop :=
  path = input_path args /\ dataset = input_data_set args /\
  exists tiling,
    UnetTiling3D w (image_shape args) (start_coord args ++ end_coord args)
                 (model_input_shape args) (model_output_shape args)
      = Ok tiling /\
    start = unet_start_of (getInputVolume w tiling) /\
    unet_end_of (image_shape args) (getInputVolume w tiling) = Ok end_.

(** The arguments with which the image is scaled. *)
Definition scale_args_ok (args : Args V) (img : ndarray V) (f : V) : Prop :=
  (exists start end_,
      read_args_ok args (input_path args) (input_data_set args) start end_ /\
      read_n5_block w (input_path args) (input_data_set args) start end_
        = Ok img) /\
  factor_from args img f.

Definition is_setup_call (c : call w) : bool :=
  match c with
  | C_gpu_fix | C_UnetTiling3D _ _ _ _ | C_read_n5_block _ _ _ _
  | C_calculateScalingFactor _ | C_scaleImage _ _ | C_load_model _
  | C_AbsoluteCanvas _ | C_UnetTiler3D _ => true
  | _ => false
  end.

Definition is_segment_call (c : call w) : bool :=
  match c with
  | C_next | C_predict _ | C_writeSlice _ _ => true
  | _ => false
  end.

Definition is_tiler (c : call w) : bool :=
  match c with C_UnetTiler3D _ => true | _ => false end.

(** What holds of the calls of a set-up that an exception ends. *)
Definition setup_failed (args : Args V) (t : list (entry w)) (e : exn) : Prop :=
  Forall (fun en => is_setup_call (fst en) = true /\
                    is_tiler (fst en) = false) t /\
  clean t (@Raise unit e) /\
  (length (calls_of is_read t) <= 1)%nat /\
  (length (calls_of is_scaleImage t) <= 1)%nat /\
  (forall path dataset start end_ o,
      In (C_read_n5_block path dataset start end_, o) t ->
      read_args_ok args path dataset start end_) /\
  (forall img f o, In (C_scaleImage img f, o) t -> scale_args_ok args img f) /\
  (forall img o, In (C_calculateScalingFactor img, o) t ->
                 scaling args = None).

(** The reduced batch item that a [writeSlice] call is given. *)
Definition window_ok (args : Args V) (window : ndarray V) : Prop :=
  exists unet inp batch reduced n i,
    predict w unet inp = Ok batch /\
    reduce_channels args batch = Ok reduced /\
    shape0 reduced = Ok n /\
    (i < Z.to_nat n)%nat /\
    window = item reduced i.
End Runs.

Arguments is_setup_call {V w}.
Arguments is_segment_call {V w}.
Arguments is_tiler {V w}.

(** The tile indices [tile], [tile + 1], ... in this order. *)
Definition consecutive_from (tile : Z) (l : list Z) : Prop :=
  l = map (fun j => tile + Z.of_nat j) (seq 0 (length l)).

Section Phases.
Context {V : Type} `{Scalar V}.
Variable w : World V.

(** The content of the output canvas after the [writeSlice] calls of [t]
    that returned, when it was [m] before them. *)
Definition replay (tiler : UnetTiler3D V (Tiling w)) (t : list (entry w))
           (m : ndarray V) : ndarray V :=
  fold_left (fun m en =>
               match en with
               | (C_writeSlice tile window, Returned) =>
                   match writeSlice w tiler m tile window with
                   | Ok m' => m'
                   | Raise _ => m
                   end
               | _ => m
               end) t m.

(** What holds of the calls [t] and the result [r] of the prediction loop,
    which leaves the output canvas with the content [m]. *)
Definition segment_ok (args : Args V) (env : Env w) (t : list (entry w))
           (r : result unit) (m : ndarray V) : Prop :=
  let tiler := tiler_in args env in
  Forall (fun en => is_segment_call (fst en) = true) t /\
  clean t r /\
  m = replay tiler t (e_output_image env) /\
  consecutive_from 0 (written_tiles t) /\
  (r = Ok tt -> tiler_len w tiler <= Z.of_nat (length (written_tiles t))) /\
  (forall tile window o, In (C_writeSlice tile window, o) t ->
                         window_ok w args window) /\
  ((forall u inp out, predict w u inp = Ok out -> shape0 out = shape0 inp) ->
   Z.of_nat (length (getGeneratorFactory w tiler)) <= tiler_len w tiler ->
   Z.of_nat (length (written_tiles t)) <= tiler_len w tiler).

(** The calls [t] and the result [r] of the post-processing of a canvas with
    content [m], which leaves it with the content [m']. *)
Inductive postprocess_ok (args : Args V) (m : ndarray V)
  : list (entry w) -> result unit -> ndarray V -> Prop :=
| Post_off :
    with_post_processing args = false ->
    postprocess_ok args m [] (Ok tt) m
| Post_floodFill_raised e :
    with_post_processing args = true ->
    clean_floodFill w m (high_threshold args) (low_threshold args) = Raise e ->
    postprocess_ok args m
      [(C_clean_floodFill m (high_threshold args) (low_threshold args),
        Raised e)]
      (Raise e) m
| Post_removeSmallObjects_raised m2 e :
    with_post_processing args = true ->
    clean_floodFill w m (high_threshold args) (low_threshold args) = Ok m2 ->
    removeSmallObjects w m2 (small_region_probability_threshold args)
                       (small_region_size_threshold args) = Raise e ->
    postprocess_ok args m
      [(C_clean_floodFill m (high_threshold args) (low_threshold args),
        Returned);
       (C_removeSmallObjects m2 (small_region_probability_threshold args)
                             (small_region_size_threshold args), Raised e)]
      (Raise e) m2
| Post_done m2 m3 :
    with_post_processing args = true ->
    clean_floodFill w m (high_threshold args) (low_threshold args) = Ok m2 ->
    removeSmallObjects w m2 (small_region_probability_threshold args)
                       (small_region_size_threshold args) = Ok m3 ->
    postprocess_ok args m
      [(C_clean_floodFill m (high_threshold args) (low_threshold args),
        Returned);
       (C_removeSmallObjects m2 (small_region_probability_threshold args)
                             (small_region_size_threshold args), Returned)]
      (Ok tt) m3.

(** The call of lines 255-256 on a canvas with content [m]. *)
Definition store_entry (args : Args V) (m : ndarray V) : entry w :=
  (C_write_n5_block (output_path args) (output_data_set args)
                    (start_coord args) (end_coord args) m,
   outcome_of (write_n5_block w (output_path args) (output_data_set args)
                              (start_coord args) (end_coord args) m)).

(** The four ways in which a run can go: the calls made, the result and the
    content of the output canvas at the end. *)
Inductive run_shape (args : Args V)
  : list (entry w) -> result unit -> option (ndarray V) -> Prop :=
| Run_setup_failed t e :
    setup_failed args t e ->
    run_shape args t (Raise e) None
| Run_segment_failed env t2 e m2 :
    setup_ok args env ->
    segment_ok args env t2 (Raise e) m2 ->
    run_shape args (setup_trace args env ++ t2) (Raise e) (Some m2)
| Run_postprocess_failed env t2 m2 t3 e m3 :
    setup_ok args env ->
    segment_ok args env t2 (Ok tt) m2 ->
    postprocess_ok args m2 t3 (Raise e) m3 ->
    run_shape args (setup_trace args env ++ t2 ++ t3) (Raise e) (Some m3)
| Run_stored env t2 m2 t3 m3 :
    setup_ok args env ->
    segment_ok args env t2 (Ok tt) m2 ->
    postprocess_ok args m2 t3 (Ok tt) m3 ->
    run_shape args
      (setup_trace args env ++ t2 ++ t3 ++ [store_entry args m3])
      (write_n5_block w (output_path args) (output_data_set args)
                      (start_coord args) (end_coord args) m3)
      (Some m3).
End Phases.

(** The plan of the small world for the target region of [demo_args], and
    what its set-up computes. *)
Definition demo_plan : TilePlan.TilePlan :=
  Eval vm_compute in
    match TilePlan.of_lists [4; 4; 4] [0; 0; 0; 1; 1; 2] [3; 3; 3] [1; 1; 1]
    with
    | Ok plan => plan
    | Raise _ =>
        TilePlan.mk_TilePlan []
          (TilePlan.mk_bbox TilePlan.origin TilePlan.origin)
          (TilePlan.mk_bbox TilePlan.origin TilePlan.origin)
    end.

Definition demo_env : Env (demo_world None) :=
  @Build_Env R (demo_world None)
    [1; 1; 2]                      (* subvolume_shape *)
    demo_plan                      (* tiling *)
    [2; 2; 3]                      (* unet_end *)
    (np_full 1%R [2; 2; 3])        (* img, as read *)
    2%R                            (* scalingFactor *)
    (mk_ndarray [2; 2; 3] (map (fun x => (x * 2)%R) (repeat 1%R 12)))
                                   (* img, scaled *)
    [1; 1; 1]                      (* unet *)
    (mk_ndarray [1; 1; 2] (repeat 0%R 2)).  (* output_image *)

(** The target region of the example of the specification. *)
Definition example_target : TilePlan.bbox :=
  TilePlan.mk_bbox (TilePlan.mk_vec3 100 100 100)
                   (TilePlan.mk_vec3 250 250 250).

(** ** The comma-separated options (lines 125-129 and 137)

    [tuple([int(d) for d in text.split(',')])] on the text of an option.
    The texts are taken to be ASCII. *)

Module Options.
Import Ascii.

(** [s.split(',')]: the fields between the commas, at least one. *)
Fixpoint split_comma (s : list ascii) : list (list ascii) :=
  match s with
  | [] => [[]]
  | c :: s' =>
      if Ascii.eqb c ","%char
      then [] :: split_comma s'
      else match split_comma s' with
           | [] => [[c]]
           | field :: fields => (c :: field) :: fields
           end
  end.

(** The ASCII characters that [int] strips as white space: tab, line feed,
    vertical tab, form feed, carriage return, the four separators 28-31
    and the space. *)
Definition is_space (c : ascii) : bool :=
  let n := nat_of_ascii c in
  ((9 <=? n) && (n <=? 13) || (28 <=? n) && (n <=? 31) || (n =? 32))%nat.

Fixpoint lstrip (s : list ascii) : list ascii :=
  match s with
  | [] => []
  | c :: s' => if is_space c then lstrip s' else s
  end.

Definition strip (s : list ascii) : list ascii :=
  rev (lstrip (rev (lstrip s))).

Definition digit_of (c : ascii) : option Z :=
  let n := Z.of_nat (nat_of_ascii c) in
  if (48 <=? n) && (n <=? 57) then Some (n - 48) else None.

(** The ten decimal digits. *)
Definition is_digit (c : ascii) : Prop := exists d, digit_of c = Some d.

(** The value of a run of decimal digits in which single underscores may
    stand between two digits; [acc] is the value of the digits read so far
    and [after_digit] tells whether the last character read was a digit. *)
Fixpoint digits_value (acc : Z) (after_digit : bool) (s : list ascii)
  : option Z :=
  match s with
  | [] => if after_digit then Some acc else None
  | c :: s' =>
      match digit_of c with
      | Some d => digits_value (10 * acc + d) true s'
      | None =>
          if Ascii.eqb c "_"%char && after_digit
          then digits_value acc false s'
          else None
      end
  end.

(** [int(d)] for a text [d]: white space around the number is dropped, a
    sign may precede the digits, anything else is a ValueError.  The limit
    of 4300 digits that recent versions of Python put on the conversion
    between integers and texts is not part of this function; what is
    proved of texts that are accepted is stated within that limit. *)
Definition py_int (d : list ascii) : result Z :=
  let body := strip d in
  let signed :=
    match body with
    | c :: digits =>
        if Ascii.eqb c "-"%char then (true, digits)
        else if Ascii.eqb c "+"%char then (false, digits)
        else (false, body)
    | [] => (false, body)
    end in
  match digits_value 0 false (snd signed) with
  | Some n => Ok (if fst signed then - n else n)
  | None => Raise ValueError
  end.

(** [tuple([int(d) for d in text.split(',')])]. *)
Definition parse_coord (text : string) : result (list Z) :=
  rmapM py_int (split_comma (list_ascii_of_string text)).

(** The decimal digits of a number that is not negative, the most
    significant first; [fuel] bounds their number. *)
Fixpoint dec_digits (fuel : nat) (n : Z) : list ascii :=
  match fuel with
  | O => []
  | S fuel' =>
      (if n <? 10 then [] else dec_digits fuel' (n / 10)) ++
      [ascii_of_nat (48 + Z.to_nat (n mod 10))]
  end.

(** [str(z)]: the decimal text of an integer. *)
Definition str_Z (z : Z) : string :=
  let digits := dec_digits (S (Z.to_nat (Z.log2 (Z.abs z)))) (Z.abs z) in
  string_of_list_ascii (if z <? 0 then "-"%char :: digits else digits).

(** [','.join(fields)]. *)
Definition join_comma (fields : list string) : string :=
  String.concat ","%string fields.

End Options.

(** ** [main] from the texts of the options *)

(** What [parser.parse_args()] returns at line 120: the five coordinate
    options are still texts. *)
Record Namespace (V : Type) : Type := {
  ns_input_path : string;
  ns_input_data_set : string;
  ns_output_data_set : string;
  ns_model_path : string;
  ns_scaling : option V;
  ns_output_path : string;
  ns_start_coord : string;
  ns_end_coord : string;
  ns_model_input_shape : string;
  ns_model_output_shape : string;
  ns_image_shape : string;
  ns_set_gpu_mem_growth : bool;
  ns_with_post_processing : bool;
  ns_as_binary_mask : bool;
  ns_unet_batch_size : Z;
  ns_high_threshold : V;
  ns_low_threshold : V;
  ns_small_region_probability_threshold : V;
  ns_small_region_size_threshold : Z
}.

(** The options together with the tuples that lines 125-129 and 137 have
    read out of the five texts. *)
Definition parsed {V : Type} (ns : Namespace V)
           (start end_ model_input_shape model_output_shape image_shape
            : list Z) : Args V :=
  {| input_path := ns_input_path ns;
     input_data_set := ns_input_data_set ns;
     output_data_set := ns_output_data_set ns;
     model_path := ns_model_path ns;
     scaling := ns_scaling ns;
     output_path := ns_output_path ns;
     start_coord := start;
     end_coord := end_;
     model_input_shape := model_input_shape;
     model_output_shape := model_output_shape;
     image_shape := image_shape;
     set_gpu_mem_growth := ns_set_gpu_mem_growth ns;
     with_post_processing := ns_with_post_processing ns;
     as_binary_mask := ns_as_binary_mask ns;
     unet_batch_size := ns_unet_batch_size ns;
     high_threshold := ns_high_threshold ns;
     low_threshold := ns_low_threshold ns;
     small_region_probability_threshold :=
       ns_small_region_probability_threshold ns;
     small_region_size_threshold := ns_small_region_size_threshold ns |}.

Section MainFromTexts.
Context {V : Type} `{Scalar V}.
Variable w : World V.
Local Open Scope py_scope.

(** Lines 139-198, for the shape that line 133 has computed. *)
Definition setup_from_139 (args : Args V) (subvolume_shape : list Z)
  : M w (UnetTiler3D V (Tiling w) * Model w) :=
  let subvolume := start_coord args ++ end_coord args in
  let image_shape := image_shape args in
  tiling <- invoke (C_UnetTiling3D image_shape subvolume
                                   (model_input_shape args)
                                   (model_output_shape args))
                   (UnetTiling3D w image_shape subvolume
                                 (model_input_shape args)
                                 (model_output_shape args)) ;;
  let input_volume_aabb := getInputVolume w tiling in
  let unet_start := unet_start_of input_volume_aabb in
  unet_end <- lift (unet_end_of image_shape input_volume_aabb) ;;
  let unet_volume := unet_start ++ unet_end in
  img <- invoke (C_read_n5_block (input_path args) (input_data_set args)
                                 unet_start unet_end)
                (read_n5_block w (input_path args) (input_data_set args)
                               unet_start unet_end) ;;
  scalingFactor <-
    match scaling args with
    | None => invoke (C_calculateScalingFactor img)
                     (calculateScalingFactor w img)
    | Some f => ret f
    end ;;
  img <- invoke (C_scaleImage img scalingFactor)
                (scaleImage w img scalingFactor) ;;
  unet <- invoke (C_load_model (model_path args))
                 (load_model w (model_path args)) ;;
  let input_canvas :=
    {| global_shape := image_shape; canvas_area := unet_volume;
       image := img |} in
  invoke (C_AbsoluteCanvas input_canvas) (Ok tt) ;;
  output_image <- lift (np_zeros subvolume_shape) ;;
  set_mask output_image ;;
  let output_canvas :=
    {| global_shape := image_shape; canvas_area := subvolume;
       image := output_image |} in
  invoke (C_AbsoluteCanvas output_canvas) (Ok tt) ;;
  let tiler :=
    {| tiling_of := tiling; image_canvas := input_canvas;
       mask := output_canvas |} in
  invoke (C_UnetTiler3D tiler) (Ok tt) ;;
  ret (tiler, unet).

End MainFromTexts.


(** The options of the small world, as texts, for a text of the start
    coordinate, the two flags and a batch size. *)
Definition demo_namespace (start : string) (post binary : bool) (batch : Z)
  : Namespace R :=
  {| ns_input_path := "in.n5";
     ns_input_data_set := "/s0";
     ns_output_data_set := "/s0";
     ns_model_path := "unet.h5";
     ns_scaling := Some 2%R;
     ns_output_path := "out.n5";
     ns_start_coord := start;
     ns_end_coord := "1,1,2";
     ns_model_input_shape := "3,3,3";
     ns_model_output_shape := "1,1,1";
     ns_image_shape := "4,4,4";
     ns_set_gpu_mem_growth := false;
     ns_with_post_processing := post;
     ns_as_binary_mask := binary;
     ns_unet_batch_size := batch;
     ns_high_threshold := 1%R;
     ns_low_threshold := (1 / 2)%R;
     ns_small_region_probability_threshold := (1 / 2)%R;
     ns_small_region_size_threshold := 1 |}.

(** The options of the small world for a target region, the binary flag
    and a batch size. *)
Definition demo_options (start end_ : list Z) (binary : bool) (batch : Z)
  : Args R :=
  parsed (demo_namespace "0,0,0" false binary batch) start end_
         [3; 3; 3] [1; 1; 1] [4; 4; 4].



(** ** The GPU fix (lines 20-29)

    [_gpu_fix] works on the TensorFlow runtime through three functions of
    [tf.config.experimental] and prints one line.  The runtime is a state
    that every call may change; the calls are recorded, with their
    outcomes, in the order in which they are made. *)

Module GpuFix.
Section Fix.
Variables Runtime Physical Logical : Type.

Record TF : Type := {
  list_physical_devices :
    string -> Runtime -> Runtime * result (list Physical);
  set_memory_growth :
    Physical -> bool -> Runtime -> Runtime * result unit;
  list_logical_devices :
    string -> Runtime -> Runtime * result (list Logical)
}.

Inductive tf_call : Type :=
| T_list_physical_devices (device_type : string)
| T_set_memory_growth (device : Physical) (enable : bool)
| T_list_logical_devices (device_type : string)
(** [print('Physical GPUs:', physical, 'Logical GPUs:', logical)] *)
| T_print (physical logical : nat).

Record tf_state : Type := {
  runtime : Runtime;
  calls : list (tf_call * outcome)
}.

Definition T (A : Type) : Type := tf_state -> tf_state * result A.

Definition tret {A} (a : A) : T A := fun s => (s, Ok a).

Definition tbind {A B} (m : T A) (k : A -> T B) : T B :=
  fun s =>
    match m s with
    | (s', Ok a) => k a s'
    | (s', Raise e) => (s', Raise e)
    end.

(** A call that works on the runtime: it is recorded with its outcome. *)
Definition tcall {A} (c : tf_call) (f : Runtime -> Runtime * result A)
  : T A :=
  fun s =>
    let (rt, r) := f (runtime s) in
    ({| runtime := rt; calls := calls s ++ [(c, outcome_of r)] |}, r).

Variable tf : TF.

(** Lines 25-26: [for gpu in gpus: set_memory_growth(gpu, True)]. *)
Fixpoint set_growth_of_each (gpus : list Physical) : T unit :=
  match gpus with
  | [] => tret tt
  | gpu :: rest =>
      tbind (tcall (T_set_memory_growth gpu true)
                   (set_memory_growth tf gpu true))
            (fun _ => set_growth_of_each rest)
  end.

Definition _gpu_fix : T unit :=
  tbind (tcall (T_list_physical_devices "GPU")
               (list_physical_devices tf "GPU"))
        (fun gpus =>
           match gpus with
           | [] => tret tt
           | _ :: _ =>
               tbind (set_growth_of_each gpus) (fun _ =>
               tbind (tcall (T_list_logical_devices "GPU")
                            (list_logical_devices tf "GPU"))
                     (fun logical_gpus =>
               tcall (T_print (length gpus) (length logical_gpus))
                     (fun rt => (rt, Ok tt))))
           end).

(** The devices on which [set_memory_growth] was called, with the flag
    given, in call order. *)
Definition growth_calls (t : list (tf_call * outcome))
  : list (Physical * bool) :=
  flat_map (fun en => match fst en with
                      | T_set_memory_growth g b => [(g, b)]
                      | _ => []
                      end) t.
End Fix.

Arguments T_list_physical_devices {Physical}.
Arguments T_set_memory_growth {Physical}.
Arguments T_list_logical_devices {Physical}.
Arguments T_print {Physical}.

(** A runtime with two GPUs, numbered 0 and 1, that keeps the list of the
    devices whose memory growth has been set; [broken] names a device, if
    any, on which [set_memory_growth] raises. *)
Definition demo_tf (broken : option nat) : TF (list nat) nat nat :=
  {| list_physical_devices := fun _ rt => (rt, Ok [0; 1]%nat);
     set_memory_growth := fun g _ rt =>
       if match broken with Some b => (g =? b)%nat | None => false end
       then (rt, Raise "RuntimeError"%string)
       else (g :: rt, Ok tt);
     list_logical_devices := fun _ rt => (rt, Ok [0; 1]%nat) |}.

Definition demo_tf_state : tf_state (list nat) nat :=
  {| runtime := []; calls := [] |}.
End GpuFix.

(** ** The order of the calls *)

Section Order.
Context {V : Type}.
Variable w : World V.

(** The place of a call in the text of [main]: line 123, 139, 154, 159,
    166, 171, lines 187 and 194, line 198, the loop of lines 223-240, lines
    244, 247 and 255. *)
Definition phase (c : call w) : nat :=
  match c with
  | C_gpu_fix => 0
  | C_UnetTiling3D _ _ _ _ => 1
  | C_read_n5_block _ _ _ _ => 2
  | C_calculateScalingFactor _ => 3
  | C_scaleImage _ _ => 4
  | C_load_model _ => 5
  | C_AbsoluteCanvas _ => 6
  | C_UnetTiler3D _ => 7
  | C_next | C_predict _ | C_writeSlice _ _ => 8
  | C_clean_floodFill _ _ _ => 9
  | C_removeSmallObjects _ _ _ => 10
  | C_write_n5_block _ _ _ _ _ => 11
  end%nat.

(** [precedes a b]: [b] may follow [a] in a run: it stands later in the
    text, or both are canvas constructions or calls of the loop. *)
Definition precedes (a b : call w) : Prop :=
  (phase a < phase b)%nat \/
  (phase a = phase b /\ (phase a = 6 \/ phase a = 8)%nat).

(** The batches on which the model was called, in call order. *)
Definition predict_inputs (t : list (entry w)) : list (ndarray V) :=
  flat_map (fun en => match fst en with
                      | C_predict inp => [inp]
                      | _ => []
                      end) t.

(** The [writeSlice] calls that returned for the items 0, ..., [k]-1 of a
    reduced batch, the first of them for the tile [tile]. *)
Definition writes (tile : Z) (batch : ndarray V) (k : nat) : list (entry w) :=
  map (fun j => (C_writeSlice (tile + Z.of_nat j) (item batch j), Returned))
      (seq 0 k).
End Order.

Arguments phase {V w}.
Arguments precedes {V w}.
Arguments predict_inputs {V w}.

Section LoopShape.
Context {V : Type} `{Scalar V}.
Variable w : World V.
Variable args : Args V.
Variable tiler : UnetTiler3D V (Tiling w).
Variable unet : Model w.

(** The calls and the result of the loop of lines 223-240 that starts at
    the tile [tile] with the dataset iterator [ds]. *)
Inductive loop_shape
  : list (result (ndarray V)) -> Z -> list (entry w) -> result unit -> Prop :=
| Loop_end ds tile :
    tiler_len w tiler <= tile ->
    loop_shape ds tile [] (Ok tt)
| Loop_exhausted tile :
    tile < tiler_len w tiler ->
    loop_shape [] tile [(C_next, Raised StopIteration)] (Raise StopIteration)
| Loop_next_raised e ds tile :
    tile < tiler_len w tiler ->
    loop_shape (Raise e :: ds) tile [(C_next, Raised e)] (Raise e)
| Loop_predict_raised inp ds tile e :
    tile < tiler_len w tiler ->
    predict w unet inp = Raise e ->
    loop_shape (Ok inp :: ds) tile
               [(C_next, Returned); (C_predict inp, Raised e)] (Raise e)
| Loop_reduce_raised inp ds tile out e :
    tile < tiler_len w tiler ->
    predict w unet inp = Ok out ->
    rbind (reduce_channels args out) shape0 = Raise e ->
    loop_shape (Ok inp :: ds) tile
               [(C_next, Returned); (C_predict inp, Returned)] (Raise e)
| Loop_write_raised inp ds tile out red n k e :
    tile < tiler_len w tiler ->
    predict w unet inp = Ok out ->
    reduce_channels args out = Ok red ->
    shape0 red = Ok n ->
    (k < Z.to_nat n)%nat ->
    loop_shape (Ok inp :: ds) tile
               ([(C_next, Returned); (C_predict inp, Returned)] ++
                writes w tile red k ++
                [(C_writeSlice (tile + Z.of_nat k) (item red k), Raised e)])
               (Raise e)
| Loop_step inp ds tile out red n t r :
    tile < tiler_len w tiler ->
    predict w unet inp = Ok out ->
    reduce_channels args out = Ok red ->
    shape0 red = Ok n ->
    loop_shape ds (tile + Z.of_nat (Z.to_nat n)) t r ->
    loop_shape (Ok inp :: ds) tile
               ([(C_next, Returned); (C_predict inp, Returned)] ++
                writes w tile red (Z.to_nat n) ++ t)
               r.
End LoopShape.

(** ** The phases of a run, in detail *)

Section RunDetail.
Context {V : Type} `{Scalar V}.
Variable w : World V.

(** A trace whose calls are in the order of the text of [main]. *)
Definition in_program_order (t : list (entry w)) : Prop :=
  ForallOrdPairs (fun x y => precedes (fst x) (fst y)) t.

(** The dataset that lines 208-214 build for the tile stream of [env]. *)
Definition dataset_of (args : Args V) (env : Env w)
  : list (result (ndarray V)) :=
  let windows := getGeneratorFactory w (tiler_in args env) in
  map (dataset_batch (model_input_shape args))
      (chunk (length windows) (Z.to_nat (unet_batch_size args)) windows).

(** The calls [t] and the result [r] of lines 208-240. *)
Definition segment_detail (args : Args V) (env : Env w)
           (t : list (entry w)) (r : result unit) : Prop :=
  if unet_batch_size args <=? 0
  then t = [] /\ r = Raise InvalidArgumentError
  else loop_shape args (tiler_in args env) (e_unet env)
                  (dataset_of args env) 0 t r.

(** The calls [rest] after the loop, the result [r] of the run and the
    content [mask] of the output canvas at its end, when the loop has
    ended with [r2] and left the canvas with the content [m2]. *)
Definition tail_detail (args : Args V) (m2 : ndarray V) (r2 : result unit)
           (rest : list (entry w)) (r : result unit)
           (mask : option (ndarray V)) : Prop :=
  match r2 with
  | Raise e => rest = [] /\ r = Raise e /\ mask = Some m2
  | Ok _ =>
      exists t3 r3 m3,
        postprocess_ok args m2 t3 r3 m3 /\ mask = Some m3 /\
        match r3 with
        | Raise e => rest = t3 /\ r = Raise e
        | Ok _ =>
            rest = t3 ++ [store_entry w args m3] /\
            r = write_n5_block w (output_path args) (output_data_set args)
                               (start_coord args) (end_coord args) m3
        end
  end.
End RunDetail.

(** The options with other values for the four options of the
    post-processing: -ht, -lt, --small_region_probability_threshold and
    --small_region_size_threshold. *)
Definition with_thresholds {V : Type} (args : Args V)
           (high low probability : V) (size : Z) : Args V :=
  {| input_path := input_path args;
     input_data_set := input_data_set args;
     output_data_set := output_data_set args;
     model_path := model_path args;
     scaling := scaling args;
     output_path := output_path args;
     start_coord := start_coord args;
     end_coord := end_coord args;
     model_input_shape := model_input_shape args;
     model_output_shape := model_output_shape args;
     image_shape := image_shape args;
     set_gpu_mem_growth := set_gpu_mem_growth args;
     with_post_processing := with_post_processing args;
     as_binary_mask := as_binary_mask args;
     unet_batch_size := unet_batch_size args;
     high_threshold := high;
     low_threshold := low;
     small_region_probability_threshold := probability;
     small_region_size_threshold := size |}.

(** * Properties *)

(** Splitting a conjunction that is written as one. *)
Ltac splits := repeat match goal with |- _ /\ _ => split end.

(** ** Lists of calls *)

Section TraceFacts.
Context {V : Type} `{Scalar V}.
Variable w : World V.

Lemma calls_of_app (p : call w -> bool) (t1 t2 : list (entry w)) :
  calls_of p (t1 ++ t2) = calls_of p t1 ++ calls_of p t2.
Proof. apply filter_app. Qed.

Lemma calls_of_none (p : call w -> bool) (t : list (entry w)) :
  Forall (fun en => p (fst en) = false) t -> calls_of p t = [].
Proof.
  induction 1 as [|en t Hen _ IH]; simpl; [reflexivity|].
  now rewrite Hen.
Qed.

Lemma written_tiles_app (t1 t2 : list (entry w)) :
  written_tiles (t1 ++ t2) = written_tiles t1 ++ written_tiles t2.
Proof. apply flat_map_app. Qed.

Lemma written_tiles_none (t : list (entry w)) :
  Forall (fun en => is_writeSlice (fst en) = false) t -> written_tiles t = [].
Proof.
  induction 1 as [|[c o] t Hen _ IH]; simpl; [reflexivity|].
  simpl in Hen. destruct c; try discriminate; assumption.
Qed.

Lemma clean_nil {A} (r : result A) : clean (w:=w) [] r.
Proof. left. constructor. Qed.

Lemma clean_invoke {A} (c : call w) (r : result A) :
  clean [(c, outcome_of r)] r.
Proof.
  destruct r as [a|e]; simpl.
  - left. repeat constructor.
  - right. exists [], c, e. repeat split; constructor.
Qed.

Lemma clean_app {A B} (t1 t2 : list (entry w)) (r : result B) (a : A) :
  clean t1 (Ok a) -> clean t2 r -> clean (t1 ++ t2) r.
Proof.
  intros [H1|(pre & c & e & _ & _ & Hr)] H2; [|discriminate].
  destruct H2 as [H2|(pre & c & e & -> & Hpre & ->)].
  - left. apply Forall_app. split; assumption.
  - right. exists (t1 ++ pre), c, e. rewrite app_assoc.
    repeat split. apply Forall_app. split; assumption.
Qed.

Lemma clean_retype {A B} (t : list (entry w)) (e : exn) :
  clean t (@Raise A e) -> clean t (@Raise B e).
Proof.
  intros [Ht|(pre & c & e' & -> & Hpre & Hr)]; [left; exact Ht|].
  right. exists pre, c, e'. repeat split; [assumption|congruence].
Qed.

Lemma clean_returned_prefix {A} (t1 t2 : list (entry w)) (r : result A) :
  Forall returned t1 -> clean t2 r -> clean (t1 ++ t2) r.
Proof.
  intros H1 H2. apply (@clean_app unit A t1 t2 r tt); [left|]; assumption.
Qed.

Lemma clean_cons {A} (en : entry w) (t : list (entry w)) (r : result A) :
  returned en -> clean t r -> clean (en :: t) r.
Proof.
  intros Hen Ht. change (en :: t) with ([en] ++ t).
  apply clean_returned_prefix; [|exact Ht]. now constructor.
Qed.

(** In a clean trace a raising call is the last one and decides the result. *)
Lemma clean_raised {A} {t : list (entry w)} {r : result A} {c e} :
  clean t r -> In (c, Raised e) t ->
  r = Raise e /\ exists pre, t = pre ++ [(c, Raised e)] /\ Forall returned pre.
Proof.
  intros [Ht|(pre & c' & e' & -> & Hpre & ->)] Hin.
  - rewrite Forall_forall in Ht. apply Ht in Hin. discriminate.
  - apply in_app_or in Hin. destruct Hin as [Hin|[Heq|[]]].
    + rewrite Forall_forall in Hpre. apply Hpre in Hin. discriminate.
    + injection Heq as -> ->. split; [reflexivity|]. now exists pre.
Qed.
End TraceFacts.

(** ** Setting up *)

Section SetupFacts.
Context {V : Type} `{Scalar V}.
Variable w : World V.

Lemma clean_last {A} (t : list (entry w)) c e :
  t <> [] ->
  last t (C_gpu_fix, Returned) = (c, Raised e) ->
  Forall returned (removelast t) ->
  clean t (@Raise A e).
Proof.
  intros Hne Hlast Hpre. right. exists (removelast t), c, e.
  repeat split; [|assumption].
  rewrite <- Hlast. now apply app_removelast_last.
Qed.

Ltac exec H :=
  repeat (simpl in H;
          match type of H with
          | context [match ?x with _ => _ end] => destruct x eqn:?
          end).

Ltac flatten_trace :=
  repeat rewrite <- app_assoc; simpl.

Ltac solve_clean :=
  first [ solve [left; repeat constructor]
        | eapply clean_last;
          [discriminate | simpl; reflexivity | simpl; repeat constructor] ].

Ltac solve_in H :=
  simpl in H;
  repeat match type of H with
         | _ \/ _ => destruct H as [H|H]
         | False => contradiction
         end;
  try discriminate.

Ltac solve_read_args :=
  unfold read_args_ok; repeat split; eexists; repeat split; eassumption.

Ltac solve_setup_failed Escal :=
  unfold setup_failed; splits;
  [ solve [repeat constructor]
  | solve_clean
  | simpl; lia
  | simpl; lia
  | intros path dataset start end_ o Hin; solve_in Hin;
    injection Hin as <- <- <- <- <-; solve_read_args
  | intros img f o Hin; solve_in Hin;
    injection Hin as <- <- <-;
    unfold scale_args_ok, factor_from; rewrite ?Escal;
    (split; [do 2 eexists; split; [solve_read_args | eassumption]
            | first [reflexivity | eassumption]])
  | intros img o Hin; solve_in Hin; assumption ].

Lemma setup_run (args : Args V) (s s' : state w) r :
  setup args s = (s', r) ->
  match r with
  | Ok (tiler, unet) =>
      exists env, setup_ok args env /\
                  tiler = tiler_in args env /\ unet = e_unet env /\
                  trace s' = trace s ++ setup_trace args env /\
                  mask_image s' = Some (e_output_image env)
  | Raise e =>
      exists t, trace s' = trace s ++ t /\ setup_failed args t e /\
                mask_image s' = mask_image s
  end.
Proof.
  intro Hs.
  unfold setup, bind, invoke, lift, ret, set_mask, log in Hs.
  unfold setup_trace, gpu_entries, calc_entries, setup_ok, factor_from.
  destruct (set_gpu_mem_growth args) eqn:Egpu, (scaling args) eqn:Escal.
  all: exec Hs; inversion Hs; subst; clear Hs; simpl.
  all: repeat match goal with u : unit |- _ => destruct u end.
  all: try (match goal with
            | |- exists env : Env w, _ =>
                eexists (Build_Env w _ _ _ _ _ _ _ _); simpl;
                unfold unet_start_in, tiler_in, input_canvas_in,
                  output_canvas_in; simpl;
                repeat split; try eassumption; try reflexivity;
                try discriminate; now flatten_trace
            end).
  all: eexists; split; [flatten_trace; try reflexivity;
                        try (symmetry; apply app_nil_r)|].
  all: split; [|reflexivity].
  all: solve_setup_failed Escal.
Qed.
End SetupFacts.

(** ** The prediction loop *)

Section SegmentFacts.
Context {V : Type} `{Scalar V}.
Variable w : World V.

Lemma bind_run {A B} (m : M w A) (k : A -> M w B) s s' r :
  bind m k s = (s', r) ->
  (exists s1 a, m s = (s1, Ok a) /\ k a s1 = (s', r)) \/
  (exists e, m s = (s', Raise e) /\ r = Raise e).
Proof.
  unfold bind. destruct (m s) as [s1 [a|e]]; intro Hr.
  - left. now exists s1, a.
  - right. exists e. now injection Hr as <- <-.
Qed.

Lemma consecutive_from_nil tile : consecutive_from tile [].
Proof. reflexivity. Qed.

Lemma consecutive_from_cons tile l :
  consecutive_from (tile + 1) l -> consecutive_from tile (tile :: l).
Proof.
  unfold consecutive_from. intro Hl. simpl. f_equal; [lia|].
  rewrite Hl at 1. rewrite <- seq_shift, map_map.
  apply map_ext. intro j. lia.
Qed.

Lemma consecutive_from_inv tile x l :
  consecutive_from tile (x :: l) -> x = tile /\ consecutive_from (tile + 1) l.
Proof.
  unfold consecutive_from. simpl. intro Hl. injection Hl as Hx Hl.
  split; [lia|]. rewrite Hl at 1. rewrite <- seq_shift, map_map.
  apply map_ext. intro j. lia.
Qed.

Lemma consecutive_from_app tile l1 l2 :
  consecutive_from tile l1 ->
  consecutive_from (tile + Z.of_nat (length l1)) l2 ->
  consecutive_from tile (l1 ++ l2).
Proof.
  revert tile. induction l1 as [|x l1 IH]; intros tile H1 H2; simpl in *.
  - now replace (tile + 0) with tile in H2 by lia.
  - apply consecutive_from_inv in H1. destruct H1 as [-> H1].
    apply consecutive_from_cons. apply IH; [exact H1|].
    now replace (tile + 1 + Z.of_nat (length l1))
      with (tile + Z.pos (Pos.of_succ_nat (length l1))) by lia.
Qed.
Lemma write_tiles_run (tiler : UnetTiler3D V (Tiling w)) batch n :
  forall i tile (s s' : state w) r m,
    mask_image s = Some m ->
    write_tiles tiler batch n i tile s = (s', r) ->
    exists t,
      trace s' = trace s ++ t /\
      Forall (fun en => is_writeSlice (fst en) = true) t /\
      clean t r /\
      mask_image s' = Some (replay tiler t m) /\
      consecutive_from tile (written_tiles t) /\
      (length (written_tiles t) <= n)%nat /\
      (forall tile', r = Ok tile' ->
                     tile' = tile + Z.of_nat n /\
                     length (written_tiles t) = n) /\
      (forall tl win o, In (C_writeSlice tl win, o) t ->
                        exists j, (i <= j < i + n)%nat /\ win = item batch j).
Proof.
  induction n as [|n IH]; intros i tile s s' r m Hm Hrun; simpl in Hrun.
  - injection Hrun as <- <-. exists []. rewrite app_nil_r.
    splits.
    + reflexivity.
    + constructor.
    + apply clean_nil.
    + exact Hm.
    + reflexivity.
    + simpl. lia.
    + intros tile' Heq. injection Heq as <-. simpl. lia.
    + intros tl win o [].
  - unfold bind, get_mask, invoke, set_mask, log in Hrun.
    rewrite Hm in Hrun. simpl in Hrun.
    destruct (writeSlice w tiler m tile (item batch i)) as [new|e] eqn:Ew;
      simpl in Hrun.
    + apply IH with (m := new) in Hrun; [|reflexivity].
      destruct Hrun as (t & Ht & Hk & Hc & Hm' & Hcons & Hlen & Hok & Hwin).
      simpl in Ht.
      exists ((C_writeSlice tile (item batch i), Returned) :: t).
      splits.
      * rewrite Ht, <- app_assoc. reflexivity.
      * constructor; [reflexivity|assumption].
      * apply clean_cons; [reflexivity|exact Hc].
      * rewrite Hm'. simpl. now rewrite Ew.
      * simpl. now apply consecutive_from_cons.
      * simpl. lia.
      * intros tile' Heq. destruct (Hok _ Heq). simpl. lia.
      * intros tl win o [Heq|Hin].
        -- injection Heq as <- <- <-. exists i. split; [lia|reflexivity].
        -- destruct (Hwin _ _ _ Hin) as (j & Hj & ->).
           exists j. split; [lia|reflexivity].
    + injection Hrun as <- <-. simpl.
      exists [(C_writeSlice tile (item batch i), Raised e)].
      splits.
      * reflexivity.
      * repeat constructor.
      * apply (clean_invoke (C_writeSlice tile (item batch i))
                            (@Raise Z e)).
      * exact Hm.
      * simpl. apply consecutive_from_cons, consecutive_from_nil.
      * simpl. lia.
      * discriminate.
      * intros tl win o [Heq|[]]. injection Heq as <- <- <-.
        exists i. split; [lia|reflexivity].
Qed.
Lemma reduced_shape0 (args : Args V) (out red : ndarray V) n :
  reduce_channels args out = Ok red ->
  shape0 red = Ok n ->
  shape0 out = Ok n.
Proof.
  unfold reduce_channels, np_argmax_last, tf_softmax_last_1, shape0, py_index.
  intros Hred Hn.
  assert (Hs : exists c, shape out = shape red ++ [c]).
  { destruct (as_binary_mask args);
      destruct (rev (shape out)) as [|c lead] eqn:Erev; try discriminate;
      [destruct (c <=? 0)|destruct (c <=? 1)]; try discriminate;
      injection Hred as <-; simpl; exists c;
      rewrite <- (rev_involutive (shape out)), Erev; reflexivity. }
  destruct Hs as (c & ->).
  destruct (shape red) as [|d ds]; simpl in *; [discriminate|assumption].
Qed.

Lemma dataset_batch_shape0 sh (g : list (ndarray V)) inp :
  dataset_batch sh g = Ok inp -> shape0 inp = Ok (Z.of_nat (length g)).
Proof.
  unfold dataset_batch. destruct (forallb (has_shape sh) g); [|discriminate].
  intro Heq. injection Heq as <-. unfold stack, shape0, py_index. simpl.
  now rewrite length_map.
Qed.

Lemma predict_loop_run (args : Args V) (tiler : UnetTiler3D V (Tiling w))
      (unet : Model w) sh :
  forall groups tile (s s' : state w) r m,
    mask_image s = Some m ->
    predict_loop args tiler unet (map (dataset_batch sh) groups) tile s
      = (s', r) ->
    exists t,
      trace s' = trace s ++ t /\
      Forall (fun en => is_segment_call (fst en) = true) t /\
      clean t r /\
      mask_image s' = Some (replay tiler t m) /\
      consecutive_from tile (written_tiles t) /\
      (r = Ok tt ->
       tiler_len w tiler <= tile + Z.of_nat (length (written_tiles t))) /\
      (forall tl win o, In (C_writeSlice tl win, o) t ->
                        window_ok w args win) /\
      ((forall u inp out, predict w u inp = Ok out ->
                          shape0 out = shape0 inp) ->
       Forall (fun g => g <> []) groups ->
       tile + Z.of_nat (length (concat groups)) <= tiler_len w tiler ->
       tile + Z.of_nat (length (written_tiles t)) <= tiler_len w tiler).
Proof.
  induction groups as [|g groups IH]; intros tile s s' r m Hm Hrun;
    simpl in Hrun; destruct (tile <? tiler_len w tiler) eqn:Etile.
  - unfold invoke, log in Hrun. injection Hrun as <- <-. simpl.
    exists [(C_next, Raised StopIteration)].
    splits.
    + reflexivity.
    + repeat constructor.
    + apply (clean_invoke C_next (@Raise unit StopIteration)).
    + exact Hm.
    + reflexivity.
    + discriminate.
    + intros tl win o [Heq|[]]. discriminate.
    + simpl. intros _ _ Hb. lia.
  - injection Hrun as <- <-. exists []. rewrite app_nil_r.
    splits.
    + reflexivity.
    + constructor.
    + apply clean_nil.
    + exact Hm.
    + reflexivity.
    + intros _. simpl. apply Z.ltb_ge in Etile. lia.
    + intros tl win o [].
    + simpl. intros _ _ Hb. lia.
  - unfold bind, invoke, lift, log in Hrun. simpl in Hrun.
    destruct (dataset_batch sh g) as [inp|e] eqn:Einp; simpl in Hrun.
    2: { injection Hrun as <- <-. simpl.
         exists [(C_next, Raised e)].
         splits; try reflexivity; try discriminate; try exact Hm.
         - repeat constructor.
         - apply (clean_invoke C_next (@Raise unit e)).
         - intros tl win o [Heq|[]]. discriminate.
         - simpl. intros _ _ Hb. lia. }
    destruct (predict w unet inp) as [out|e] eqn:Eout; simpl in Hrun.
    2: { injection Hrun as <- <-. simpl.
         exists [(C_next, Returned); (C_predict inp, Raised e)].
         splits; try reflexivity; try discriminate; try exact Hm.
         - now rewrite <- app_assoc.
         - repeat constructor.
         - apply clean_cons; [reflexivity|].
           apply (clean_invoke (C_predict inp) (@Raise unit e)).
         - intros tl win o [Heq|[Heq|[]]]; discriminate.
         - simpl. intros _ _ Hb. lia. }
    destruct (reduce_channels args out) as [red|e] eqn:Ered; simpl in Hrun.
    2: { injection Hrun as <- <-. simpl.
         exists [(C_next, Returned); (C_predict inp, Returned)].
         splits; try reflexivity; try discriminate; try exact Hm.
         - now rewrite <- app_assoc.
         - repeat constructor.
         - left. repeat constructor.
         - intros tl win o [Heq|[Heq|[]]]; discriminate.
         - simpl. intros _ _ Hb. lia. }
    destruct (shape0 red) as [n|e] eqn:En; simpl in Hrun.
    2: { injection Hrun as <- <-. simpl.
         exists [(C_next, Returned); (C_predict inp, Returned)].
         splits; try reflexivity; try discriminate; try exact Hm.
         - now rewrite <- app_assoc.
         - repeat constructor.
         - left. repeat constructor.
         - intros tl win o [Heq|[Heq|[]]]; discriminate.
         - simpl. intros _ _ Hb. lia. }
    match type of Hrun with
    | context [write_tiles ?a ?b ?c ?d ?e ?st] =>
        destruct (write_tiles a b c d e st) as [s1 r1] eqn:Ewt
    end.
    apply write_tiles_run with (m := m) in Ewt; [|exact Hm].
    destruct Ewt as (t1 & Ht1 & Hk1 & Hc1 & Hm1 & Hcons1 & Hlen1
                     & Hok1 & Hwin1).
    simpl in Ht1.
    assert (Hwins : forall tl win o, In (C_writeSlice tl win, o) t1 ->
                                     window_ok w args win).
    { intros tl win o Hin. destruct (Hwin1 _ _ _ Hin) as (j & Hj & ->).
      exists unet, inp, out, red, n, j. repeat split; try assumption. lia. }
    assert (Hseg1 : Forall (fun en : entry w =>
                              is_segment_call (fst en) = true) t1).
    { eapply Forall_impl; [|exact Hk1]. intros [c o]; simpl.
      destruct c; simpl; congruence. }
    assert (Hbound1 :
              (forall u inp out, predict w u inp = Ok out ->
                                 shape0 out = shape0 inp) ->
              Z.to_nat n = length g).
    { intro Hmodel. apply Hmodel in Eout.
      apply (reduced_shape0 args) with (n := n) in Ered; [|exact En].
      rewrite Ered, (dataset_batch_shape0 _ _ Einp) in Eout.
      injection Eout as ->. lia. }
    destruct r1 as [tile'|e].
    + destruct (Hok1 _ eq_refl) as [-> Hn1].
      apply IH with (m := replay tiler t1 m) in Hrun; [|exact Hm1].
      destruct Hrun as (t2 & Ht2 & Hk2 & Hc2 & Hm2 & Hcons2 & Hok2 & Hwin2
                        & Hb2).
      exists ([(C_next, Returned); (C_predict inp, Returned)] ++ t1 ++ t2).
      splits.
      * rewrite Ht2, Ht1. repeat rewrite <- app_assoc. reflexivity.
      * repeat (apply Forall_app; split); try assumption.
        repeat constructor.
      * apply clean_returned_prefix; [repeat constructor|].
        apply (@clean_app _ _ Z unit t1 t2 r (tile + Z.of_nat (Z.to_nat n)));
          assumption.
      * rewrite Hm2. unfold replay. simpl. now rewrite fold_left_app.
      * simpl. rewrite written_tiles_app.
        apply consecutive_from_app; [exact Hcons1|].
        now rewrite Hn1.
      * intro Hr. specialize (Hok2 Hr). simpl.
        rewrite written_tiles_app, length_app. lia.
      * intros tl win o Hin. simpl in Hin.
        destruct Hin as [Heq|[Heq|Hin]]; try discriminate.
        apply in_app_or in Hin. destruct Hin as [Hin|Hin]; eauto.
      * intros Hmodel Hne Hb. simpl.
        rewrite written_tiles_app, length_app.
        specialize (Hbound1 Hmodel).
        inversion Hne as [|? ? Hg Hne']; subst.
        simpl in Hb. rewrite length_app in Hb.
        specialize (Hb2 Hmodel Hne'). lia.
    + injection Hrun as <- <-.
      exists ([(C_next, Returned); (C_predict inp, Returned)] ++ t1).
      splits.
      * rewrite Ht1. repeat rewrite <- app_assoc. reflexivity.
      * apply Forall_app; split; [repeat constructor|assumption].
      * apply clean_returned_prefix; [repeat constructor|].
        now apply clean_retype with (A := Z).
      * exact Hm1.
      * exact Hcons1.
      * discriminate.
      * intros tl win o Hin. simpl in Hin.
        destruct Hin as [Heq|[Heq|Hin]]; try discriminate. eauto.
      * intros Hmodel Hne Hb. simpl.
        specialize (Hbound1 Hmodel). simpl in Hb. rewrite length_app in Hb.
        lia.
  - injection Hrun as <- <-. exists []. rewrite app_nil_r.
    splits.
    + reflexivity.
    + constructor.
    + apply clean_nil.
    + exact Hm.
    + reflexivity.
    + intros _. simpl. apply Z.ltb_ge in Etile. lia.
    + intros tl win o [].
    + simpl. intros _ _ Hb. lia.
Qed.
End SegmentFacts.

(** ** The dataset *)

Section DatasetFacts.
Context {A : Type}.

Lemma chunk_nonempty fuel b (l : list A) :
  (0 < b)%nat -> Forall (fun g => g <> []) (chunk fuel b l).
Proof.
  intro Hb. revert l. induction fuel as [|fuel IH]; intro l; simpl.
  - constructor.
  - destruct l as [|x l]; [constructor|].
    constructor; [|apply IH].
    destruct b; [lia|]. simpl. discriminate.
Qed.

Lemma chunk_concat fuel b (l : list A) :
  (0 < b)%nat -> (length l <= fuel)%nat -> concat (chunk fuel b l) = l.
Proof.
  intro Hb. revert l. induction fuel as [|fuel IH]; intros l Hl; simpl.
  - destruct l; [reflexivity|simpl in Hl; lia].
  - destruct l as [|x l]; [reflexivity|].
    cbn [concat]. rewrite IH.
    + apply firstn_skipn.
    + rewrite length_skipn. simpl in *. destruct b; [lia|]. simpl. lia.
Qed.
End DatasetFacts.

(** ** The phases of a run *)

Section PhaseFacts.
Context {V : Type} `{Scalar V}.
Variable w : World V.

Lemma segment_run (args : Args V) (env : Env w) (s s' : state w) r :
  mask_image s = Some (e_output_image env) ->
  segment args (tiler_in args env) (e_unet env) s = (s', r) ->
  exists t m, trace s' = trace s ++ t /\ mask_image s' = Some m /\
              segment_ok args env t r m.
Proof.
  intros Hm Hrun. unfold segment, bind, lift, predictionset in Hrun.
  destruct (unet_batch_size args <=? 0) eqn:Eb.
  - injection Hrun as <- <-. exists [], (e_output_image env).
    rewrite app_nil_r. unfold segment_ok.
    splits;
      [reflexivity | exact Hm | constructor | apply clean_nil | reflexivity
      | reflexivity | discriminate | intros tile window o [] | ].
    simpl. intros _ Hlen. lia.
  - apply Z.leb_gt in Eb.
    apply predict_loop_run with (m := e_output_image env) in Hrun;
      [|exact Hm].
    destruct Hrun as (t & Ht & Hk & Hc & Hm' & Hcons & Hok & Hwin & Hb).
    exists t, (replay (tiler_in args env) t (e_output_image env)).
    unfold segment_ok. splits;
      [exact Ht | exact Hm' | exact Hk | exact Hc | reflexivity | exact Hcons
      | | exact Hwin | ].
    + intro Hr. specialize (Hok Hr). lia.
    + intros Hmodel Hlen.
      assert (Hpos : (0 < Z.to_nat (unet_batch_size args))%nat) by lia.
      specialize (Hb Hmodel (chunk_nonempty _ _ Hpos)).
      rewrite chunk_concat in Hb by (try assumption; lia).
      lia.
Qed.

Lemma postprocess_run (args : Args V) (s s' : state w) r m :
  mask_image s = Some m ->
  postprocess args s = (s', r) ->
  exists t m', trace s' = trace s ++ t /\ mask_image s' = Some m' /\
               postprocess_ok args m t r m'.
Proof.
  intros Hm Hrun. unfold postprocess in Hrun.
  destruct (with_post_processing args) eqn:Epost.
  - unfold bind, get_mask, invoke, set_mask, log in Hrun.
    rewrite Hm in Hrun. simpl in Hrun.
    destruct (clean_floodFill w m (high_threshold args) (low_threshold args))
      as [m2|e] eqn:Eflood; simpl in Hrun.
    + destruct (removeSmallObjects w m2
                  (small_region_probability_threshold args)
                  (small_region_size_threshold args))
        as [m3|e] eqn:Eremove; simpl in Hrun; injection Hrun as <- <-; simpl.
      * do 2 eexists. splits;
          [rewrite <- app_assoc; reflexivity | reflexivity|].
        now apply Post_done.
      * do 2 eexists. splits;
          [rewrite <- app_assoc; reflexivity | reflexivity|].
        now apply Post_removeSmallObjects_raised.
    + injection Hrun as <- <-; simpl.
      do 2 eexists. splits; [reflexivity | exact Hm|].
      now apply Post_floodFill_raised.
  - injection Hrun as <- <-. exists [], m. rewrite app_nil_r.
    splits; [reflexivity | exact Hm|]. now apply Post_off.
Qed.

Lemma store_run (args : Args V) (s s' : state w) r m :
  mask_image s = Some m ->
  store args s = (s', r) ->
  trace s' = trace s ++ [store_entry w args m] /\
  mask_image s' = Some m /\
  r = write_n5_block w (output_path args) (output_data_set args)
                     (start_coord args) (end_coord args) m.
Proof.
  intros Hm Hrun. unfold store, bind, get_mask, invoke, log in Hrun.
  rewrite Hm in Hrun. unfold store_entry.
  destruct (write_n5_block w (output_path args) (output_data_set args)
                           (start_coord args) (end_coord args) m);
    injection Hrun as <- <-; simpl; auto.
Qed.

(** Every run has one of the four shapes. *)
Lemma run_shape_main (args : Args V) :
  run_shape args (final_trace w args) (final_result w args)
            (final_mask w args).
Proof.
  unfold final_trace, final_result, final_mask.
  destruct (run w args) as [st r] eqn:Erun. simpl.
  unfold run, main in Erun.
  apply bind_run in Erun.
  destruct Erun as [(s1 & [tiler unet] & Esetup & Erun)|(e & Esetup & ->)];
    apply setup_run in Esetup; simpl in Esetup.
  2: { destruct Esetup as (t & -> & Hfail & ->). simpl.
       now apply Run_setup_failed. }
  destruct Esetup as (env & Hok & -> & -> & Ht1 & Hm1). simpl in Ht1.
  apply bind_run in Erun.
  destruct Erun as [(s2 & [] & Eseg & Erun)|(e & Eseg & ->)];
    apply segment_run in Eseg; try assumption;
    destruct Eseg as (t2 & m2 & Ht2 & Hm2 & Hseg).
  2: { rewrite Ht2, Ht1, Hm2. now apply Run_segment_failed. }
  apply bind_run in Erun.
  destruct Erun as [(s3 & [] & Epost & Erun)|(e & Epost & ->)];
    apply postprocess_run with (m := m2) in Epost; try assumption;
    destruct Epost as (t3 & m3 & Ht3 & Hm3 & Hpost).
  2: { rewrite Ht3, Ht2, Ht1, Hm3, <- app_assoc.
       now apply Run_postprocess_failed with (m2 := m2). }
  apply store_run with (m := m3) in Erun; [|assumption].
  destruct Erun as (Ht4 & Hm4 & ->).
  rewrite Ht4, Ht3, Ht2, Ht1, Hm4, <- !app_assoc.
  now apply Run_stored with (m2 := m2).
Qed.
End PhaseFacts.

(** ** Kinds of calls *)

Section KindFacts.
Context {V : Type} `{Scalar V}.
Variable w : World V.

Lemma Forall_kind (k p : call w -> bool) (b : bool) (t : list (entry w)) :
  (forall c, k c = true -> p c = b) ->
  Forall (fun en => k (fst en) = true) t ->
  Forall (fun en => p (fst en) = b) t.
Proof.
  intros Hkp Ht. eapply Forall_impl; [|exact Ht]. intros en. apply Hkp.
Qed.

Lemma setup_failed_kind (args : Args V) (t : list (entry w)) e :
  setup_failed args t e -> Forall (fun en => is_setup_call (fst en) = true) t.
Proof.
  intros (Hk & _). eapply Forall_impl; [|exact Hk]. now intros en [Hen _].
Qed.

Lemma setup_trace_kind (args : Args V) (env : Env w) :
  Forall (fun en => is_setup_call (fst en) = true) (setup_trace args env).
Proof.
  unfold setup_trace, gpu_entries, calc_entries.
  destruct (set_gpu_mem_growth args), (scaling args); repeat constructor.
Qed.

Lemma postprocess_ok_kind (args : Args V) m (t : list (entry w)) r m' :
  postprocess_ok (w:=w) args m t r m' ->
  Forall (fun en => is_postprocess (fst en) = true) t.
Proof. destruct 1; repeat constructor. Qed.

(** Where a call of one kind sits in a trace that begins with calls of
    another kind. *)
Lemma split_after (p : entry w -> bool) (l1 l2 pre post : list (entry w)) x :
  l1 ++ l2 = pre ++ x :: post ->
  Forall (fun en => p en = false) l1 ->
  p x = true ->
  exists pre', pre = l1 ++ pre' /\ l2 = pre' ++ x :: post.
Proof.
  revert pre. induction l1 as [|y l1 IH]; intros pre Heq Hl1 Hx; simpl in *.
  - now exists pre.
  - inversion Hl1 as [|? ? Hy Hl1']; subst.
    destruct pre as [|z pre]; simpl in Heq; injection Heq as -> Heq.
    + congruence.
    + destruct (IH _ Heq Hl1' Hx) as (pre' & -> & ->). now exists pre'.
Qed.

Lemma Forall_prefix {A} (P : A -> Prop) (pre post : list A) x l :
  l = pre ++ x :: post -> Forall P l -> Forall P pre /\ P x.
Proof.
  intros -> Hl. apply Forall_app in Hl. destruct Hl as [Hpre Hx].
  inversion Hx; subst. now split.
Qed.
End KindFacts.

Ltac by_kind :=
  let c := fresh "c" in
  intros c; destruct c; simpl; congruence.

(** ** Boxes and shapes *)





Section ArrayFacts.
Context {V : Type} `{Scalar V}.

Lemma np_zeros_Ok (s : list Z) (a : ndarray V) :
  np_zeros s = Ok a ->
  a = mk_ndarray s (repeat zero (Z.to_nat (size_of s))) /\
  Forall (fun d => 0 <= d) s.
Proof.
  unfold np_zeros. destruct (forallb _ s) eqn:Es; [|discriminate].
  intro Ha. injection Ha as <-. split; [reflexivity|].
  rewrite forallb_forall in Es. apply Forall_forall. intros d Hd.
  apply Es in Hd. lia.
Qed.
End ArrayFacts.

(** ** The set-up within a run *)

Section SetupInRun.
Context {V : Type} `{Scalar V}.
Variable w : World V.

Lemma segment_ok_not_setup (args : Args V) env (t : list (entry w)) r m :
  segment_ok args env t r m ->
  Forall (fun en => is_setup_call (fst en) = false) t.
Proof. intros (Hk & _). revert Hk. apply Forall_kind. by_kind. Qed.

Lemma postprocess_ok_not_setup (args : Args V) m (t : list (entry w)) r m' :
  postprocess_ok args m t r m' ->
  Forall (fun en => is_setup_call (fst en) = false) t.
Proof.
  intro Hp. apply postprocess_ok_kind in Hp. revert Hp.
  apply Forall_kind. by_kind.
Qed.

(** A run either ends within the set-up, or consists of the calls of a
    complete set-up followed by calls of other kinds. *)
Lemma run_split (args : Args V) :
  (exists e, setup_failed args (final_trace w args) e /\
             final_result w args = Raise e) \/
  (exists env rest,
      setup_ok args env /\
      final_trace w args = setup_trace args env ++ rest /\
      Forall (fun en => is_setup_call (fst en) = false) rest).
Proof.
  destruct (run_shape_main w args)
    as [t e Hfail | env t2 e m2 Hok Hseg | env t2 m2 t3 e m3 Hok Hseg Hpost
       | env t2 m2 t3 m3 Hok Hseg Hpost].
  - left. now exists e.
  - right. exists env, t2. (split; [exact Hok|split; [reflexivity|]]).
    eapply segment_ok_not_setup; eassumption.
  - right. exists env, (t2 ++ t3). (split; [exact Hok|split; [reflexivity|]]).
    apply Forall_app. split.
    + eapply segment_ok_not_setup; eassumption.
    + eapply postprocess_ok_not_setup; eassumption.
  - right. exists env, (t2 ++ t3 ++ [store_entry w args m3]).
    (split; [exact Hok|split; [reflexivity|]]).
    repeat (apply Forall_app; split).
    + eapply segment_ok_not_setup; eassumption.
    + eapply postprocess_ok_not_setup; eassumption.
    + repeat constructor.
Qed.


Lemma setup_trace_scales (args : Args V) (env : Env w) :
  calls_of is_scaleImage (setup_trace args env) =
  [(C_scaleImage (e_raw env) (e_scalingFactor env), Returned)].
Proof.
  unfold setup_trace, gpu_entries, calc_entries.
  destruct (set_gpu_mem_growth args), (scaling args); reflexivity.
Qed.

Lemma setup_trace_tilers (args : Args V) (env : Env w) :
  calls_of is_tiler (setup_trace args env) =
  [(C_UnetTiler3D (tiler_in args env), Returned)].
Proof.
  unfold setup_trace, gpu_entries, calc_entries.
  destruct (set_gpu_mem_growth args), (scaling args); reflexivity.
Qed.

Lemma setup_trace_calcs (args : Args V) (env : Env w) f :
  scaling args = Some f ->
  calls_of is_calculateScalingFactor (setup_trace args env) = [].
Proof.
  intro Hf. unfold setup_trace, gpu_entries, calc_entries. rewrite Hf.
  destruct (set_gpu_mem_growth args); reflexivity.
Qed.

Lemma in_calls_of (p : call w -> bool) (t : list (entry w)) c o :
  In (c, o) t -> p c = true -> In (c, o) (calls_of p t).
Proof. intros Hin Hp. apply filter_In. now split. Qed.

Lemma setup_ok_read_args (args : Args V) (env : Env w) :
  setup_ok args env ->
  read_args_ok w args (input_path args) (input_data_set args)
               (unet_start_in env) (e_unet_end env).
Proof.
  intros (_ & _ & Ht & He & _). repeat split.
  exists (e_tiling env). now repeat split.
Qed.

Lemma setup_ok_scale_args (args : Args V) (env : Env w) :
  setup_ok args env ->
  scale_args_ok w args (e_raw env) (e_scalingFactor env).
Proof.
  intros Hok. pose proof (setup_ok_read_args Hok) as Hra.
  destruct Hok as (_ & _ & _ & _ & Hr & Hf & _). split; [|exact Hf].
  now exists (unet_start_in env), (e_unet_end env).
Qed.

(** In a run that gets beyond the set-up, the calls of a kind that only the
    set-up makes are those of the set-up. *)
Lemma calls_of_setup_kind (p : call w -> bool) (args : Args V) (env : Env w)
      rest :
  (forall c, is_setup_call c = false -> p c = false) ->
  Forall (fun en => is_setup_call (fst en) = false) rest ->
  calls_of p (setup_trace args env ++ rest) = calls_of p (setup_trace args env).
Proof.
  intros Hp Hrest. rewrite calls_of_app, (calls_of_none p (t:=rest)).
  - apply app_nil_r.
  - eapply Forall_impl; [|exact Hrest]. intro en. apply Hp.
Qed.
End SetupInRun.

(** ** Scaling, bulk read and canvases *)

Section SetupClaims.
Context {V : Type} `{Scalar V}.
Variable w : World V.

Lemma not_in_rest (rest : list (entry w)) c o :
  Forall (fun en => is_setup_call (fst en) = false) rest ->
  is_setup_call c = true ->
  ~ In (c, o) rest.
Proof.
  intros Hrest Hc Hin. rewrite Forall_forall in Hrest.
  apply Hrest in Hin. simpl in Hin. congruence.
Qed.

Lemma in_singleton_calls (p : call w -> bool) {t : list (entry w)} {c o en} :
  calls_of p t = [en] -> In (c, o) t -> p c = true -> (c, o) = en.
Proof.
  intros Hcalls Hin Hp. apply (in_calls_of p) in Hin; [|exact Hp].
  rewrite Hcalls in Hin. destruct Hin as [<-|[]]. reflexivity.
Qed.

(** C10: the image is scaled with the factor given on the command line, or
    else with the factor that calculateScalingFactor computes from the image
    that the bulk read returned; scaleImage is called at most once, on that
    image, exactly once in a run that completes, and before the first call of
    the model. *)
Theorem scaling_applied_once (args : Args V) :
  (length (calls_of is_scaleImage (final_trace w args)) <= 1)%nat /\
  (forall img f o,
      In (C_scaleImage img f, o) (final_trace w args) ->
      scale_args_ok w args img f) /\
  (forall img o,
      In (C_calculateScalingFactor img, o) (final_trace w args) ->
      scaling args = None) /\
  (forall pre inp o post,
      final_trace w args = pre ++ (C_predict inp, o) :: post ->
      exists img f,
        calls_of is_scaleImage pre = [(C_scaleImage img f, Returned)]) /\
  (final_result w args = Ok tt ->
   length (calls_of is_scaleImage (final_trace w args)) = 1%nat).
Proof.
  destruct (run_split w args)
    as [(e & Hfail & Hres)|(env & rest & Hok & -> & Hrest)].
  - pose proof (setup_failed_kind Hfail) as Hkind.
    destruct Hfail as (_ & _ & _ & Hlen & _ & Hscale & Hcalc).
    splits.
    + exact Hlen.
    + exact Hscale.
    + exact Hcalc.
    + intros pre inp o post Heq. rewrite Heq in Hkind.
      apply Forall_app in Hkind. destruct Hkind as [_ Hkind].
      inversion Hkind; subst. discriminate.
    + rewrite Hres. discriminate.
  - assert (Hcalls : calls_of is_scaleImage (setup_trace args env ++ rest)
                     = [(C_scaleImage (e_raw env) (e_scalingFactor env),
                         Returned)]).
    { rewrite calls_of_setup_kind; [apply setup_trace_scales| |exact Hrest].
      by_kind. }
    splits.
    + rewrite Hcalls. simpl. lia.
    + intros img f o Hin.
      apply (in_singleton_calls is_scaleImage Hcalls) in Hin;
        [|reflexivity].
      injection Hin as -> -> ->. now apply setup_ok_scale_args.
    + intros img o Hin. apply in_app_or in Hin. destruct Hin as [Hin|Hin].
      * unfold setup_trace, gpu_entries, calc_entries in Hin.
        destruct (scaling args); [|reflexivity].
        destruct (set_gpu_mem_growth args); simpl in Hin;
          repeat (destruct Hin as [Hin|Hin]; try discriminate);
          contradiction.
      * exfalso. revert Hin. now apply not_in_rest.
    + intros pre inp o post Heq.
      apply split_after with (p := fun en => is_predict (fst en)) in Heq;
        [| |reflexivity].
      * destruct Heq as (pre' & -> & ->).
        exists (e_raw env), (e_scalingFactor env).
        apply Forall_app in Hrest. destruct Hrest as [Hpre' _].
        rewrite calls_of_setup_kind; [apply setup_trace_scales| |exact Hpre'].
        by_kind.
      * generalize (setup_trace_kind args env). apply Forall_kind. by_kind.
    + intros _. now rewrite Hcalls.
Qed.
Lemma tiler_in_run (args : Args V) tiler o :
  In (C_UnetTiler3D tiler, o) (final_trace w args) ->
  exists env rest,
    setup_ok args env /\
    final_trace w args = setup_trace args env ++ rest /\
    Forall (fun en => is_setup_call (fst en) = false) rest /\
    tiler = tiler_in args env /\ o = Returned.
Proof.
  intro Hin.
  destruct (run_split w args)
    as [(e & Hfail & Hres)|(env & rest & Hok & Heq & Hrest)].
  - destruct Hfail as (Hk & _). rewrite Forall_forall in Hk.
    apply Hk in Hin. simpl in Hin. destruct Hin. discriminate.
  - exists env, rest.
    split; [exact Hok|]. split; [exact Heq|]. split; [exact Hrest|].
    rewrite Heq in Hin.
    assert (Hcalls : calls_of is_tiler (setup_trace args env ++ rest)
                     = [(C_UnetTiler3D (tiler_in args env), Returned)])
      by (rewrite calls_of_setup_kind;
          [apply setup_trace_tilers|by_kind|exact Hrest]).
    apply (in_singleton_calls is_tiler Hcalls) in Hin; [|reflexivity].
    now injection Hin.
Qed.

Lemma tiler_in_setup_trace (args : Args V) (env : Env w) :
  In (C_AbsoluteCanvas (mask (tiler_in args env)), Returned)
     (setup_trace args env) /\
  In (C_UnetTiler3D (tiler_in args env), Returned) (setup_trace args env).
Proof.
  unfold setup_trace. rewrite !app_assoc.
  split; apply in_or_app; right; simpl; auto 6.
Qed.


End SetupClaims.

(** ** Writing, cleaning and storing *)

Section LaterPhases.
Context {V : Type} `{Scalar V}.
Variable w : World V.

Lemma postprocess_ok_clean (args : Args V) m (t : list (entry w)) r m' :
  postprocess_ok args m t r m' -> clean t r.
Proof.
  destruct 1.
  - apply clean_nil.
  - apply (clean_invoke _ (@Raise unit e)).
  - apply clean_cons; [reflexivity|]. apply (clean_invoke _ (@Raise unit e)).
  - left. repeat constructor.
Qed.

Lemma setup_trace_returned (args : Args V) (env : Env w) :
  Forall returned (setup_trace args env).
Proof.
  unfold setup_trace, gpu_entries, calc_entries.
  destruct (set_gpu_mem_growth args), (scaling args); repeat constructor.
Qed.

Lemma store_entry_clean (args : Args V) m :
  clean [store_entry w args m]
        (write_n5_block w (output_path args) (output_data_set args)
                        (start_coord args) (end_coord args) m).
Proof. apply clean_invoke. Qed.

(** In every run an exception raised by a call ends the run. *)
Lemma run_clean (args : Args V) :
  clean (final_trace w args) (final_result w args).
Proof.
  destruct (run_shape_main w args)
    as [t e Hfail | env t2 e m2 Hok Hseg | env t2 m2 t3 e m3 Hok Hseg Hpost
       | env t2 m2 t3 m3 Hok Hseg Hpost].
  - now destruct Hfail as (_ & Hc & _).
  - apply clean_returned_prefix; [apply setup_trace_returned|].
    now destruct Hseg as (_ & Hc & _).
  - apply clean_returned_prefix; [apply setup_trace_returned|].
    destruct Hseg as (_ & Hc & _).
    apply (clean_app (a:=tt)); [exact Hc|].
    eapply postprocess_ok_clean; eassumption.
  - apply clean_returned_prefix; [apply setup_trace_returned|].
    destruct Hseg as (_ & Hc & _).
    apply (clean_app (a:=tt)); [exact Hc|].
    apply (clean_app (a:=tt));
      [eapply postprocess_ok_clean; eassumption|apply store_entry_clean].
Qed.

(** The calls of a run: those before the post-processing, those of the
    post-processing and the persistence write. *)
Lemma run_phases (args : Args V) :
  exists pre t3 t4,
    final_trace w args = pre ++ t3 ++ t4 /\
    Forall (fun en => is_postprocess (fst en) = false /\
                      is_store (fst en) = false) pre /\
    Forall (fun en => is_postprocess (fst en) = true) t3 /\
    Forall (fun en => is_writeSlice (fst en) = false) (t3 ++ t4) /\
    (t3 = [] \/ exists m r m', postprocess_ok args m t3 r m') /\
    (t4 = [] /\ (exists e, final_result w args = Raise e)
     \/ exists m, t4 = [store_entry w args m] /\ final_mask w args = Some m /\
                  final_result w args
                  = write_n5_block w (output_path args) (output_data_set args)
                                   (start_coord args) (end_coord args) m /\
                  (t3 = [] \/ exists m0, postprocess_ok args m0 t3 (Ok tt) m)).
Proof.
  assert (Hsetup : forall t : list (entry w),
             Forall (fun en => is_setup_call (fst en) = true) t ->
             Forall (fun en => is_postprocess (fst en) = false /\
                               is_store (fst en) = false) t).
  { intros t. apply Forall_impl. intros [c o]. simpl.
    destruct c; simpl; auto; discriminate. }
  assert (Hsegment : forall t : list (entry w),
             Forall (fun en => is_segment_call (fst en) = true) t ->
             Forall (fun en => is_postprocess (fst en) = false /\
                               is_store (fst en) = false) t).
  { intros t. apply Forall_impl. intros [c o]. simpl.
    destruct c; simpl; auto; discriminate. }
  assert (Hpostk : forall t : list (entry w),
             Forall (fun en => is_postprocess (fst en) = true) t ->
             Forall (fun en => is_writeSlice (fst en) = false) t).
  { intros t. apply Forall_kind. by_kind. }
  destruct (run_shape_main w args)
    as [t e Hfail | env t2 e m2 Hok Hseg | env t2 m2 t3 e m3 Hok Hseg Hpost
       | env t2 m2 t3 m3 Hok Hseg Hpost].
  - exists t, [], []. rewrite !app_nil_r.
    splits.
    + reflexivity.
    + apply Hsetup. eapply setup_failed_kind; eassumption.
    + constructor.
    + constructor.
    + now left.
    + left. split; [reflexivity|]. now exists e.
  - exists (setup_trace args env ++ t2), [], []. rewrite !app_nil_r.
    splits.
    + reflexivity.
    + apply Forall_app. split; [apply Hsetup, setup_trace_kind|].
      apply Hsegment. now destruct Hseg.
    + constructor.
    + constructor.
    + now left.
    + left. split; [reflexivity|]. now exists e.
  - exists (setup_trace args env ++ t2), t3, []. rewrite !app_nil_r.
    splits.
    + now rewrite app_assoc.
    + apply Forall_app. split; [apply Hsetup, setup_trace_kind|].
      apply Hsegment. now destruct Hseg.
    + eapply postprocess_ok_kind; eassumption.
    + apply Hpostk. eapply postprocess_ok_kind; eassumption.
    + right. eauto.
    + left. split; [reflexivity|]. now exists e.
  - exists (setup_trace args env ++ t2), t3, [store_entry w args m3].
    splits.
    + now rewrite app_assoc.
    + apply Forall_app. split; [apply Hsetup, setup_trace_kind|].
      apply Hsegment. now destruct Hseg.
    + eapply postprocess_ok_kind; eassumption.
    + apply Forall_app. split; [|repeat constructor].
      apply Hpostk. eapply postprocess_ok_kind; eassumption.
    + right. eauto.
    + right. exists m3. repeat split. right. eauto.
Qed.

Lemma calls_of_all (p : call w -> bool) (t : list (entry w)) :
  Forall (fun en => p (fst en) = true) t -> calls_of p t = t.
Proof.
  induction 1 as [|en t Hen _ IH]; simpl; [reflexivity|].
  rewrite Hen. now f_equal.
Qed.
End LaterPhases.

Section LaterClaims.
Context {V : Type} `{Scalar V}.
Variable w : World V.

Lemma calls_of_phases (args : Args V) pre t3 t4 :
  final_trace w args = pre ++ t3 ++ t4 ->
  Forall (fun en : entry w => is_postprocess (fst en) = false /\
                              is_store (fst en) = false) pre ->
  Forall (fun en : entry w => is_postprocess (fst en) = true) t3 ->
  (t4 = [] \/ exists m, t4 = [store_entry w args m]) ->
  calls_of is_postprocess pre = [] /\ calls_of is_store pre = [] /\
  calls_of is_postprocess (final_trace w args) = t3 /\
  calls_of is_store (final_trace w args) = t4.
Proof.
  intros -> Hpre Ht3 Ht4.
  assert (Hp1 : calls_of is_postprocess pre = []).
  { apply calls_of_none. eapply Forall_impl; [|exact Hpre]. now intros en []. }
  assert (Hp2 : calls_of is_store pre = []).
  { apply calls_of_none. eapply Forall_impl; [|exact Hpre]. now intros en []. }
  assert (Hp3 : calls_of is_store t3 = []).
  { apply calls_of_none. revert Ht3. apply Forall_kind. by_kind. }
  rewrite !calls_of_app, Hp1, Hp2, Hp3, (calls_of_all _ Ht3). simpl.
  repeat split.
  - destruct Ht4 as [->|(m & ->)]; [apply app_nil_r|].
    simpl. apply app_nil_r.
  - destruct Ht4 as [->|(m & ->)]; reflexivity.
Qed.

(** C5: a run makes at most one persistence write, as its last call, with
    the output path and dataset, the start and end of the target region and
    the content that the output canvas then has; a run that completes makes
    exactly one, after the post-processing, if any, has returned. *)
Theorem single_persistence_write (args : Args V) :
  (length (calls_of is_store (final_trace w args)) <= 1)%nat /\
  (forall path dataset start end_ img o,
      In (C_write_n5_block path dataset start end_ img, o)
         (final_trace w args) ->
      path = output_path args /\ dataset = output_data_set args /\
      start = start_coord args /\ end_ = end_coord args /\
      final_mask w args = Some img /\
      exists pre,
        final_trace w args
        = pre ++ [(C_write_n5_block path dataset start end_ img, o)] /\
        calls_of is_store pre = []) /\
  (final_result w args = Ok tt ->
   exists pre img,
     final_trace w args
     = pre ++ [(C_write_n5_block (output_path args) (output_data_set args)
                                 (start_coord args) (end_coord args) img,
                Returned)] /\
     calls_of is_store pre = [] /\
     final_mask w args = Some img /\
     (calls_of is_postprocess pre = [] \/
      exists m0, postprocess_ok args m0 (calls_of is_postprocess pre)
                                (Ok tt) img)).
Proof.
  destruct (run_phases w args)
    as (pre & t3 & t4 & Heq & Hpre & Ht3 & Hws & Hpost & Ht4).
  assert (Ht4' : t4 = [] \/ exists m, t4 = [store_entry w args m]).
  { destruct Ht4 as [[-> _]|(m & -> & _)]; eauto. }
  destruct (calls_of_phases Heq Hpre Ht3 Ht4')
    as (Hp1 & Hp2 & Hc3 & Hc4).
  assert (Hs3 : calls_of is_store t3 = []).
  { apply calls_of_none. revert Ht3. apply Forall_kind. by_kind. }
  splits.
  - rewrite Hc4. destruct Ht4' as [->|(m & ->)]; simpl; lia.
  - intros path dataset start end_ img o Hin.
    apply (in_calls_of is_store) in Hin; [|reflexivity].
    rewrite Hc4 in Hin.
    destruct Ht4 as [[-> _]|(m & -> & Hm & Hr & _)]; [destruct Hin|].
    destruct Hin as [Hin|[]]. unfold store_entry in Hin.
    injection Hin as <- <- <- <- <- <-.
    splits; try reflexivity; try assumption.
    exists (pre ++ t3). split.
    + rewrite Heq, <- app_assoc. reflexivity.
    + now rewrite calls_of_app, Hp2, Hs3.
  - intro Hres.
    destruct Ht4 as [[_ (e & He)]|(m & -> & Hm & Hr & Hp)]; [congruence|].
    exists (pre ++ t3), m. splits.
    + rewrite Heq, <- app_assoc. unfold store_entry.
      now rewrite <- Hr, Hres.
    + now rewrite calls_of_app, Hp2, Hs3.
    + exact Hm.
    + rewrite calls_of_app, Hp1, (calls_of_all _ Ht3). simpl.
      destruct Hp as [->|Hp]; [now left|now right].
Qed.

Lemma setup_ok_unique (args : Args V) (env env' : Env w) :
  setup_ok args env -> setup_ok args env' -> env = env'.
Proof.
  destruct env as [sh ti ue raw f img u z], env' as [sh' ti' ue' raw' f' img' u' z'].
  unfold setup_ok, unet_start_in, factor_from; simpl.
  intros (_ & Hsh & Hti & Hue & Hraw & Hf & Himg & Hu & Hz)
         (_ & Hsh' & Hti' & Hue' & Hraw' & Hf' & Himg' & Hu' & Hz').
  rewrite Hsh in Hsh'. injection Hsh' as <-.
  rewrite Hti in Hti'. injection Hti' as <-.
  rewrite Hue in Hue'. injection Hue' as <-.
  rewrite Hraw in Hraw'. injection Hraw' as <-.
  assert (f = f') as <-.
  { destruct (scaling args); [congruence|].
    rewrite Hf in Hf'. now injection Hf'. }
  rewrite Himg in Himg'. injection Himg' as <-.
  rewrite Hu in Hu'. injection Hu' as <-.
  rewrite Hz in Hz'. injection Hz' as <-.
  reflexivity.
Qed.

Lemma replay_app (tiler : UnetTiler3D V (Tiling w)) (t1 t2 : list (entry w)) m :
  replay tiler (t1 ++ t2) m = replay tiler t2 (replay tiler t1 m).
Proof. unfold replay. apply fold_left_app. Qed.

Lemma replay_none (tiler : UnetTiler3D V (Tiling w)) (t : list (entry w)) m :
  Forall (fun en => is_writeSlice (fst en) = false) t ->
  replay tiler t m = m.
Proof.
  intro Ht. revert m. induction Ht as [|[c o] t Hc _ IH]; intro m;
    [reflexivity|].
  simpl in Hc. unfold replay in *. simpl.
  destruct c; try discriminate; apply IH.
Qed.

(** C3, as the code has it: the post-processing is gated by
    with_post_processing.  Without the flag, no post-processing call is made.
    With it, a run that completes makes exactly the two calls, the flood fill
    and then the small-object removal, after every writeSlice call and before
    the persistence write; the flood fill works on the stitched canvas, the
    removal on what the flood fill left, and what the removal leaves is
    stored.  In every run, the calls are those before the post-processing,
    then those of the post-processing, then the persistence write. *)
Theorem postprocessing_when_enabled (args : Args V) :
  (exists pre,
      final_trace w args
      = pre ++ calls_of is_postprocess (final_trace w args)
            ++ calls_of is_store (final_trace w args) /\
      calls_of is_postprocess pre = [] /\ calls_of is_store pre = [] /\
      written_tiles pre = written_tiles (final_trace w args)) /\
  (with_post_processing args = false ->
   calls_of is_postprocess (final_trace w args) = []) /\
  (with_post_processing args = true ->
   final_result w args = Ok tt ->
   exists m m2 m3,
     calls_of is_postprocess (final_trace w args)
     = [(C_clean_floodFill m (high_threshold args) (low_threshold args),
         Returned);
        (C_removeSmallObjects m2 (small_region_probability_threshold args)
                              (small_region_size_threshold args),
         Returned)] /\
     clean_floodFill w m (high_threshold args) (low_threshold args) = Ok m2 /\
     removeSmallObjects w m2 (small_region_probability_threshold args)
                        (small_region_size_threshold args) = Ok m3 /\
     calls_of is_store (final_trace w args)
     = [(C_write_n5_block (output_path args) (output_data_set args)
                          (start_coord args) (end_coord args) m3,
         Returned)] /\
     final_mask w args = Some m3 /\
     (forall tiler o,
         In (C_UnetTiler3D tiler, o) (final_trace w args) ->
         m = replay tiler (final_trace w args) (image (mask tiler)))).
Proof.
  splits.
  - destruct (run_phases w args)
      as (pre & t3 & t4 & Heq & Hpre & Ht3 & Hws & Hpost & Ht4).
    assert (Ht4' : t4 = [] \/ exists m, t4 = [store_entry w args m]).
    { destruct Ht4 as [[-> _]|(m & -> & _)]; eauto. }
    destruct (calls_of_phases Heq Hpre Ht3 Ht4')
      as (Hp1 & Hp2 & Hc3 & Hc4).
    exists pre. rewrite Hc3, Hc4. splits; try assumption.
    rewrite Heq, written_tiles_app, (written_tiles_none Hws).
    now rewrite app_nil_r.
  - intro Hoff.
    destruct (run_phases w args)
      as (pre & t3 & t4 & Heq & Hpre & Ht3 & Hws & Hpost & Ht4).
    assert (Ht4' : t4 = [] \/ exists m, t4 = [store_entry w args m]).
    { destruct Ht4 as [[-> _]|(m & -> & _)]; eauto. }
    destruct (calls_of_phases Heq Hpre Ht3 Ht4')
      as (Hp1 & Hp2 & Hc3 & Hc4).
    rewrite Hc3. destruct Hpost as [->|(m & r & m' & Hp)]; [reflexivity|].
    destruct Hp; congruence.
  - intros Hon Hres.
    assert (Hseg_ws : forall t : list (entry w),
               Forall (fun en => is_setup_call (fst en) = true) t ->
               Forall (fun en => is_writeSlice (fst en) = false) t).
    { intro t. apply Forall_kind. by_kind. }
    generalize (tiler_in_run w args).
    destruct (run_shape_main w args)
      as [t e Hfail | env t2 e m2 Hok Hseg | env t2 m2 t3 e m3 Hok Hseg Hpost
         | env t2 m2 t3 m3 Hok Hseg Hpost]; try discriminate.
    intros Htiler.
    destruct Hseg as (Hk & _ & Hm2 & _).
    inversion Hpost as [Hoff| | |m2' m3' _ Hflood Hremove]; subst;
      [congruence|].
    exists (replay (tiler_in args env) t2 (e_output_image env)), m2', m3.
    assert (Hk2 : Forall (fun en : entry w =>
                            is_postprocess (fst en) = false /\
                            is_store (fst en) = false) t2).
    { eapply Forall_impl; [|exact Hk].
      intros [c o]. simpl. destruct c; simpl; auto; discriminate. }
    assert (Hk1 : Forall (fun en : entry w =>
                            is_postprocess (fst en) = false /\
                            is_store (fst en) = false)
                         (setup_trace args env)).
    { generalize (setup_trace_kind args env). apply Forall_impl.
      intros [c o]. simpl. destruct c; simpl; auto; discriminate. }
    rewrite !calls_of_app.
    rewrite (calls_of_none is_postprocess (t:=setup_trace args env)),
      (calls_of_none is_postprocess (t:=t2)),
      (calls_of_none is_store (t:=setup_trace args env)),
      (calls_of_none is_store (t:=t2));
      try (eapply Forall_impl; [|eassumption]; now intros en []).
    simpl. unfold store_entry in *. rewrite Hres in *. simpl.
    splits; try reflexivity; try assumption.
    intros tiler o Hin. apply Htiler in Hin.
    destruct Hin as (env' & rest & Hok' & Heq' & Hrest & -> & ->).
    assert (env' = env) as -> by (eapply setup_ok_unique; eassumption).
    rewrite !replay_app.
    rewrite (replay_none _ (t:=setup_trace args env));
      [|apply Hseg_ws, setup_trace_kind].
    simpl. reflexivity.
Qed.
End LaterClaims.

Section LoopClaims.
Context {V : Type} `{Scalar V}.
Variable w : World V.


Lemma written_tiles_setup (t : list (entry w)) :
  Forall (fun en => is_setup_call (fst en) = true) t -> written_tiles t = [].
Proof.
  intro Ht. apply written_tiles_none. revert Ht. apply Forall_kind. by_kind.
Qed.

(** The writeSlice calls of a run are those of its prediction loop. *)
Lemma written_in_run (args : Args V) :
  (written_tiles (final_trace w args) = [] /\
   (forall tiler o, ~ In (C_UnetTiler3D tiler, o) (final_trace w args)) /\
   exists e, final_result w args = Raise e) \/
  (exists env t2 r2 m2,
      setup_ok args env /\ segment_ok args env t2 r2 m2 /\
      written_tiles (final_trace w args) = written_tiles t2 /\
      In (C_UnetTiler3D (tiler_in args env), Returned) (final_trace w args) /\
      (final_result w args = Ok tt -> r2 = Ok tt) /\
      (forall tile window o,
          In (C_writeSlice tile window, o) (final_trace w args) ->
          In (C_writeSlice tile window, o) t2)).
Proof.
  assert (Hno : forall (t : list (entry w)) tile window o,
             Forall (fun en => is_writeSlice (fst en) = false) t ->
             ~ In (C_writeSlice tile window, o) t).
  { intros t tile window o Ht Hin. rewrite Forall_forall in Ht.
    apply Ht in Hin. discriminate. }
  assert (Hsetup : forall args env,
             Forall (fun en : entry w => is_writeSlice (fst en) = false)
                    (setup_trace args env)).
  { intros a env. generalize (setup_trace_kind a env).
    apply Forall_kind. by_kind. }
  assert (Hpost : forall args m (t : list (entry w)) r m',
             postprocess_ok args m t r m' ->
             Forall (fun en : entry w => is_writeSlice (fst en) = false) t).
  { intros a m t r m' Hp. apply postprocess_ok_kind in Hp. revert Hp.
    apply Forall_kind. by_kind. }
  destruct (run_shape_main w args)
    as [t e Hfail | env t2 e m2 Hok Hseg | env t2 m2 t3 e m3 Hok Hseg Hp
       | env t2 m2 t3 m3 Hok Hseg Hp].
  - left. splits.
    + apply written_tiles_setup. eapply setup_failed_kind; eassumption.
    + intros tiler o Hin. destruct Hfail as (Hk & _).
      rewrite Forall_forall in Hk. apply Hk in Hin. simpl in Hin.
      destruct Hin. discriminate.
    + now exists e.
  - right. exists env, t2, (Raise e), m2. splits; try assumption.
    + rewrite written_tiles_app, written_tiles_setup;
        [reflexivity|apply setup_trace_kind].
    + apply in_or_app. left. apply tiler_in_setup_trace.
    + discriminate.
    + intros tile window o Hin. apply in_app_or in Hin.
      destruct Hin as [Hin|Hin]; [|exact Hin].
      exfalso. revert Hin. apply Hno, Hsetup.
  - right. exists env, t2, (Ok tt), m2. splits; try assumption.
    + rewrite !written_tiles_app, written_tiles_setup;
        [|apply setup_trace_kind].
      rewrite (written_tiles_none (Hpost _ _ _ _ _ Hp)).
      now rewrite app_nil_r.
    + apply in_or_app. left. apply tiler_in_setup_trace.
    + reflexivity.
    + intros tile window o Hin. apply in_app_or in Hin.
      destruct Hin as [Hin|Hin];
        [exfalso; revert Hin; apply Hno, Hsetup|].
      apply in_app_or in Hin. destruct Hin as [Hin|Hin]; [exact Hin|].
      exfalso. revert Hin. eapply Hno, Hpost. eassumption.
  - right. exists env, t2, (Ok tt), m2. splits; try assumption.
    + rewrite !written_tiles_app, written_tiles_setup;
        [|apply setup_trace_kind].
      rewrite (written_tiles_none (Hpost _ _ _ _ _ Hp)).
      simpl. now rewrite app_nil_r.
    + apply in_or_app. left. apply tiler_in_setup_trace.
    + reflexivity.
    + intros tile window o Hin. apply in_app_or in Hin.
      destruct Hin as [Hin|Hin];
        [exfalso; revert Hin; apply Hno, Hsetup|].
      apply in_app_or in Hin. destruct Hin as [Hin|Hin]; [exact Hin|].
      apply in_app_or in Hin. destruct Hin as [Hin|Hin].
      * exfalso. revert Hin. eapply Hno, Hpost. eassumption.
      * destruct Hin as [Hin|[]]. discriminate.
Qed.


(** Every exception that a call raises ends the run and is its result; no
    persistence write was made before it. *)
Lemma raised_ends_run (args : Args V) c e :
  In (c, Raised e) (final_trace w args) ->
  final_result w args = Raise e /\
  exists pre,
    final_trace w args = pre ++ [(c, Raised e)] /\
    Forall returned pre /\
    calls_of is_store pre = [].
Proof.
  intro Hin.
  destruct (clean_raised (run_clean w args) Hin) as (Hres & pre & Heq & Hpre).
  split; [exact Hres|]. exists pre. splits; try assumption.
  destruct (run_phases w args)
    as (p & t3 & t4 & Heq' & Hp & Ht3 & _ & _ & Ht4).
  assert (Hs3 : calls_of is_store t3 = []).
  { apply calls_of_none. revert Ht3. apply Forall_kind. by_kind. }
  assert (Hsp : calls_of is_store p = []).
  { apply calls_of_none. eapply Forall_impl; [|exact Hp]. now intros en []. }
  destruct Ht4 as [[-> _]|(m & -> & _)].
  - rewrite app_nil_r in Heq'.
    assert (Hall : calls_of is_store (final_trace w args) = []).
    { now rewrite Heq', calls_of_app, Hsp, Hs3. }
    unfold calls_of in *. rewrite Heq, filter_app in Hall.
    now apply app_eq_nil in Hall.
  - rewrite Heq, app_assoc in Heq'. apply app_inj_tail in Heq'.
    destruct Heq' as [-> _]. now rewrite calls_of_app, Hsp, Hs3.
Qed.

(** A run that ends with an exception has made no persistence write that
    returned. *)
Lemma failed_run_not_stored (args : Args V) e c :
  final_result w args = Raise e ->
  In (c, Returned) (final_trace w args) ->
  is_store c = false.
Proof.
  intros Hres Hin.
  destruct (run_phases w args)
    as (p & t3 & t4 & Heq & Hp & Ht3 & _ & _ & Ht4).
  rewrite Heq in Hin. apply in_app_or in Hin. destruct Hin as [Hin|Hin].
  - rewrite Forall_forall in Hp. now apply Hp in Hin.
  - apply in_app_or in Hin. destruct Hin as [Hin|Hin].
    + rewrite Forall_forall in Ht3. apply Ht3 in Hin. simpl in Hin.
      destruct c; simpl in *; congruence.
    + destruct Ht4 as [[-> _]|(m & -> & _ & Hr & _)]; [destruct Hin|].
      destruct Hin as [Hin|[]]. unfold store_entry in Hin.
      rewrite <- Hr, Hres in Hin. discriminate.
Qed.
End LoopClaims.

(** ** Reducing the class axis *)

Section ReduceFacts.
Context {V : Type} `{Scalar V}.

Lemma In_firstn {A} (n : nat) (l : list A) x : In x (firstn n l) -> In x l.
Proof.
  revert l. induction n as [|n IH]; intros [|y l] Hin; simpl in *;
    try contradiction.
  destruct Hin as [->|Hin]; auto.
Qed.

Lemma In_skipn {A} (n : nat) (l : list A) x : In x (skipn n l) -> In x l.
Proof.
  revert l. induction n as [|n IH]; intros [|y l] Hin; simpl in *;
    try contradiction; auto.
Qed.

(** The values of an item are values of the array. *)
Lemma item_data (a : ndarray V) (i : nat) x :
  In x (data (item a i)) -> In x (data a).
Proof. unfold item. simpl. intro Hin. eapply In_skipn, In_firstn, Hin. Qed.

End ReduceFacts.





(** ** The tile plan *)

Module TilePlanFacts.
Import TilePlan.

(** *** One axis *)

Section Axis.
Context {stride end_ : Z}.

(** With a stride that is not positive the loop does not end. *)
Lemma axis_starts_diverges fuel s :
  stride <= 0 -> s < end_ -> axis_starts fuel stride end_ s = None.
Proof.
  intro Hstride. revert s. induction fuel as [|fuel IH]; intros s Hs; simpl.
  - apply Z.ltb_lt in Hs. now rewrite Hs.
  - apply Z.ltb_lt in Hs. rewrite Hs. rewrite IH; [reflexivity|].
    apply Z.ltb_lt in Hs. lia.
Qed.

(** With a positive stride it ends, within end - start rounds. *)
Lemma axis_starts_total fuel s :
  0 < stride -> end_ - s <= Z.of_nat fuel ->
  exists l, axis_starts fuel stride end_ s = Some l.
Proof.
  intro Hstride. revert s. induction fuel as [|fuel IH]; intros s Hfuel; simpl.
  - destruct (s <? end_) eqn:Es; [apply Z.ltb_lt in Es; lia|]. now exists [].
  - destruct (s <? end_) eqn:Es; [|now exists []].
    destruct (IH (s + stride)) as (l & ->); [lia|]. now exists (s :: l).
Qed.

Lemma axis_starts_in {fuel s l x} :
  axis_starts fuel stride end_ s = Some l ->
  In x l ->
  0 < stride /\ s <= x < end_ /\ exists k, 0 <= k /\ x = s + k * stride.
Proof.
  revert s l. induction fuel as [|fuel IH]; intros s l Hl Hx; simpl in Hl;
    destruct (s <? end_) eqn:Es; try discriminate;
    try (injection Hl as <-; destruct Hx).
  apply Z.ltb_lt in Es.
  destruct (axis_starts fuel stride end_ (s + stride)) as [l'|] eqn:El';
    [|discriminate].
  injection Hl as <-.
  assert (Hstride : 0 < stride).
  { destruct (Z_lt_le_dec 0 stride) as [Hlt|Hle]; [exact Hlt|].
    rewrite axis_starts_diverges in El'; [discriminate|exact Hle|lia]. }
  destruct Hx as [<-|Hx].
  - split; [exact Hstride|]. split; [lia|]. exists 0. lia.
  - destruct (IH _ _ El' Hx) as (_ & Hr & k & Hk & ->).
    split; [exact Hstride|]. split; [lia|]. exists (k + 1). lia.
Qed.

Lemma axis_starts_cover {fuel s l} x :
  axis_starts fuel stride end_ s = Some l ->
  s <= x < end_ ->
  exists a, In a l /\ a <= x < a + stride.
Proof.
  revert s l. induction fuel as [|fuel IH]; intros s l Hl Hx; simpl in Hl;
    destruct (s <? end_) eqn:Es; try discriminate;
    try (apply Z.ltb_ge in Es; lia).
  destruct (axis_starts fuel stride end_ (s + stride)) as [l'|] eqn:El';
    [|discriminate].
  injection Hl as <-.
  destruct (Z_lt_le_dec x (s + stride)) as [Hlt|Hle].
  - exists s. split; [now left|lia].
  - destruct (IH _ _ El') as (a & Ha & Hxa); [lia|].
    exists a. split; [now right|exact Hxa].
Qed.

(** Two different starts are at least a stride apart. *)
Lemma axis_starts_apart {fuel s l a b} :
  axis_starts fuel stride end_ s = Some l ->
  In a l -> In b l -> a <> b ->
  a + stride <= b \/ b + stride <= a.
Proof.
  intros Hl Ha Hb Hab.
  destruct (axis_starts_in Hl Ha) as (Hstride & _ & k & Hk & ->).
  destruct (axis_starts_in Hl Hb) as (_ & _ & k' & Hk' & ->).
  assert (k <> k') by congruence.
  destruct (Z_lt_le_dec k k'); [left|right]; nia.
Qed.

Lemma axis_starts_NoDup {fuel s l} :
  axis_starts fuel stride end_ s = Some l -> NoDup l.
Proof.
  revert s l. induction fuel as [|fuel IH]; intros s l Hl; simpl in Hl;
    destruct (s <? end_) eqn:Es; try discriminate;
    try (injection Hl as <-; constructor).
  destruct (axis_starts fuel stride end_ (s + stride)) as [l'|] eqn:El';
    [|discriminate].
  injection Hl as <-. constructor; [|eapply IH; eassumption].
  intro Hin. destruct (axis_starts_in El' Hin) as (Hstride & Hr & _).
  lia.
Qed.
End Axis.

(** *** Boxes *)

Lemma in_box_inter p a b :
  in_box p (inter a b) <-> in_box p a /\ in_box p b.
Proof. unfold in_box, inter, vmap2. simpl. lia. Qed.

Lemma in_box_whole p g :
  in_box p (whole g) <->
  (0 <= vx p < vx g) /\ (0 <= vy p < vy g) /\ (0 <= vz p < vz g).
Proof. unfold in_box, whole, origin. simpl. tauto. Qed.

(** *** The grid *)

Lemma NoDup_map_injective {A B} (f : A -> B) (l : list A) :
  (forall x y, f x = f y -> x = y) -> NoDup l -> NoDup (map f l).
Proof.
  intros Hf Hl. induction Hl as [|x l Hx Hl IH]; simpl; constructor;
    [|exact IH].
  rewrite in_map_iff. intros (y & Heq & Hy). apply Hf in Heq. now subst.
Qed.

Lemma NoDup_list_prod {A B} (l : list A) (l' : list B) :
  NoDup l -> NoDup l' -> NoDup (list_prod l l').
Proof.
  intros Hl Hl'. induction Hl as [|x l Hx Hl IH]; simpl; [constructor|].
  apply NoDup_app.
  - apply NoDup_map_injective; [|exact Hl'].
    intros y y' Heq. now injection Heq.
  - exact IH.
  - intros [a b] Hin Hin'. apply in_map_iff in Hin.
    destruct Hin as (y & Heq & _). injection Heq as <- <-.
    apply in_prod_iff in Hin'. now destruct Hin'.
Qed.

Lemma in_grid xs ys zs v :
  In v (grid xs ys zs) <-> In (vx v) xs /\ In (vy v) ys /\ In (vz v) zs.
Proof.
  unfold grid. rewrite in_map_iff. split.
  - intros ([x [y z]] & <- & Hin). simpl.
    apply in_prod_iff in Hin. destruct Hin as [Hx Hin].
    apply in_prod_iff in Hin. tauto.
  - intros (Hx & Hy & Hz). exists (vx v, (vy v, vz v)). simpl.
    split; [now destruct v|]. now rewrite !in_prod_iff.
Qed.

Lemma NoDup_grid xs ys zs :
  NoDup xs -> NoDup ys -> NoDup zs -> NoDup (grid xs ys zs).
Proof.
  intros Hx Hy Hz. unfold grid. apply NoDup_map_injective.
  - intros [x [y z]] [x' [y' z']] Heq. simpl in Heq. now injection Heq as -> -> ->.
  - now repeat apply NoDup_list_prod.
Qed.

Lemma nth_error_number_from {A} (l : list A) k i :
  nth_error (combine (seq k (length l)) l) i
  = option_map (pair (k + i)%nat) (nth_error l i).
Proof.
  revert k i. induction l as [|x l IH]; intros k [|i]; simpl; try reflexivity.
  - now rewrite Nat.add_0_r.
  - rewrite IH. now rewrite Nat.add_succ_r.
Qed.

Lemma nth_error_number {A} (l : list A) i :
  nth_error (number l) i = option_map (pair i) (nth_error l i).
Proof. apply nth_error_number_from. Qed.

(** *** The plan *)

Lemma plan_axes {fuel global_shape target input_shape output_shape plan} :
  make fuel global_shape target input_shape output_shape = Some (Ok plan) ->
  exists xs ys zs,
    axis_starts fuel (vx output_shape) (vx (bend target)) (vx (bstart target))
      = Some xs /\
    axis_starts fuel (vy output_shape) (vy (bend target)) (vy (bstart target))
      = Some ys /\
    axis_starts fuel (vz output_shape) (vz (bend target)) (vz (bstart target))
      = Some zs /\
    tiles plan
    = map (fun p => make_tile global_shape target input_shape output_shape
                              (fst p) (snd p))
          (number (grid xs ys zs)) /\
    union_input_bbox plan = union_of (tiles plan) /\
    target_region plan = target.
Proof.
  intro Hplan. unfold make in Hplan.
  destruct (negb (vall2 Z.leb output_shape input_shape)); [discriminate|].
  destruct (negb (nonempty target)); [discriminate|].
  destruct (negb (nonempty (inter target (whole global_shape))));
    [discriminate|].
  destruct (axis_starts fuel (vx output_shape) _ _) as [xs|]; [|discriminate].
  destruct (axis_starts fuel (vy output_shape) _ _) as [ys|]; [|discriminate].
  destruct (axis_starts fuel (vz output_shape) _ _) as [zs|]; [|discriminate].
  injection Hplan as <-. exists xs, ys, zs. simpl. auto 10.
Qed.

(** The tile at position [i] is the one made for the [i]-th grid point, and
    has [i] as its index. *)
Lemma plan_tile {global_shape target input_shape output_shape}
      {plan : TilePlan} {xs ys zs i t} :
  tiles plan
  = map (fun p => make_tile global_shape target input_shape output_shape
                            (fst p) (snd p))
        (number (grid xs ys zs)) ->
  nth_error (tiles plan) i = Some t ->
  exists v, nth_error (grid xs ys zs) i = Some v /\
            t = make_tile global_shape target input_shape output_shape i v.
Proof.
  intros -> Ht. rewrite nth_error_map, nth_error_number in Ht.
  destruct (nth_error (grid xs ys zs) i) as [v|]; [|discriminate].
  simpl in Ht. injection Ht as <-. now exists v.
Qed.

Lemma in_valid_output_bbox global_shape target input_shape output_shape
      p i v :
  in_box p (valid_output_bbox
              (make_tile global_shape target input_shape output_shape i v)) <->
  in_box p (mk_bbox v (vmap2 Z.add v output_shape)) /\
  in_box p target /\ in_box p (whole global_shape).
Proof. simpl. rewrite !in_box_inter. tauto. Qed.

(** C1: the valid output boxes of the tiles of a plan cover the part of the
    target region that lies in the volume, and nothing else, and the valid
    output boxes of two different tiles share no point. *)
Theorem tiles_cover_target fuel global_shape target input_shape output_shape
        plan :
  make fuel global_shape target input_shape output_shape = Some (Ok plan) ->
  (forall p,
      in_box p (inter target (whole global_shape)) <->
      exists t, In t (tiles plan) /\ in_box p (valid_output_bbox t)) /\
  (forall i j ti tj,
      nth_error (tiles plan) i = Some ti ->
      nth_error (tiles plan) j = Some tj ->
      i <> j ->
      forall p, ~ (in_box p (valid_output_bbox ti) /\
                   in_box p (valid_output_bbox tj))).
Proof.
  intro Hplan.
  destruct (plan_axes Hplan) as (xs & ys & zs & Hxs & Hys & Hzs & Ht & _).
  split.
  - intro p. rewrite in_box_inter. split.
    + intros [Htarget Hwhole].
      destruct (@axis_starts_cover _ _ _ _ _ (vx p) Hxs) as (ax & Hax & Hpx);
        [apply Htarget|].
      destruct (@axis_starts_cover _ _ _ _ _ (vy p) Hys) as (ay & Hay & Hpy);
        [apply Htarget|].
      destruct (@axis_starts_cover _ _ _ _ _ (vz p) Hzs) as (az & Haz & Hpz);
        [apply Htarget|].
      assert (Hv : In (mk_vec3 ax ay az) (grid xs ys zs))
        by (apply in_grid; simpl; auto).
      apply In_nth_error in Hv. destruct Hv as (i & Hi).
      exists (make_tile global_shape target input_shape output_shape i
                        (mk_vec3 ax ay az)).
      split.
      * rewrite Ht. apply in_map_iff. exists (i, mk_vec3 ax ay az).
        split; [reflexivity|].
        apply nth_error_In with (n := i).
        now rewrite nth_error_number, Hi.
      * apply in_valid_output_bbox. split; [|now split].
        unfold in_box. simpl. lia.
    + intros (t & Hin & Hp). apply In_nth_error in Hin.
      destruct Hin as (i & Hi).
      destruct (plan_tile Ht Hi) as (v & _ & ->).
      apply in_valid_output_bbox in Hp. tauto.
  - intros i j ti tj Hi Hj Hij p [Hpi Hpj].
    destruct (plan_tile Ht Hi) as (vi & Hvi & ->).
    destruct (plan_tile Ht Hj) as (vj & Hvj & ->).
    apply in_valid_output_bbox in Hpi, Hpj.
    destruct Hpi as [Hpi _], Hpj as [Hpj _].
    unfold in_box in Hpi, Hpj. simpl in Hpi, Hpj.
    assert (Hne : vi <> vj).
    { intros ->. apply Hij.
      assert (Hnd : NoDup (grid xs ys zs)).
      { apply NoDup_grid; eapply axis_starts_NoDup; eassumption. }
      rewrite NoDup_nth_error in Hnd. apply Hnd.
      - apply nth_error_Some. congruence.
      - congruence. }
    pose proof (nth_error_In _ _ Hvi) as Hini.
    pose proof (nth_error_In _ _ Hvj) as Hinj.
    apply in_grid in Hini, Hinj.
    destruct Hini as (Hxi & Hyi & Hzi), Hinj as (Hxj & Hyj & Hzj).
    destruct (Z.eq_dec (vx vi) (vx vj)) as [Ex|Nx].
    + destruct (Z.eq_dec (vy vi) (vy vj)) as [Ey|Ny].
      * destruct (Z.eq_dec (vz vi) (vz vj)) as [Ez|Nz].
        -- destruct vi, vj. simpl in *. congruence.
        -- destruct (axis_starts_apart Hzs Hzi Hzj Nz); lia.
      * destruct (axis_starts_apart Hys Hyi Hyj Ny); lia.
    + destruct (axis_starts_apart Hxs Hxi Hxj Nx); lia.
Qed.

(** The loops of a plan end when the output shape is positive on every axis,
    so that every valid request has a plan. *)
Lemma make_total global_shape target input_shape output_shape :
  vall2 Z.leb output_shape input_shape = true ->
  nonempty target = true ->
  nonempty (inter target (whole global_shape)) = true ->
  0 < vx output_shape -> 0 < vy output_shape -> 0 < vz output_shape ->
  exists plan,
    make (enough_fuel target) global_shape target input_shape output_shape
    = Some (Ok plan).
Proof.
  intros Hio Hne Hin Hx Hy Hz. unfold make. rewrite Hio, Hne, Hin. simpl.
  assert (Hfuel : forall d, d <= Z.max (vx (extent target))
                                       (Z.max (vy (extent target))
                                              (vz (extent target))) ->
                            d <= Z.of_nat (enough_fuel target)).
  { intros d Hd. unfold enough_fuel. lia. }
  destruct (@axis_starts_total (vx output_shape) (vx (bend target))
                               (enough_fuel target) (vx (bstart target)) Hx)
    as (xs & ->); [apply Hfuel; simpl; lia|].
  destruct (@axis_starts_total (vy output_shape) (vy (bend target))
                               (enough_fuel target) (vy (bstart target)) Hy)
    as (ys & ->); [apply Hfuel; simpl; lia|].
  destruct (@axis_starts_total (vz output_shape) (vz (bend target))
                               (enough_fuel target) (vz (bstart target)) Hz)
    as (zs & ->); [apply Hfuel; simpl; lia|].
  eexists. reflexivity.
Qed.
End TilePlanFacts.

(** ** The hysteresis flood fill *)

Module PostprocessorFacts.
Import Postprocessor.

Lemma map_seq_nth {A} (l : list A) d :
  map (fun i => nth i l d) (seq 0 (length l)) = l.
Proof.
  induction l as [|x l IH]; simpl; [reflexivity|]. f_equal.
  rewrite <- seq_shift, map_map. exact IH.
Qed.

Lemma length_grow_step nb pass m : length (grow_step nb pass m) = length m.
Proof. unfold grow_step. now rewrite length_map, length_seq. Qed.

Lemma nth_map_seq {A} (f : nat -> A) n i d :
  (i < n)%nat -> nth i (map f (seq 0 n)) d = f i.
Proof.
  intro Hi. rewrite nth_indep with (d' := f 0%nat)
    by now rewrite length_map, length_seq.
  rewrite map_nth. now rewrite seq_nth.
Qed.

Lemma nth_grow_step nb pass m i :
  (i < length m)%nat ->
  nth i (grow_step nb pass m) false
  = nth i m false ||
    (nth i pass false && existsb (fun j => nth j m false) (nb i)).
Proof. intro Hi. unfold grow_step. now rewrite nth_map_seq. Qed.

(** Growth from a set of voxels that are all passable and all reached
    already adds nothing. *)
Lemma grow_step_self nb m : grow_step nb m m = m.
Proof.
  unfold grow_step.
  transitivity (map (fun i => nth i m false) (seq 0 (length m)));
    [|apply map_seq_nth].
  apply map_ext. intro i. apply absorption_orb.
Qed.

Lemma grow_self rounds nb m : grow rounds nb m m = m.
Proof.
  induction rounds as [|rounds IH]; simpl; [reflexivity|].
  now rewrite grow_step_self.
Qed.

(** *** As many rounds as there are voxels are enough *)

Lemma le_mask_count m m' :
  le_mask m m' ->
  (count m <= count m')%nat /\ (count m = count m' -> m = m').
Proof.
  unfold count. induction 1 as [|b b' m m' Hb _ IH]; simpl.
  - split; [lia|reflexivity].
  - destruct IH as [Hle Heq].
    destruct b, b'; simpl; try (specialize (Hb eq_refl); discriminate).
    + split; [lia|]. intro Hc. f_equal. apply Heq. lia.
    + split; [lia|]. intro Hc. lia.
    + split; [lia|]. intro Hc. f_equal. apply Heq. lia.
Qed.

Lemma count_le_length m : (count m <= length m)%nat.
Proof. unfold count. apply filter_length_le. Qed.

Lemma le_mask_grow_step nb pass m : le_mask m (grow_step nb pass m).
Proof.
  unfold le_mask, grow_step.
  assert (Hm : Forall2 (fun b b' => b = true -> b' = true)
                 (map (fun i => nth i m false) (seq 0 (length m)))
                 (map (fun i => nth i m false ||
                        (nth i pass false &&
                         existsb (fun j => nth j m false) (nb i)))
                      (seq 0 (length m)))).
  { generalize (seq 0 (length m)). intro l.
    induction l as [|i l IH]; simpl; constructor; [|exact IH].
    intros ->. reflexivity. }
  now rewrite map_seq_nth in Hm.
Qed.

Lemma grow_stable rounds nb pass m :
  grow_step nb pass m = m -> grow rounds nb pass m = m.
Proof.
  intro Hm. induction rounds as [|rounds IH]; simpl; [reflexivity|].
  now rewrite Hm.
Qed.

(** After [rounds] rounds the growth has come to rest or has reached at
    least [rounds] more voxels. *)
Lemma grow_progress rounds nb pass :
  forall m,
    grow_step nb pass (grow rounds nb pass m) = grow rounds nb pass m \/
    (count m + rounds <= count (grow rounds nb pass m))%nat.
Proof.
  induction rounds as [|rounds IH]; intro m; simpl.
  - right. lia.
  - destruct (le_mask_count (le_mask_grow_step nb pass m)) as [Hle Heq].
    destruct (Nat.eq_dec (count m) (count (grow_step nb pass m))) as [Hc|Hc].
    + left. apply Heq in Hc. rewrite <- Hc.
      rewrite (@grow_stable rounds nb pass m (eq_sym Hc)).
      now symmetry.
    + destruct (IH (grow_step nb pass m)) as [Hfix|Hcount];
        [now left|right; lia].
Qed.

Lemma length_grow rounds nb pass m :
  length (grow rounds nb pass m) = length m.
Proof.
  revert m. induction rounds as [|rounds IH]; intro m; simpl;
    [reflexivity|].
  now rewrite IH, length_grow_step.
Qed.

(** The rounds that [clean_floodFill] grants let the growth come to rest:
    the voxels that it marks are closed under growth. *)
Lemma grow_fixpoint nb pass m :
  grow_step nb pass (grow (length m) nb pass m) = grow (length m) nb pass m.
Proof.
  destruct (grow_progress (length m) nb pass m) as [Hfix|Hcount];
    [exact Hfix|].
  set (g := grow (length m) nb pass m) in *.
  destruct (le_mask_count (le_mask_grow_step nb pass g)) as [Hle Heq].
  symmetry. apply Heq.
  pose proof (count_le_length g) as H1.
  pose proof (count_le_length (grow_step nb pass g)) as H2.
  rewrite length_grow_step in H2.
  unfold g in H1, H2. rewrite length_grow in H1, H2. fold g in H1, H2. lia.
Qed.

(** *** Applying the flood fill twice *)




Section Twice.
Context {V : Type}.
Variable geb : V -> V -> bool.
Variables one nought : V.

End Twice.




(** The bounds from below are needed as well, for volumes with negative
    values: a high threshold of -1 turns the background of the first flood
    fill into seeds of the second, and a low threshold of -1 lets the second
    flood fill grow through the background of the first. *)
Example floodFill_twice_differs_low_high :
  clean_floodFill_Q (one_voxel (-5)) (-1) 1 = Ok (one_voxel 0) /\
  clean_floodFill_Q (one_voxel 0) (-1) 1 = Ok (one_voxel 1).
Proof. split; reflexivity. Qed.

Example floodFill_twice_differs_low_low :
  clean_floodFill_Q (mk_ndarray [1; 1; 3] [1; -5; 1 # 10]%Q) (1 # 2) (-1)
  = Ok (mk_ndarray [1; 1; 3] [1; 0; 0]%Q) /\
  clean_floodFill_Q (mk_ndarray [1; 1; 3] [1; 0; 0]%Q) (1 # 2) (-1)
  = Ok (mk_ndarray [1; 1; 3] [1; 1; 1]%Q).
Proof. split; reflexivity. Qed.

(** The example of the specification: a voxel at 0.99 among neighbours at
    0.5 makes all of them foreground, up to the voxel below 0.2. *)
Example floodFill_spec_example :
  clean_floodFill_Q
    (mk_ndarray [1; 1; 5] [5 # 10; 99 # 100; 5 # 10; 1 # 10; 5 # 10]%Q)
    (98 # 100) (2 # 10)
  = Ok (mk_ndarray [1; 1; 5] [1; 1; 1; 0; 0]%Q).
Proof. reflexivity. Qed.
End PostprocessorFacts.

(** ** The small world *)

Lemma written_tiles_in {V : Type} {w : World V} (t : list (entry w)) tile :
  In tile (written_tiles t) ->
  exists window o, In (C_writeSlice tile window, o) t.
Proof.
  unfold written_tiles. rewrite in_flat_map.
  intros ([c o] & Hin & Htile). simpl in Htile.
  destruct c; try contradiction. destruct Htile as [->|[]].
  now exists window, o.
Qed.

Lemma demo_setup_ok post : setup_ok (demo_args post) demo_env.
Proof. unfold setup_ok. splits; reflexivity. Qed.

(** The run of the small world completes. *)
Lemma demo_run_completes post :
  final_result (demo_world None) (demo_args post) = Ok tt.
Proof. destruct post; reflexivity. Qed.

Lemma demo_run_trace post :
  exists rest,
    final_trace (demo_world None) (demo_args post)
    = setup_trace (demo_args post) demo_env ++ rest /\
    Forall (fun en => is_setup_call (fst en) = false) rest.
Proof.
  destruct (run_split (demo_world None) (demo_args post))
    as [(e & _ & Hres)|(env & rest & Hok & Heq & Hrest)].
  - rewrite demo_run_completes in Hres. discriminate.
  - rewrite (setup_ok_unique Hok (demo_setup_ok post)) in Heq.
    now exists rest.
Qed.


(** Without the flag, the run of the small world completes without any
    post-processing call. *)
Lemma postprocessing_skipped_without_flag :
  with_post_processing (demo_args false) = false /\
  final_result (demo_world None) (demo_args false) = Ok tt /\
  length (calls_of is_postprocess
            (final_trace (demo_world None) (demo_args false))) = 0%nat.
Proof. splits; reflexivity. Qed.

Lemma demo_softmax_value : (exp 0 / (exp 0 + (exp 0 + 0)) = 1 / 2)%R.
Proof. rewrite exp_0. lra. Qed.

(** C6: an exception that a call raises ends the run, is the result of the
    run and was preceded by no persistence write; a run that ends with an
    exception has made no persistence write that returned.  The output
    canvas then holds what the writeSlice calls before the exception left:
    in the small world with a writeSlice that fails on tile 1, the voxel of
    tile 0 is written and the voxel of tile 1 is still zero. *)
Theorem errors_propagate :
  (forall (V : Type) (S : Scalar V) (w : World V) (args : Args V) c e,
      In (c, Raised e) (final_trace w args) ->
      final_result w args = Raise e /\
      exists pre,
        final_trace w args = pre ++ [(c, Raised e)] /\
        Forall returned pre /\
        calls_of is_store pre = []) /\
  (forall (V : Type) (S : Scalar V) (w : World V) (args : Args V) c e,
      final_result w args = Raise e ->
      In (c, Returned) (final_trace w args) ->
      is_store c = false) /\
  (exists (w : World R) (args : Args R) e img,
      final_result w args = Raise e /\
      final_mask w args = Some img /\
      written_tiles (final_trace w args) = [0; 1] /\
      map snd (calls_of is_writeSlice (final_trace w args))
      = [Returned; Raised e] /\
      nth 0 (data img) 0%R = (1 / 2)%R /\
      nth 1 (data img) 0%R = 0%R).
Proof.
  splits.
  - intros V S w args c e. apply raised_ends_run.
  - intros V S w args c e. apply failed_run_not_stored.
  - exists (demo_world (Some 1)), (demo_args false), "IOError"%string.
    eexists. splits; try reflexivity. simpl. apply demo_softmax_value.
Qed.

(** *** The theorems at work *)



Lemma tiles_cover_target_witness :
  exists plan,
    TilePlan.make 150 (TilePlan.mk_vec3 400 400 400) example_target
                  (TilePlan.mk_vec3 220 220 220)
                  (TilePlan.mk_vec3 132 132 132)
    = Some (Ok plan) /\
    length (TilePlan.tiles plan) = 8%nat /\
    (forall p,
        TilePlan.in_box p
          (TilePlan.inter example_target
             (TilePlan.whole (TilePlan.mk_vec3 400 400 400))) <->
        exists t, In t (TilePlan.tiles plan) /\
                  TilePlan.in_box p (TilePlan.valid_output_bbox t)) /\
    (forall i j ti tj,
        nth_error (TilePlan.tiles plan) i = Some ti ->
        nth_error (TilePlan.tiles plan) j = Some tj ->
        i <> j ->
        forall p, ~ (TilePlan.in_box p (TilePlan.valid_output_bbox ti) /\
                     TilePlan.in_box p (TilePlan.valid_output_bbox tj))).
Proof.
  assert (Hplan : exists plan,
             TilePlan.make 150 (TilePlan.mk_vec3 400 400 400) example_target
                           (TilePlan.mk_vec3 220 220 220)
                           (TilePlan.mk_vec3 132 132 132)
             = Some (Ok plan) /\
             length (TilePlan.tiles plan) = 8%nat).
  { vm_compute. eexists. split; reflexivity. }
  destruct Hplan as (plan & Hplan & Hlen).
  exists plan. split; [exact Hplan|]. split; [exact Hlen|].
  exact (@TilePlanFacts.tiles_cover_target _ _ _ _ _ _ Hplan).
Defined.

Lemma outcome_in {V : Type} {w : World V} (p : call w -> bool)
      (t : list (entry w)) o :
  In o (map snd (calls_of p t)) -> exists c, In (c, o) t.
Proof.
  rewrite in_map_iff. intros ([c o'] & Ho & Hin). simpl in Ho. subst o'.
  apply filter_In in Hin. exists c. apply Hin.
Qed.

Lemma demo_tiler_built post :
  In (C_UnetTiler3D (tiler_in (demo_args post) demo_env), Returned)
     (final_trace (demo_world None) (demo_args post)).
Proof.
  destruct (demo_run_trace post) as (rest & Heq & _).
  rewrite Heq. apply in_or_app. left. apply tiler_in_setup_trace.
Qed.


Lemma postprocessing_when_enabled_witness :
  let w := demo_world None in
  let args := demo_args true in
  with_post_processing args = true /\
  final_result w args = Ok tt /\
  exists m m2 m3,
    calls_of is_postprocess (final_trace w args)
    = [(C_clean_floodFill m (high_threshold args) (low_threshold args),
        Returned);
       (C_removeSmallObjects m2 (small_region_probability_threshold args)
                             (small_region_size_threshold args),
        Returned)] /\
    clean_floodFill w m (high_threshold args) (low_threshold args) = Ok m2 /\
    removeSmallObjects w m2 (small_region_probability_threshold args)
                       (small_region_size_threshold args) = Ok m3 /\
    calls_of is_store (final_trace w args)
    = [(C_write_n5_block (output_path args) (output_data_set args)
                         (start_coord args) (end_coord args) m3,
        Returned)] /\
    final_mask w args = Some m3 /\
    (forall tiler o,
        In (C_UnetTiler3D tiler, o) (final_trace w args) ->
        m = replay tiler (final_trace w args) (image (mask tiler))).
Proof.
  intros w args. split; [reflexivity|]. split; [reflexivity|].
  apply (postprocessing_when_enabled w args); reflexivity.
Defined.


Lemma single_persistence_write_witness :
  let w := demo_world None in
  let args := demo_args true in
  final_result w args = Ok tt /\
  exists pre img,
    final_trace w args
    = pre ++ [(C_write_n5_block (output_path args) (output_data_set args)
                                (start_coord args) (end_coord args) img,
               Returned)] /\
    calls_of is_store pre = [] /\
    final_mask w args = Some img /\
    (calls_of is_postprocess pre = [] \/
     exists m0, postprocess_ok args m0 (calls_of is_postprocess pre)
                               (Ok tt) img).
Proof.
  intros w args. split; [reflexivity|].
  apply (single_persistence_write w args). reflexivity.
Defined.

Lemma errors_propagate_witness :
  let w := demo_world (Some 1) in
  let args := demo_args false in
  exists c,
    In (c, Raised "IOError"%string) (final_trace w args) /\
    final_result w args = Raise "IOError"%string /\
    exists pre,
      final_trace w args = pre ++ [(c, Raised "IOError"%string)] /\
      Forall returned pre /\
      calls_of is_store pre = [].
Proof.
  intros w args.
  destruct (outcome_in is_writeSlice (final_trace w args)
                       (Raised "IOError"%string)) as (c & Hin).
  - right. left. reflexivity.
  - exists c. split; [exact Hin|].
    exact (proj1 errors_propagate R R_Scalar w args c _ Hin).
Defined.

Lemma scaling_applied_once_witness :
  let w := demo_world None in
  let args := demo_args true in
  final_result w args = Ok tt /\
  length (calls_of is_scaleImage (final_trace w args)) = 1%nat.
Proof.
  intros w args. split; [reflexivity|].
  apply (scaling_applied_once w args). reflexivity.
Defined.

(** ** The comma-separated options *)

Module OptionsFacts.
Import Ascii Options.

Lemma split_comma_nonempty (s : list ascii) : split_comma s <> [].
Proof.
  destruct s as [|c s]; simpl; [discriminate|].
  destruct (Ascii.eqb c ","); [discriminate|].
  destruct (split_comma s); discriminate.
Qed.

(** The number of commas of a text. *)
Lemma split_comma_length (s : list ascii) :
  length (split_comma s) = S (count_occ ascii_dec s ","%char).
Proof.
  induction s as [|c s IH]; simpl; [reflexivity|].
  destruct (ascii_dec c ",") as [->|Hc].
  - simpl. now rewrite IH.
  - apply Ascii.eqb_neq in Hc. rewrite Hc.
    destruct (split_comma s) eqn:Es; [now apply split_comma_nonempty in Es|].
    simpl in *. exact IH.
Qed.

Lemma split_comma_field (f : list ascii) :
  ~ In ","%char f -> split_comma f = [f].
Proof.
  induction f as [|c f IH]; intro Hf; simpl; [reflexivity|].
  destruct (Ascii.eqb_spec c ",") as [->|Hc]; [exfalso; apply Hf; now left|].
  rewrite IH; [reflexivity|]. intro Hin. apply Hf. now right.
Qed.

Lemma split_comma_app (f rest : list ascii) :
  ~ In ","%char f ->
  split_comma (f ++ ","%char :: rest) = f :: split_comma rest.
Proof.
  induction f as [|c f IH]; intro Hf; simpl; [reflexivity|].
  destruct (Ascii.eqb_spec c ",") as [->|Hc]; [exfalso; apply Hf; now left|].
  rewrite IH; [reflexivity|]. intro Hin. apply Hf. now right.
Qed.

(** Splitting at any comma. *)
Lemma split_comma_any (a b : list ascii) :
  split_comma (a ++ ","%char :: b)
  = split_comma a ++ split_comma b.
Proof.
  induction a as [|c a IH]; simpl.
  - reflexivity.
  - destruct (Ascii.eqb c ","); rewrite IH.
    + reflexivity.
    + destruct (split_comma a) eqn:Ea;
        [now apply split_comma_nonempty in Ea|reflexivity].
Qed.

Lemma py_int_raises (d : list ascii) e : py_int d = Raise e -> e = ValueError.
Proof.
  unfold py_int. destruct (digits_value _ _ _); [discriminate|].
  intro Heq. now injection Heq.
Qed.

Lemma rmapM_py_int_raises (l : list (list ascii)) e :
  rmapM py_int l = Raise e -> e = ValueError.
Proof.
  induction l as [|d l IH]; simpl; [discriminate|].
  destruct (py_int d) eqn:Ed; simpl.
  - destruct (rmapM py_int l); simpl; [discriminate|].
    intro Heq. injection Heq as <-. now apply IH.
  - intro Heq. injection Heq as <-. now apply py_int_raises in Ed.
Qed.

Lemma rmapM_length {A B} (f : A -> result B) (l : list A) l' :
  rmapM f l = Ok l' -> length l' = length l.
Proof.
  revert l'. induction l as [|x l IH]; intros l'; simpl.
  - intro Heq. now injection Heq as <-.
  - destruct (f x); simpl; [|discriminate].
    destruct (rmapM f l); simpl; [|discriminate].
    intro Heq. injection Heq as <-. simpl. f_equal. now apply IH.
Qed.

Lemma rmapM_app {A B} (f : A -> result B) (l1 l2 : list A) :
  rmapM f (l1 ++ l2)
  = rbind (rmapM f l1) (fun a => rbind (rmapM f l2) (fun b => Ok (a ++ b))).
Proof.
  induction l1 as [|x l1 IH]; simpl.
  - destruct (rmapM f l2); reflexivity.
  - destruct (f x); simpl; [|reflexivity]. rewrite IH.
    destruct (rmapM f l1); simpl; [|reflexivity].
    destruct (rmapM f l2); reflexivity.
Qed.

Lemma rmapM_In_raise {A B} (f : A -> result B) (l : list A) x e :
  In x l -> f x = Raise e ->
  (forall y e', f y = Raise e' -> e' = e) ->
  rmapM f l = Raise e.
Proof.
  intros Hin Hx Hall. induction l as [|y l IH]; [destruct Hin|]. simpl.
  destruct (f y) eqn:Ey; simpl.
  - destruct Hin as [->|Hin]; [congruence|]. now rewrite IH.
  - f_equal. eapply Hall, Ey.
Qed.

Lemma list_ascii_of_string_app (s1 s2 : string) :
  list_ascii_of_string (s1 ++ s2)
  = list_ascii_of_string s1 ++ list_ascii_of_string s2.
Proof. induction s1 as [|c s1 IH]; simpl; [reflexivity|now rewrite IH]. Qed.

(** *** Digits *)

Lemma digit_of_digit (d : Z) :
  0 <= d < 10 -> digit_of (ascii_of_nat (48 + Z.to_nat d)) = Some d.
Proof.
  intro Hd.
  assert (Hcases : d = 0 \/ d = 1 \/ d = 2 \/ d = 3 \/ d = 4 \/ d = 5 \/
                   d = 6 \/ d = 7 \/ d = 8 \/ d = 9) by lia.
  repeat destruct Hcases as [->|Hcases]; try subst d; reflexivity.
Qed.

Lemma is_digit_not_space (c : ascii) : is_digit c -> is_space c = false.
Proof.
  intros (d & Hd). unfold digit_of in Hd. unfold is_space.
  destruct ((48 <=? Z.of_nat (nat_of_ascii c)) &&
            (Z.of_nat (nat_of_ascii c) <=? 57)) eqn:E; [|discriminate].
  apply andb_prop in E. destruct E as [E1 E2].
  apply Z.leb_le in E1, E2.
  assert (E3 : (48 <= nat_of_ascii c <= 57)%nat) by lia.
  destruct E3 as [E3 E4].
  repeat match goal with
         | |- context [(?a <=? ?b)%nat] =>
             destruct (Nat.leb_spec a b); try lia
         | |- context [(?a =? ?b)%nat] =>
             destruct (Nat.eqb_spec a b); try lia
         end.
  all: reflexivity.
Qed.

Lemma is_digit_not_char (c x : ascii) :
  is_digit c -> digit_of x = None -> Ascii.eqb c x = false.
Proof.
  intros (d & Hd) Hx. destruct (Ascii.eqb_spec c x) as [->|]; congruence.
Qed.

Lemma dec_digits_digits (fuel : nat) (n : Z) :
  0 <= n -> Forall is_digit (dec_digits fuel n).
Proof.
  revert n. induction fuel as [|fuel IH]; intros n Hn; simpl; [constructor|].
  apply Forall_app. split.
  - destruct (n <? 10); [constructor|]. apply IH. now apply Z.div_pos.
  - repeat constructor. exists (n mod 10). apply digit_of_digit.
    apply Z.mod_pos_bound. lia.
Qed.

Lemma dec_digits_nonempty (fuel : nat) (n : Z) :
  dec_digits (S fuel) n <> [].
Proof. simpl. intro Heq. now apply app_eq_nil in Heq. Qed.

(** Reading back the digits of a number. *)
Lemma digits_value_snoc (s rest : list ascii) (d : Z) acc b :
  0 <= d < 10 ->
  digits_value acc b
    ((s ++ [ascii_of_nat (48 + Z.to_nat d)]) ++ rest)
  = digits_value acc b (s ++ ascii_of_nat (48 + Z.to_nat d) :: rest).
Proof. intros _. now rewrite <- app_assoc. Qed.

Lemma digits_value_digit (rest : list ascii) (d : Z) acc b :
  0 <= d < 10 ->
  digits_value acc b (ascii_of_nat (48 + Z.to_nat d) :: rest)
  = digits_value (10 * acc + d) true rest.
Proof.
  intro Hd. cbn [digits_value]. now rewrite digit_of_digit.
Qed.

Lemma digits_value_dec_digits (fuel : nat) :
  forall n, 0 <= n < 10 ^ Z.of_nat (S fuel) ->
  exists k, 0 <= k /\ forall acc b rest,
    digits_value acc b (dec_digits (S fuel) n ++ rest)
    = digits_value (acc * 10 ^ k + n) true rest.
Proof.
  induction fuel as [|fuel IH]; intros n Hn; cbn [dec_digits];
    destruct (n <? 10) eqn:E10.
  1, 3: apply Z.ltb_lt in E10; exists 1; split; [lia|];
    intros acc b rest; cbn [app];
    rewrite digits_value_digit by (apply Z.mod_pos_bound; lia);
    rewrite Z.mod_small by lia; f_equal; lia.
  - apply Z.ltb_ge in E10. change (Z.of_nat 1) with 1 in Hn. lia.
  - apply Z.ltb_ge in E10.
    destruct (IH (n / 10)) as (k & Hk0 & Hk).
    { split; [apply Z.div_pos; lia|].
      apply Z.div_lt_upper_bound; [lia|].
      replace (Z.of_nat (S (S fuel))) with (Z.of_nat (S fuel) + 1) in Hn
        by lia.
      rewrite Z.pow_add_r in Hn by lia. lia. }
    exists (k + 1). split; [lia|]. intros acc b rest.
    rewrite digits_value_snoc by (apply Z.mod_pos_bound; lia).
    cbn [dec_digits] in Hk. rewrite Hk.
    rewrite digits_value_digit by (apply Z.mod_pos_bound; lia).
    f_equal. rewrite Z.pow_add_r by lia.
    pose proof (Z.div_mod n 10). lia.
Qed.

Lemma log2_fuel (n : Z) :
  0 <= n -> n < 10 ^ Z.of_nat (S (Z.to_nat (Z.log2 n))).
Proof.
  intro Hn.
  destruct (Z.eq_dec n 0) as [->|Hn0]; [reflexivity|].
  pose proof (Z.log2_nonneg n) as Hl.
  replace (Z.of_nat (S (Z.to_nat (Z.log2 n)))) with (Z.succ (Z.log2 n)) by lia.
  destruct (Z.log2_spec n) as [_ Hlt]; [lia|].
  eapply Z.lt_le_trans; [exact Hlt|].
  apply Z.pow_le_mono_l. lia.
Qed.

Lemma lstrip_id (s : list ascii) :
  Forall (fun c => is_space c = false) s -> lstrip s = s.
Proof. destruct 1 as [|c s Hc Hs]; simpl; [reflexivity|now rewrite Hc]. Qed.

Lemma strip_id (s : list ascii) :
  Forall (fun c => is_space c = false) s -> strip s = s.
Proof.
  intro Hs. unfold strip. rewrite (lstrip_id Hs).
  rewrite lstrip_id; [apply rev_involutive|].
  now apply Forall_rev.
Qed.

Lemma py_int_digits (s : list ascii) (n : Z) :
  Forall is_digit s -> digits_value 0 false s = Some n -> py_int s = Ok n.
Proof.
  intros Hs Hn. unfold py_int. rewrite strip_id.
  - destruct s as [|c s]; [discriminate Hn|].
    inversion Hs as [|? ? Hc Hs']; subst.
    rewrite (@is_digit_not_char c "-"%char Hc) by reflexivity.
    rewrite (@is_digit_not_char c "+"%char Hc) by reflexivity.
    cbn [snd fst]. now rewrite Hn.
  - eapply Forall_impl; [|exact Hs]. apply is_digit_not_space.
Qed.

Lemma py_int_minus_digits (s : list ascii) (n : Z) :
  Forall is_digit s -> digits_value 0 false s = Some n ->
  py_int ("-"%char :: s) = Ok (- n).
Proof.
  intros Hs Hn. unfold py_int. rewrite strip_id.
  - simpl. now rewrite Hn.
  - constructor; [reflexivity|].
    eapply Forall_impl; [|exact Hs]. apply is_digit_not_space.
Qed.

Lemma list_ascii_of_str_Z (z : Z) :
  list_ascii_of_string (str_Z z)
  = (if z <? 0 then ["-"%char] else []) ++
    dec_digits (S (Z.to_nat (Z.log2 (Z.abs z)))) (Z.abs z).
Proof.
  unfold str_Z. rewrite list_ascii_of_string_of_list_ascii.
  now destruct (z <? 0).
Qed.

(** [int(str(z))] is [z]. *)
Lemma py_int_str_Z (z : Z) : py_int (list_ascii_of_string (str_Z z)) = Ok z.
Proof.
  rewrite list_ascii_of_str_Z.
  assert (Habs : 0 <= Z.abs z) by lia.
  destruct (@digits_value_dec_digits _ _ (conj Habs (log2_fuel Habs)))
    as (k & _ & Hk).
  pose proof (Hk 0 false []) as Hval. rewrite app_nil_r in Hval.
  cbn [digits_value] in Hval. rewrite Z.mul_0_l, Z.add_0_l in Hval.
  pose proof (dec_digits_digits (S (Z.to_nat (Z.log2 (Z.abs z)))) Habs) as Hd.
  destruct (z <? 0) eqn:Ez.
  - apply Z.ltb_lt in Ez. cbn [app].
    rewrite (py_int_minus_digits Hd Hval). f_equal. lia.
  - apply Z.ltb_ge in Ez. cbn [app].
    rewrite (py_int_digits Hd Hval). f_equal. lia.
Qed.

Lemma str_Z_no_comma (z : Z) :
  ~ In ","%char (list_ascii_of_string (str_Z z)).
Proof.
  rewrite list_ascii_of_str_Z. intro Hin. apply in_app_or in Hin.
  destruct Hin as [Hin|Hin].
  - destruct (z <? 0); [destruct Hin as [Hin|[]]; discriminate|destruct Hin].
  - pose proof (dec_digits_digits (S (Z.to_nat (Z.log2 (Z.abs z))))
                                  (Z.abs_nonneg z)) as Hd.
    rewrite Forall_forall in Hd. apply Hd in Hin.
    destruct Hin as (d & Hd'). discriminate.
Qed.

Lemma parse_coord_join (z : Z) (zs : list Z) :
  parse_coord (join_comma (map str_Z (z :: zs))) = Ok (z :: zs).
Proof.
  unfold parse_coord, join_comma. revert z.
  induction zs as [|z' zs IH]; intro z.
  - change (String.concat ","%string (map str_Z [z])) with (str_Z z).
    rewrite split_comma_field by apply str_Z_no_comma.
    cbn [rmapM]. rewrite py_int_str_Z. reflexivity.
  - change (String.concat ","%string (map str_Z (z :: z' :: zs)))
      with (str_Z z ++
            String ","%char
                   (String.concat ","%string (map str_Z (z' :: zs))))%string.
    rewrite list_ascii_of_string_app. cbn [list_ascii_of_string].
    rewrite split_comma_app by apply str_Z_no_comma.
    cbn [rmapM]. rewrite py_int_str_Z. cbn [rbind]. rewrite IH.
    reflexivity.
Qed.

(** X1: a tuple of at least one integer, each of at most 4300 decimal
    digits, written in decimal with commas between the numbers, is read
    back by lines 125-129 and 137 as that tuple. *)
Theorem parse_coord_round_trip (zs : list Z) :
  zs <> [] ->
  Forall (fun z => Z.abs z < 10 ^ 4300) zs ->
  parse_coord (join_comma (map str_Z zs)) = Ok zs.
Proof.
  intros Hne _. destruct zs as [|z zs]; [contradiction|].
  apply parse_coord_join.
Qed.

(** X2: when the text of a coordinate option is accepted, the tuple has
    one number for each comma of the text and one more, so it is never
    empty; when it is refused, the exception is a ValueError. *)
Theorem parse_coord_fields (text : string) :
  match parse_coord text with
  | Ok zs =>
      length zs
      = S (count_occ ascii_dec (list_ascii_of_string text) ","%char)
  | Raise e => e = ValueError
  end.
Proof.
  unfold parse_coord.
  destruct (rmapM py_int (split_comma (list_ascii_of_string text)))
    as [zs|e] eqn:E.
  - apply rmapM_length in E. now rewrite E, split_comma_length.
  - now apply rmapM_py_int_raises in E.
Qed.

(** X3: a text with an empty field is refused with a ValueError: the empty
    text, a text that ends or begins with a comma, and a text with two
    commas in a row. *)
Theorem parse_coord_empty_field (a b : string) :
  parse_coord EmptyString = Raise ValueError /\
  parse_coord (a ++ ",") = Raise ValueError /\
  parse_coord ("," ++ a) = Raise ValueError /\
  parse_coord (a ++ ",," ++ b) = Raise ValueError.
Proof.
  assert (Hempty : forall l, In [] l -> rmapM py_int l = Raise ValueError).
  { intros l Hin. apply rmapM_In_raise with (x := []);
      [exact Hin|reflexivity|apply py_int_raises]. }
  unfold parse_coord. splits.
  - reflexivity.
  - rewrite list_ascii_of_string_app. cbn [list_ascii_of_string].
    rewrite split_comma_any. apply Hempty, in_or_app. right. now left.
  - cbn [append list_ascii_of_string]. apply Hempty.
    change (split_comma (","%char :: list_ascii_of_string a))
      with ([] :: split_comma (list_ascii_of_string a)).
    now left.
  - rewrite list_ascii_of_string_app. cbn [append list_ascii_of_string].
    rewrite split_comma_any. apply Hempty, in_or_app. right.
    change (split_comma (","%char :: list_ascii_of_string b))
      with ([] :: split_comma (list_ascii_of_string b)).
    now left.
Qed.

Lemma parse_coord_round_trip_witness :
  parse_coord (join_comma (map str_Z [100; -7; 0])) = Ok [100; -7; 0].
Proof.
  apply parse_coord_round_trip; [discriminate|].
  repeat constructor.
Defined.

End OptionsFacts.

(** ** From the texts of the options to the tiling *)

Lemma rmapM_ext {A B} (f g : A -> result B) (l : list A) :
  (forall x, f x = g x) -> rmapM f l = rmapM g l.
Proof.
  intro Hfg. induction l as [|x l IH]; simpl; [reflexivity|].
  now rewrite Hfg, IH.
Qed.

Lemma rmapM_map {A B C} (f : B -> result C) (g : A -> B) (l : list A) :
  rmapM f (map g l) = rmapM (fun x => f (g x)) l.
Proof.
  induction l as [|x l IH]; simpl; [reflexivity|]. now rewrite IH.
Qed.

(** Line 133 for tuples of any lengths: the componentwise difference over
    the length of [end], or an IndexError when [start] is shorter. *)
Lemma subvolume_shape_of_lengths (s e : list Z) :
  subvolume_shape_of s e
  = if (length e <=? length s)%nat
    then Ok (map (fun p => snd p - fst p) (combine s e))
    else Raise IndexError.
Proof.
  unfold subvolume_shape_of. revert s.
  induction e as [|x e IH]; intros s.
  - simpl. now destruct s.
  - cbn [length seq]. rewrite <- seq_shift.
    cbn [rmapM]. rewrite rmapM_map. destruct s as [|y s].
    + reflexivity.
    + cbn [py_index nth_error rbind length combine map fst snd].
      rewrite (rmapM_ext _
                 (fun i => rbind (py_index e i) (fun e0 =>
                           rbind (py_index s i) (fun s0 => Ok (e0 - s0)))))
        by reflexivity.
      rewrite IH. change (S (length e) <=? S (length s))%nat
        with (length e <=? length s)%nat.
      now destruct (length e <=? length s)%nat.
Qed.

Section MainFromTextsFacts.
Context {V : Type} `{Scalar V}.
Variable w : World V.

(** The set-up is the GPU fix, line 133 and lines 139-198. *)
Lemma setup_split (args : Args V) :
  setup (w:=w) args =
  bind (if set_gpu_mem_growth args
        then invoke C_gpu_fix (gpu_fix w)
        else ret tt)
       (fun _ =>
          bind (lift (subvolume_shape_of (start_coord args) (end_coord args)))
               (fun sh => setup_from_139 args sh)).
Proof. reflexivity. Qed.



(** X6: when [end] has more numbers than [start], line 133 raises an
    IndexError before the tiling is built: no call is made except, with
    set_gpu_mem_growth, the GPU fix, and no output array is allocated.
    Otherwise line 133 computes [end[i] - start[i]] for the numbers of
    [end], and what [start] has beyond them is left out. *)
Theorem end_longer_than_start (args : Args V) :
  ((length (start_coord args) < length (end_coord args))%nat ->
   final_result w args <> Ok tt /\
   Forall (fun en => fst en = C_gpu_fix) (final_trace w args) /\
   final_mask w args = None /\
   ((set_gpu_mem_growth args = true -> gpu_fix w = Ok tt) ->
    final_result w args = Raise IndexError)) /\
  ((length (end_coord args) <= length (start_coord args))%nat ->
   subvolume_shape_of (start_coord args) (end_coord args)
   = Ok (map (fun p => snd p - fst p)
             (combine (start_coord args) (end_coord args)))).
Proof.
  split; intro Hlen.
  - unfold final_result, final_trace, final_mask, run, main.
    rewrite setup_split. unfold bind, lift, invoke, ret.
    rewrite subvolume_shape_of_lengths.
    destruct (Nat.leb_spec (length (end_coord args))
                           (length (start_coord args))) as [Hle|_];
      [lia|].
    destruct (set_gpu_mem_growth args);
      [destruct (gpu_fix w) as [[]|e0]|]; simpl;
      (splits; [discriminate|repeat constructor|reflexivity|]);
      intro Hgpu; try reflexivity.
    specialize (Hgpu eq_refl). discriminate.
  - rewrite subvolume_shape_of_lengths.
    destruct (Nat.leb_spec (length (end_coord args))
                           (length (start_coord args))) as [_|Hlt];
      [reflexivity|lia].
Qed.
End MainFromTextsFacts.

(** ** The GPU fix *)

Module GpuFixFacts.
Import GpuFix.
Section Facts.
Context {Runtime Physical Logical : Type}.
Variable tf : TF Runtime Physical Logical.

(** The loop of lines 25-26 calls [set_memory_growth] on the devices in
    order until one call raises. *)
Lemma set_growth_of_each_run (gpus : list Physical) :
  forall s s' r,
    set_growth_of_each tf gpus s = (s', r) ->
    exists k,
      (k <= length gpus)%nat /\
      (r = Ok tt ->
       calls s' = calls s ++
                  map (fun g => (T_set_memory_growth g true, Returned)) gpus) /\
      (forall e, r = Raise e ->
         exists g, nth_error gpus k = Some g /\
           calls s' = calls s ++
                      map (fun g => (T_set_memory_growth g true, Returned))
                          (firstn k gpus) ++
                      [(T_set_memory_growth g true, Raised e)]).
Proof.
  induction gpus as [|g gpus IH]; intros s s' r Hrun.
  - injection Hrun as <- <-. exists 0%nat. splits.
    + reflexivity.
    + intros _. simpl. now rewrite app_nil_r.
    + discriminate.
  - cbn [set_growth_of_each] in Hrun. unfold tbind, tcall in Hrun.
    destruct (set_memory_growth tf g true (runtime s)) as [rt [[]|e]].
    + apply IH in Hrun. destruct Hrun as (k & Hk & Hok & Hraise).
      exists (S k). cbn [calls] in *. splits.
      * simpl. lia.
      * intro Hr. rewrite (Hok Hr), <- app_assoc. reflexivity.
      * intros e Hr. destruct (Hraise e Hr) as (g' & Hg' & Hcalls).
        exists g'. split; [exact Hg'|].
        rewrite Hcalls, <- app_assoc. reflexivity.
    + injection Hrun as <- <-. exists 0%nat. cbn [calls]. splits.
      * simpl. lia.
      * discriminate.
      * intros e' He'. injection He' as <-. exists g. now split.
Qed.

Lemma firstn_succ_nth {A} (l : list A) (k : nat) (x : A) :
  nth_error l k = Some x -> firstn (S k) l = firstn k l ++ [x].
Proof.
  revert l. induction k as [|k IH]; intros [|y l] Hk; try discriminate.
  - injection Hk as ->. reflexivity.
  - cbn [nth_error] in Hk. rewrite firstn_cons, (IH _ Hk). reflexivity.
Qed.

Lemma growth_calls_app (t1 t2 : list (tf_call Physical * outcome)) :
  growth_calls (t1 ++ t2) = growth_calls t1 ++ growth_calls t2.
Proof. unfold growth_calls. apply flat_map_app. Qed.

Lemma growth_calls_set (gpus : list Physical) (o : outcome) :
  growth_calls (map (fun g => (T_set_memory_growth g true, o)) gpus)
  = map (fun g => (g, true)) gpus.
Proof.
  induction gpus as [|g gpus IH]; simpl; [reflexivity|]. now rewrite IH.
Qed.


(** X8: when [_gpu_fix] ends with an exception, the exception is that of
    its last call and every call before it returned; set_memory_growth was
    called, with True, on an initial segment of the listed GPUs, so no
    device after the one that failed was touched, and nothing was
    printed. *)
Theorem gpu_fix_stops_at_first_failure (s s' : tf_state Runtime Physical) e :
  _gpu_fix tf s = (s', Raise e) ->
  exists pre c,
    calls s' = calls s ++ pre ++ [(c, Raised e)] /\
    Forall (fun en => snd en = Returned) pre /\
    Forall (fun en => forall p l, fst en <> T_print p l)
           (pre ++ [(c, Raised e)]) /\
    forall gpus,
      snd (list_physical_devices tf "GPU"%string (runtime s)) = Ok gpus ->
      exists k,
        growth_calls (pre ++ [(c, Raised e)])
        = map (fun g => (g, true)) (firstn k gpus).
Proof.
  unfold _gpu_fix, tbind. unfold tcall at 1.
  destruct (list_physical_devices tf "GPU"%string (runtime s))
    as [rt [gpus|e0]] eqn:Elist.
  2: { intro Hrun. injection Hrun as <- <-.
       exists [], (T_list_physical_devices "GPU"%string). cbn [calls].
       splits; [reflexivity|constructor|repeat constructor; discriminate|].
       discriminate. }
  destruct gpus as [|g gpus]; [discriminate|].
  destruct (set_growth_of_each tf (g :: gpus) _) as [s1 [[]|e1]] eqn:Eeach;
    apply set_growth_of_each_run in Eeach;
    destruct Eeach as (k & Hk & Hok & Hraise); cbn [calls] in Hok, Hraise.
  - specialize (Hok eq_refl). unfold tcall.
    destruct (list_logical_devices tf "GPU"%string (runtime s1))
      as [rt2 [logical|e2]]; [discriminate|].
    intro Hrun. injection Hrun as <- <-. cbn [calls].
    exists ((T_list_physical_devices "GPU"%string, Returned) ::
            map (fun g => (T_set_memory_growth g true, Returned))
                (g :: gpus)),
           (T_list_logical_devices "GPU"%string).
    splits.
    + rewrite Hok, <- !app_assoc. reflexivity.
    + constructor; [reflexivity|]. apply Forall_forall.
      intros en Hin. apply in_map_iff in Hin.
      now destruct Hin as (g' & <- & _).
    + apply Forall_app. split; [|repeat constructor; discriminate].
      constructor; [discriminate|]. apply Forall_forall.
      intros en Hin. apply in_map_iff in Hin.
      destruct Hin as (g' & <- & _). discriminate.
    + intros gpus' Hgpus. injection Hgpus as <-.
      exists (length (g :: gpus)). rewrite firstn_all.
      change ((?x :: ?l) ++ ?l') with ([x] ++ l ++ l').
      rewrite !growth_calls_app, growth_calls_set. cbn [growth_calls flat_map fst app].
      now rewrite app_nil_r.
  - intro Hrun. injection Hrun as <- <-.
    destruct (Hraise e1 eq_refl) as (g' & Hg' & Hcalls).
    exists ((T_list_physical_devices "GPU"%string, Returned) ::
            map (fun g => (T_set_memory_growth g true, Returned))
                (firstn k (g :: gpus))),
           (T_set_memory_growth g' true).
    splits.
    + rewrite Hcalls, <- !app_assoc. reflexivity.
    + constructor; [reflexivity|]. apply Forall_forall.
      intros en Hin. apply in_map_iff in Hin.
      now destruct Hin as (g'' & <- & _).
    + apply Forall_app. split; [|repeat constructor; discriminate].
      constructor; [discriminate|]. apply Forall_forall.
      intros en Hin. apply in_map_iff in Hin.
      destruct Hin as (g'' & <- & _). discriminate.
    + intros gpus' Hgpus. injection Hgpus as <-.
      exists (S k).
      change ((?x :: ?l) ++ ?l') with ([x] ++ l ++ l').
      rewrite !growth_calls_app, growth_calls_set.
      cbn [growth_calls flat_map fst app].
      rewrite (@firstn_succ_nth _ _ _ _ Hg'), map_app. reflexivity.
Qed.
End Facts.
End GpuFixFacts.

(** ** The shape of the prediction loop *)

Section LoopShapeFacts.
Context {V : Type} `{Scalar V}.
Variable w : World V.

Lemma writes_succ tile (batch : ndarray V) k :
  writes w tile batch (S k)
  = writes w tile batch k ++
    [(C_writeSlice (tile + Z.of_nat k) (item batch k), Returned)].
Proof. unfold writes. now rewrite seq_S, map_app. Qed.

(** The calls of lines 236-238. *)
Lemma write_tiles_shape (tiler : UnetTiler3D V (Tiling w)) batch n :
  forall i tile (s s' : state w) r m,
    mask_image s = Some m ->
    write_tiles tiler batch n i tile s = (s', r) ->
    (exists m', mask_image s' = Some m') /\
    ((r = Ok (tile + Z.of_nat n) /\
      trace s' = trace s ++
                 map (fun j => (C_writeSlice (tile + Z.of_nat j)
                                             (item batch (i + j)), Returned))
                     (seq 0 n)) \/
     (exists k e,
         (k < n)%nat /\ r = Raise e /\
         trace s' = trace s ++
                    map (fun j => (C_writeSlice (tile + Z.of_nat j)
                                                (item batch (i + j)),
                                   Returned))
                        (seq 0 k) ++
                    [(C_writeSlice (tile + Z.of_nat k) (item batch (i + k)),
                      Raised e)])).
Proof.
  induction n as [|n IH]; intros i tile s s' r m Hm Hrun.
  - injection Hrun as <- <-. split; [now exists m|]. left.
    split; [f_equal; lia|]. simpl. now rewrite app_nil_r.
  - cbn [write_tiles] in Hrun.
    unfold bind, get_mask, invoke, set_mask, log in Hrun.
    rewrite Hm in Hrun.
    destruct (writeSlice w tiler m tile (item batch i)) as [new|e] eqn:Ew.
    + cbn [outcome_of trace mask_image] in Hrun.
      apply IH with (m := new) in Hrun; [|reflexivity].
      destruct Hrun as [Hmask Hrun]. split; [exact Hmask|].
      cbn [trace] in Hrun.
      assert (Hshift : forall k,
                 map (fun j => (C_writeSlice (w:=w) (tile + Z.of_nat j)
                                             (item batch (i + j)), Returned))
                     (seq 0 (S k))
                 = (C_writeSlice tile (item batch i), Returned) ::
                   map (fun j => (C_writeSlice (tile + 1 + Z.of_nat j)
                                               (item batch (S i + j)),
                                  Returned))
                       (seq 0 k)).
      { intro k. cbn [seq map]. f_equal.
        - replace (tile + Z.of_nat 0) with tile by lia.
          now rewrite Nat.add_0_r.
        - rewrite <- seq_shift, map_map. apply map_ext. intro j.
          replace (tile + Z.of_nat (S j)) with (tile + 1 + Z.of_nat j)
            by lia.
          now rewrite Nat.add_succ_r. }
      destruct Hrun as [[-> Ht]|(k & e & Hk & -> & Ht)].
      * left. split; [f_equal; lia|].
        rewrite Ht, <- app_assoc, Hshift. reflexivity.
      * right. exists (S k), e. splits; [lia|reflexivity|].
        rewrite Ht, <- !app_assoc, Hshift. cbn [app].
        replace (tile + Z.of_nat (S k)) with (tile + 1 + Z.of_nat k) by lia.
        now rewrite Nat.add_succ_r.
    + injection Hrun as <- <-. split; [now exists m|].
      right. exists 0%nat, e. splits; [lia|reflexivity|].
      cbn [trace outcome_of seq map app].
      replace (tile + Z.of_nat 0) with tile by lia.
      now rewrite Nat.add_0_r.
Qed.

(** Every run of the loop has the shape of [loop_shape]. *)
Lemma predict_loop_shape (args : Args V) (tiler : UnetTiler3D V (Tiling w))
      (unet : Model w) :
  forall ds tile (s s' : state w) r m,
    mask_image s = Some m ->
    predict_loop args tiler unet ds tile s = (s', r) ->
    exists t, trace s' = trace s ++ t /\
              loop_shape args tiler unet ds tile t r.
Proof.
  induction ds as [|d ds IH]; intros tile s s' r m Hm Hrun;
    cbn [predict_loop] in Hrun;
    destruct (tile <? tiler_len w tiler) eqn:Etile.
  2, 4: injection Hrun as <- <-; exists []; rewrite app_nil_r;
    (split; [reflexivity|]); apply Loop_end; now apply Z.ltb_ge in Etile.
  - apply Z.ltb_lt in Etile. injection Hrun as <- <-.
    eexists. split; [reflexivity|]. now apply Loop_exhausted.
  - apply Z.ltb_lt in Etile.
    unfold bind, invoke, lift, log in Hrun.
    destruct d as [inp|e]; cbn [outcome_of trace mask_image] in Hrun.
    2: { injection Hrun as <- <-. eexists. split; [reflexivity|].
         now apply Loop_next_raised. }
    destruct (predict w unet inp) as [out|e] eqn:Eout;
      cbn [outcome_of trace mask_image] in Hrun.
    2: { injection Hrun as <- <-. cbn [trace]. rewrite <- app_assoc.
         eexists. split; [reflexivity|]. now apply Loop_predict_raised. }
    destruct (reduce_channels args out) as [red|e] eqn:Ered.
    2: { injection Hrun as <- <-. cbn [trace]. rewrite <- app_assoc.
         eexists. split; [reflexivity|].
         eapply Loop_reduce_raised; [assumption|eassumption|].
         now rewrite Ered. }
    destruct (shape0 red) as [n|e] eqn:En.
    2: { injection Hrun as <- <-. cbn [trace]. rewrite <- app_assoc.
         eexists. split; [reflexivity|].
         eapply Loop_reduce_raised; [assumption|eassumption|].
         now rewrite Ered. }
    match type of Hrun with
    | context [write_tiles ?a ?b ?c ?d ?e ?st] =>
        destruct (write_tiles a b c d e st) as [s1 r1] eqn:Ewt
    end.
    apply write_tiles_shape with (m := m) in Ewt; [|exact Hm].
    destruct Ewt as [(m1 & Hm1) Ewt]. cbn [trace] in Ewt.
    destruct Ewt as [[-> Ht1]|(k & e & Hk & -> & Ht1)].
    + apply IH with (m := m1) in Hrun; [|exact Hm1].
      destruct Hrun as (t2 & Ht2 & Hshape).
      eexists. split; [|eapply Loop_step; eassumption].
      rewrite Ht2, Ht1, <- !app_assoc. reflexivity.
    + injection Hrun as <- <-.
      eexists. split; [|eapply Loop_write_raised; eassumption].
      rewrite Ht1, <- !app_assoc. reflexivity.
Qed.
End LoopShapeFacts.

(** ** The phases of a run, in detail *)

Ltac run_cases H :=
  repeat (simpl in H;
          match type of H with
          | context [match ?x with _ => _ end] => destruct x eqn:?
          end).

Ltac solve_ordered :=
  unfold in_program_order;
  repeat (constructor;
          [repeat (constructor; [unfold precedes; simpl; lia|])|]);
  try constructor.

Section RunDetailFacts.
Context {V : Type} `{Scalar V}.
Variable w : World V.

Lemma in_program_order_app (t1 t2 : list (entry w)) :
  in_program_order t1 -> in_program_order t2 ->
  (forall x y, In x t1 -> In y t2 -> precedes (fst x) (fst y)) ->
  in_program_order (t1 ++ t2).
Proof.
  unfold in_program_order. intros H1 H2 H12.
  induction t1 as [|x t1 IH]; simpl; [exact H2|].
  inversion H1 as [|? ? Hx Hs]; subst. constructor.
  - apply Forall_app. split; [exact Hx|].
    apply Forall_forall. intros y Hy. apply H12; [now left|exact Hy].
  - apply IH; [exact Hs|]. intros a b Ha Hb. apply H12; [now right|exact Hb].
Qed.

(** The calls of the set-up are in the order of the text, however it
    ends. *)
Lemma setup_ordered (args : Args V) (s s' : state w) r :
  setup args s = (s', r) ->
  exists t, trace s' = trace s ++ t /\ in_program_order t /\
            Forall (fun en => is_setup_call (fst en) = true) t.
Proof.
  intro Hs.
  unfold setup, bind, invoke, lift, ret, set_mask, log in Hs.
  destruct (set_gpu_mem_growth args), (scaling args).
  all: run_cases Hs; inversion Hs; subst; clear Hs; simpl.
  all: eexists; split;
    [repeat rewrite <- app_assoc; simpl; try reflexivity;
     try (symmetry; apply app_nil_r)|].
  all: split; [solve_ordered|repeat constructor].
Qed.

Lemma segment_detail_run (args : Args V) (env : Env w) (s s' : state w) r :
  mask_image s = Some (e_output_image env) ->
  segment args (tiler_in args env) (e_unet env) s = (s', r) ->
  exists t, trace s' = trace s ++ t /\ segment_detail args env t r.
Proof.
  intros Hm Hrun. unfold segment, bind, lift, predictionset in Hrun.
  unfold segment_detail, dataset_of.
  destruct (unet_batch_size args <=? 0) eqn:Eb.
  - injection Hrun as <- <-. exists []. now rewrite app_nil_r.
  - eapply predict_loop_shape; eassumption.
Qed.

(** Every run ends within the set-up, or consists of a complete set-up,
    the prediction loop and what follows it. *)
Lemma run_detail (args : Args V) :
  (exists e,
      final_result w args = Raise e /\ final_mask w args = None /\
      setup_failed args (final_trace w args) e /\
      in_program_order (final_trace w args) /\
      setup args init = (fst (run w args), Raise e)) \/
  (exists env t2 r2 m2 rest,
      setup_ok args env /\
      final_trace w args = setup_trace args env ++ t2 ++ rest /\
      segment_ok args env t2 r2 m2 /\
      segment_detail args env t2 r2 /\
      tail_detail args m2 r2 rest (final_result w args) (final_mask w args)).
Proof.
  unfold final_trace, final_result, final_mask.
  destruct (run w args) as [st r] eqn:Erun. simpl.
  unfold run, main in Erun.
  apply bind_run in Erun.
  destruct Erun as [(s1 & [tiler unet] & Esetup & Erun)|(e & Esetup & ->)].
  2: { left. exists e.
       destruct (@setup_ordered _ _ _ _ Esetup) as (t' & Ht' & Hord & _).
       pose proof Esetup as Esetup'.
       apply setup_run in Esetup. simpl in Esetup.
       destruct Esetup as (t & Ht & Hfail & Hmask). simpl in Ht, Ht', Hmask.
       subst t'. rewrite Ht, Hmask. splits; auto. now rewrite <- Ht. }
  apply setup_run in Esetup. simpl in Esetup.
  destruct Esetup as (env & Hok & -> & -> & Ht1 & Hm1). simpl in Ht1.
  right. exists env.
  apply bind_run in Erun.
  destruct Erun as [(s2 & [] & Eseg & Erun)|(e & Eseg & ->)];
    destruct (@segment_detail_run _ _ _ _ _ Hm1 Eseg) as (t2' & Ht2' & Hdet);
    apply segment_run in Eseg; try assumption;
    destruct Eseg as (t2 & m2 & Ht2 & Hm2 & Hseg);
    (assert (t2' = t2) by
        (rewrite Ht2 in Ht2'; now apply app_inv_head in Ht2'));
    subst t2'.
  2: { exists t2, (Raise e), m2, []. rewrite app_nil_r, Ht2, Ht1, Hm2.
       splits; auto. simpl. auto. }
  exists t2, (Ok tt), m2.
  apply bind_run in Erun.
  destruct Erun as [(s3 & [] & Epost & Erun)|(e & Epost & ->)];
    apply postprocess_run with (m := m2) in Epost; try assumption;
    destruct Epost as (t3 & m3 & Ht3 & Hm3 & Hpost).
  2: { exists t3. rewrite Ht3, Ht2, Ht1, Hm3, <- app_assoc.
       splits; auto. simpl. exists t3, (Raise e), m3. auto. }
  apply store_run with (m := m3) in Erun; [|assumption].
  destruct Erun as (Ht4 & Hm4 & ->).
  exists (t3 ++ [store_entry w args m3]).
  rewrite Ht4, Ht3, Ht2, Ht1, Hm4, <- !app_assoc.
  splits; auto. simpl. exists t3, (Ok tt), m3. auto.
Qed.
End RunDetailFacts.

(** ** Order and edge cases of a run *)

Section RunOrder.
Context {V : Type} `{Scalar V}.
Variable w : World V.

Lemma phase_setup (c : call w) : is_setup_call c = true -> (phase c <= 7)%nat.
Proof. destruct c; simpl; intro; try discriminate; lia. Qed.

Lemma phase_segment (c : call w) : is_segment_call c = true -> phase c = 8%nat.
Proof. destruct c; simpl; intro; try discriminate; reflexivity. Qed.

Lemma setup_trace_ordered (args : Args V) (env : Env w) :
  in_program_order (setup_trace args env).
Proof.
  unfold setup_trace, gpu_entries, calc_entries.
  destruct (set_gpu_mem_growth args), (scaling args); simpl; solve_ordered.
Qed.

Lemma loop_calls_ordered (t : list (entry w)) :
  Forall (fun en => is_segment_call (fst en) = true) t ->
  in_program_order t.
Proof.
  unfold in_program_order. induction 1 as [|x t Hx Ht IH]; constructor.
  - eapply Forall_impl; [|exact Ht]. intros y Hy. right.
    apply phase_segment in Hx, Hy. rewrite Hx, Hy. auto.
  - exact IH.
Qed.

(** What follows the loop: the post-processing calls and the persistence
    write. *)
Lemma tail_detail_rest (args : Args V) m2 r2 (rest : list (entry w)) r mask :
  tail_detail args m2 r2 rest r mask ->
  in_program_order rest /\
  Forall (fun en => (9 <= phase (fst en))%nat /\
                    is_segment_call (fst en) = false /\
                    is_setup_call (fst en) = false) rest.
Proof.
  unfold tail_detail. destruct r2 as [[]|e].
  - intros (t3 & r3 & m3 & Hpost & _ & H3).
    destruct r3 as [[]|e]; destruct H3 as [-> _];
      inversion Hpost; subst; simpl;
      (split; [solve_ordered|repeat constructor; simpl; lia]).
  - intros (-> & _). split; constructor.
Qed.

Lemma run_detail_built (args : Args V) tiler o :
  In (C_UnetTiler3D tiler, o) (final_trace w args) ->
  exists env t2 r2 m2 rest,
    tiler = tiler_in args env /\ o = Returned /\
    setup_ok args env /\
    final_trace w args = setup_trace args env ++ t2 ++ rest /\
    segment_ok args env t2 r2 m2 /\
    segment_detail args env t2 r2 /\
    tail_detail args m2 r2 rest (final_result w args) (final_mask w args).
Proof.
  intro Hin.
  destruct (tiler_in_run _ _ _ _ Hin) as (env' & rest' & Hok' & _ & _ & -> & ->).
  destruct (run_detail w args)
    as [(e & _ & _ & Hfail & _ & _)
       |(env & t2 & r2 & m2 & rest & Hok & Ht & Hseg & Hdet & Htail)].
  - destruct Hfail as (Hk & _). rewrite Forall_forall in Hk.
    apply Hk in Hin. simpl in Hin. destruct Hin. discriminate.
  - rewrite (setup_ok_unique Hok' Hok).
    exists env, t2, r2, m2, rest. splits; auto.
Qed.

(** X9: the calls of a run follow the text of [main]: the GPU fix, the
    tiling, the bulk read, the scaling factor, the scaling, the model load,
    the canvases, the tile stream, the calls of the loop, the flood fill,
    the small-object removal, the persistence write.  A call never comes
    after one of a later place, and only the canvas constructor and the
    calls of the loop are made more than once. *)
Theorem calls_in_program_order (args : Args V) :
  in_program_order (final_trace w args).
Proof.
  destruct (run_detail w args)
    as [(e & _ & _ & _ & Hord & _)
       |(env & t2 & r2 & m2 & rest & Hok & Ht & Hseg & _ & Htail)];
    [exact Hord|].
  rewrite Ht. destruct Hseg as (Hk2 & _).
  apply tail_detail_rest in Htail. destruct Htail as [Hord3 Hk3].
  pose proof (setup_trace_kind args env) as Hk1.
  rewrite Forall_forall in Hk1, Hk2, Hk3.
  apply in_program_order_app.
  - apply setup_trace_ordered.
  - apply in_program_order_app.
    + apply loop_calls_ordered, Forall_forall. exact Hk2.
    + exact Hord3.
    + intros x y Hx Hy. left.
      apply Hk2, phase_segment in Hx. apply Hk3 in Hy. lia.
  - intros x y Hx Hy. left. apply Hk1, phase_setup in Hx.
    apply in_app_or in Hy. destruct Hy as [Hy|Hy].
    + apply Hk2, phase_segment in Hy. lia.
    + apply Hk3 in Hy. lia.
Qed.
End RunOrder.

(** ** Edge cases of a run *)

Section RunEdges.
Context {V : Type} `{Scalar V}.
Variable w : World V.

Lemma nth_error_combine_map (s e : list Z) i x y :
  nth_error s i = Some x -> nth_error e i = Some y ->
  nth_error (map (fun p => snd p - fst p) (combine s e)) i = Some (y - x).
Proof.
  revert s e. induction i as [|i IH]; intros [|a s] [|b e] Hs He;
    try discriminate; simpl in *.
  - injection Hs as ->. injection He as ->. reflexivity.
  - now apply IH.
Qed.

(** X10: when the box is reversed on some axis, [end[i] < start[i]], the
    run ends with an exception before the tile stream is built: the model
    is never called, no tile is written and nothing is stored. *)
Theorem reversed_box_never_predicts (args : Args V) i s e :
  nth_error (start_coord args) i = Some s ->
  nth_error (end_coord args) i = Some e ->
  e < s ->
  final_result w args <> Ok tt /\
  final_mask w args = None /\
  Forall (fun en => is_setup_call (fst en) = true /\
                    is_tiler (fst en) = false) (final_trace w args).
Proof.
  intros Hs He Hlt.
  destruct (run_detail w args)
    as [(e0 & Hres & Hmask & Hfail & _ & _)
       |(env & t2 & r2 & m2 & rest & Hok & _)].
  - rewrite Hres, Hmask. splits; [discriminate|reflexivity|].
    now destruct Hfail as (Hk & _).
  - exfalso. destruct Hok as (_ & Hsh & _ & _ & _ & _ & _ & _ & Hz).
    apply np_zeros_Ok in Hz. destruct Hz as [_ Hpos].
    rewrite subvolume_shape_of_lengths in Hsh.
    destruct (length (end_coord args) <=? length (start_coord args))%nat;
      [|discriminate].
    injection Hsh as Hsh. rewrite <- Hsh in Hpos.
    rewrite Forall_forall in Hpos.
    pose proof (nth_error_combine_map _ _ _ Hs He) as Hnth.
    apply nth_error_In, Hpos in Hnth. lia.
Qed.

End RunEdges.

(** ** What the options of the post-processing do *)

Section Thresholds.
Context {V : Type} `{Scalar V}.
Variable w : World V.

(** The loop reads nothing of the options but as_binary_mask. *)
Lemma predict_loop_ext (args args' : Args V) tiler (unet : Model w) :
  as_binary_mask args' = as_binary_mask args ->
  forall ds tile s,
    predict_loop args' tiler unet ds tile s
    = predict_loop args tiler unet ds tile s.
Proof.
  intro Hbin.
  assert (Hred : forall out, reduce_channels args' out
                             = reduce_channels args out).
  { intro out. unfold reduce_channels. now rewrite Hbin. }
  induction ds as [|d ds IH]; intros tile s; cbn [predict_loop];
    [reflexivity|].
  destruct (tile <? tiler_len w tiler); [|reflexivity].
  unfold bind.
  destruct (invoke C_next d s) as [s1 [inp|e]]; [|reflexivity].
  destruct (invoke (C_predict inp) (predict w unet inp) s1)
    as [s2 [out|e]]; [|reflexivity].
  rewrite Hred.
  destruct (lift (reduce_channels args out) s2) as [s3 [red|e]];
    [|reflexivity].
  destruct (lift (shape0 red) s3) as [s4 [n|e]]; [|reflexivity].
  destruct (write_tiles tiler red (Z.to_nat n) 0 tile s4) as [s5 [tile'|e]];
    [|reflexivity].
  apply IH.
Qed.

(** X12: without with_post_processing, the four options of the
    post-processing have no effect: whatever their values, the run makes
    the same calls with the same outcomes, has the same result and leaves
    the same output canvas. *)
Theorem thresholds_unused_without_post_processing (args : Args V)
        (high low probability : V) (size : Z) :
  with_post_processing args = false ->
  run w (with_thresholds args high low probability size) = run w args.
Proof.
  intro Hflag. unfold run, main.
  set (args' := with_thresholds args high low probability size).
  assert (Hsetup : setup (w:=w) args' = setup args) by reflexivity.
  assert (Hseg : forall tiler unet s,
             segment (w:=w) args' tiler unet s = segment args tiler unet s).
  { intros tiler unet s. unfold segment, bind.
    change (model_input_shape args') with (model_input_shape args).
    change (unet_batch_size args') with (unet_batch_size args).
    destruct (lift _ s) as [s1 [ds|e]]; [|reflexivity].
    now apply predict_loop_ext. }
  assert (Hpost : postprocess (w:=w) args' = postprocess args).
  { unfold postprocess, args'. cbn [with_thresholds with_post_processing].
    now rewrite Hflag. }
  assert (Hstore : store (w:=w) args' = store args) by reflexivity.
  unfold bind. rewrite Hsetup.
  destruct (setup args init) as [s1 [[tiler unet]|e]]; [|reflexivity].
  rewrite Hseg, Hpost, Hstore. reflexivity.
Qed.

(** X13: without with_post_processing, the output canvas of a run that
    has built the tile stream holds, at the end, the array of zeros that
    line 193 made with the writeSlice calls that returned applied to it in
    call order, and this is the array that the persistence write, if the
    run gets there, is given. *)
Theorem stored_canvas_is_stitched (args : Args V) tiler o :
  with_post_processing args = false ->
  In (C_UnetTiler3D tiler, o) (final_trace w args) ->
  exists sh zeros,
    subvolume_shape_of (start_coord args) (end_coord args) = Ok sh /\
    np_zeros sh = Ok zeros /\
    final_mask w args = Some (replay tiler (final_trace w args) zeros) /\
    (forall path dataset start end_ img o',
        In (C_write_n5_block path dataset start end_ img, o')
           (final_trace w args) ->
        img = replay tiler (final_trace w args) zeros).
Proof.
  intros Hflag Hin.
  destruct (run_detail_built _ _ _ _ Hin)
    as (env & t2 & r2 & m2 & rest & -> & -> & Hok & Ht & Hseg & _ & Htail).
  pose proof Hok as (_ & Hsh & _ & _ & _ & _ & _ & _ & Hz).
  exists (e_subvolume_shape env), (e_output_image env).
  split; [exact Hsh|]. split; [exact Hz|].
  assert (Hreplay : replay (tiler_in args env) (final_trace w args)
                           (e_output_image env) = m2).
  { rewrite Ht, !replay_app.
    rewrite replay_none with (t := setup_trace args env).
    - destruct Hseg as (_ & _ & <- & _).
      apply tail_detail_rest in Htail. destruct Htail as [_ Hk].
      apply replay_none. eapply Forall_impl; [|exact Hk].
      intros [c o]. simpl. intros (_ & Hc & _).
      destruct c; simpl in *; congruence.
    - generalize (setup_trace_kind args env). apply Forall_kind. by_kind. }
  rewrite Hreplay.
  assert (Htail' :
            final_mask w args = Some m2 /\
            (rest = [] \/ rest = [store_entry w args m2])).
  { unfold tail_detail in Htail. destruct r2 as [[]|e].
    - destruct Htail as (t3 & r3 & m3 & Hpost & Hmask & H3).
      inversion Hpost; subst; try congruence.
      split; [exact Hmask|]. right. now destruct H3.
    - destruct Htail as (-> & _ & Hmask). auto. }
  destruct Htail' as [Hmask Hrest]. split; [exact Hmask|].
  intros path dataset start end_ img o' Hin'. rewrite Ht in Hin'.
  apply in_app_or in Hin'. destruct Hin' as [Hin'|Hin'].
  { exfalso. pose proof (setup_trace_kind args env) as Hk.
    rewrite Forall_forall in Hk. apply Hk in Hin'. discriminate. }
  apply in_app_or in Hin'. destruct Hin' as [Hin'|Hin'].
  { exfalso. destruct Hseg as (Hk & _).
    rewrite Forall_forall in Hk. apply Hk in Hin'. discriminate. }
  destruct Hrest as [->| ->]; [destruct Hin'|].
  destruct Hin' as [Heq|[]]. unfold store_entry in Heq.
  now injection Heq.
Qed.
End Thresholds.

(** ** What the loop does with the dataset *)

Section LoopFacts.
Context {V : Type} `{Scalar V}.
Variable w : World V.
Variable args : Args V.
Variable tiler : UnetTiler3D V (Tiling w).
Variable unet : Model w.

Lemma predict_inputs_app (t1 t2 : list (entry w)) :
  predict_inputs (t1 ++ t2) = predict_inputs t1 ++ predict_inputs t2.
Proof. unfold predict_inputs. apply flat_map_app. Qed.

Lemma predict_inputs_writes tile (batch : ndarray V) k :
  predict_inputs (writes w tile batch k) = [].
Proof.
  unfold writes, predict_inputs. induction (seq 0 k) as [|j l IH]; auto.
Qed.

Lemma written_tiles_writes tile (batch : ndarray V) k :
  written_tiles (writes w tile batch k)
  = map (fun j => tile + Z.of_nat j) (seq 0 k).
Proof.
  unfold writes, written_tiles. induction (seq 0 k) as [|j l IH]; simpl;
    [reflexivity|now rewrite IH].
Qed.




Section Model.
(** The model returns as many items as it is given. *)
Hypothesis H_model :
  forall u inp out, predict w u inp = Ok out -> shape0 out = shape0 inp.

Lemma batch_items sh (g : list (ndarray V)) inp out red n :
  dataset_batch sh g = Ok inp ->
  predict w unet inp = Ok out ->
  reduce_channels args out = Ok red ->
  shape0 red = Ok n ->
  Z.to_nat n = length g.
Proof.
  intros Einp Eout Ered En. apply H_model in Eout.
  apply (reduced_shape0 args) with (n := n) in Ered; [|exact En].
  rewrite Ered, (dataset_batch_shape0 _ _ Einp) in Eout.
  injection Eout as ->. lia.
Qed.

(** The loop writes at most as many tiles as the dataset holds windows,
    and a loop that completes from a dataset of just the windows that are
    left has called the model once for every batch. *)
Lemma loop_shape_counts sh (t : list (entry w)) r :
  forall ds tile,
    loop_shape args tiler unet ds tile t r ->
    forall groups,
      ds = map (dataset_batch sh) groups ->
      (length (written_tiles t) <= length (concat groups))%nat /\
      (r = Ok tt ->
       Forall (fun g => g <> []) groups ->
       tile + Z.of_nat (length (concat groups)) = tiler_len w tiler ->
       length (predict_inputs t) = length groups).
Proof.
  induction 1 as [ds tile Hlen|tile Hlen|e ds tile Hlen|inp ds tile e Hlen Ep
                 |inp ds tile out e Hlen Ep Er
                 |inp ds tile out red n k e Hlen Ep Er En Hk
                 |inp ds tile out red n t r Hlen Ep Er En Hshape IH];
    intros groups Hds.
  - split; [simpl; lia|]. intros _ Hne Htot.
    destruct groups as [|g groups]; [reflexivity|].
    inversion Hne as [|? ? Hg _]; subst.
    destruct g; [contradiction|]. simpl in Htot. lia.
  - split; [simpl; lia|discriminate].
  - split; [simpl; lia|discriminate].
  - split; [simpl; lia|discriminate].
  - split; [simpl; lia|discriminate].
  - split; [|discriminate].
    destruct groups as [|g groups]; [discriminate|].
    cbn [map] in Hds. injection Hds as Hg _.
    pose proof (batch_items _ _ (eq_sym Hg) Ep Er En) as Hn.
    change (call w * outcome)%type with (entry w).
    rewrite !written_tiles_app, written_tiles_writes.
    cbn [written_tiles flat_map fst app concat].
    rewrite !length_app, length_map, length_seq. simpl. lia.
  - destruct groups as [|g groups]; [discriminate|].
    cbn [map] in Hds. injection Hds as Hg Hds.
    pose proof (batch_items _ _ (eq_sym Hg) Ep Er En) as Hn.
    destruct (IH groups Hds) as [IH1 IH2].
    change (call w * outcome)%type with (entry w).
    rewrite !written_tiles_app, written_tiles_writes, !predict_inputs_app,
      predict_inputs_writes.
    cbn [written_tiles predict_inputs flat_map fst app concat length].
    rewrite !length_app, length_map, length_seq. split; [lia|].
    intros Hr Hne Htot. inversion Hne as [|? ? _ Hne']; subst.
    f_equal. apply IH2; auto. lia.
Qed.


End Model.
End LoopFacts.

(** ** The loop within a run *)

Section DatasetSizes.
Context {A : Type}.


(** Batching [n] elements by [b] gives the integer part of [(n + b - 1) / b]
    batches. *)
Lemma chunk_length fuel b (l : list A) :
  (0 < b)%nat -> (length l <= fuel)%nat ->
  Z.of_nat (length (chunk fuel b l))
  = (Z.of_nat (length l) + Z.of_nat b - 1) / Z.of_nat b.
Proof.
  intro Hb. revert l. induction fuel as [|fuel IH]; intros l Hl.
  - destruct l; [|simpl in Hl; lia]. simpl.
    symmetry. apply Z.div_small. lia.
  - destruct l as [|x l].
    + simpl. symmetry. apply Z.div_small. lia.
    + cbn [chunk]. remember (x :: l) as xl eqn:Exl.
      assert (Hpos : (0 < length xl)%nat) by (subst xl; simpl; lia).
      cbn [length]. rewrite Nat2Z.inj_succ, IH.
      2: { rewrite length_skipn. lia. }
      rewrite length_skipn.
      set (n := Z.of_nat (length xl)). set (c := Z.of_nat b).
      assert (Hn : 0 < n) by lia. assert (Hc : 0 < c) by lia.
      destruct (Nat.le_gt_cases b (length xl)) as [Hle|Hgt].
      * rewrite Nat2Z.inj_sub by exact Hle. fold n c.
        replace (n + c - 1) with (n - c + c - 1 + 1 * c) by lia.
        rewrite Z.div_add by lia. lia.
      * replace (length xl - b)%nat with 0%nat by lia.
        change (Z.of_nat 0) with 0.
        rewrite (Z.div_small (0 + c - 1)) by lia.
        replace (n + c - 1) with (n - 1 + 1 * c) by lia.
        rewrite Z.div_add by lia.
        rewrite Z.div_small; [lia|]. lia.
Qed.
End DatasetSizes.

Section LoopInRun.
Context {V : Type} `{Scalar V}.
Variable w : World V.

Lemma predict_inputs_none (t : list (entry w)) :
  Forall (fun en => is_predict (fst en) = false) t -> predict_inputs t = [].
Proof.
  induction 1 as [|[c o] t Hen _ IH]; simpl; [reflexivity|].
  simpl in Hen. destruct c; try discriminate; assumption.
Qed.

Lemma predict_inputs_calls (t : list (entry w)) :
  length (calls_of is_predict t) = length (predict_inputs t).
Proof.
  induction t as [|[c o] t IH]; simpl; [reflexivity|].
  destruct c; simpl; auto.
Qed.


(** The batches on which the model is called in a run are those of its
    loop. *)
Lemma predict_inputs_run (args : Args V) (env : Env w) t2 r2 m2 rest r mask
      (t : list (entry w)) :
  t = setup_trace args env ++ t2 ++ rest ->
  segment_ok args env t2 r2 m2 ->
  tail_detail args m2 r2 rest r mask ->
  predict_inputs t = predict_inputs t2.
Proof.
  intros -> Hseg Htail. rewrite !predict_inputs_app.
  rewrite (@predict_inputs_none (setup_trace args env)).
  - rewrite (@predict_inputs_none rest); [now rewrite app_nil_r|].
    apply tail_detail_rest in Htail. destruct Htail as [_ Hk].
    eapply Forall_impl; [|exact Hk]. intros [c o] (_ & Hc & _).
    destruct c; simpl in *; congruence.
  - generalize (setup_trace_kind args env). apply Forall_kind. by_kind.
Qed.

Lemma dataset_of_positive (args : Args V) (env : Env w) :
  0 < unet_batch_size args ->
  Forall (fun g => g <> [])
         (chunk (length (getGeneratorFactory w (tiler_in args env)))
                (Z.to_nat (unet_batch_size args))
                (getGeneratorFactory w (tiler_in args env))) /\
  concat (chunk (length (getGeneratorFactory w (tiler_in args env)))
                (Z.to_nat (unet_batch_size args))
                (getGeneratorFactory w (tiler_in args env)))
  = getGeneratorFactory w (tiler_in args env).
Proof.
  intro Hb. split.
  - apply chunk_nonempty. lia.
  - apply chunk_concat; lia.
Qed.


(** X15: when the model returns as many items as it is given, a run can
    complete only if the generator of the tile stream yields at least as
    many windows as the stream has tiles. *)
Theorem completed_run_had_a_window_for_every_tile (args : Args V) tiler o :
  (forall u inp out, predict w u inp = Ok out -> shape0 out = shape0 inp) ->
  In (C_UnetTiler3D tiler, o) (final_trace w args) ->
  final_result w args = Ok tt ->
  tiler_len w tiler <= Z.of_nat (length (getGeneratorFactory w tiler)).
Proof.
  intros H_model Hin Hres.
  destruct (run_detail_built _ _ _ _ Hin)
    as (env & t2 & r2 & m2 & rest & -> & -> & Hok & Ht & Hseg & Hdet & Htail).
  assert (Hr2 : r2 = Ok tt).
  { destruct r2 as [[]|e]; [reflexivity|].
    destruct Htail as (_ & Hr & _). congruence. }
  subst r2. unfold segment_detail in Hdet.
  destruct (unet_batch_size args <=? 0) eqn:Eb;
    [destruct Hdet; discriminate|].
  apply Z.leb_gt in Eb.
  destruct (dataset_of_positive args env Eb) as [Hne Hcat].
  destruct (@loop_shape_counts _ _ _ _ _ _ H_model (model_input_shape args) _ _ _ _ Hdet _ eq_refl) as [Hcount _].
  rewrite Hcat in Hcount.
  destruct Hseg as (_ & _ & _ & _ & Hall & _). specialize (Hall eq_refl).
  lia.
Qed.

(** X16: when the model returns as many items as it is given and the
    generator yields as many windows as the stream has tiles, a run that
    completes has a positive batch size and has called the model once for
    every batch of the dataset: the integer part of
    [(len(tiler) + unet_batch_size - 1) / unet_batch_size] times. *)
Theorem model_called_once_per_batch (args : Args V) tiler o :
  (forall u inp out, predict w u inp = Ok out -> shape0 out = shape0 inp) ->
  In (C_UnetTiler3D tiler, o) (final_trace w args) ->
  Z.of_nat (length (getGeneratorFactory w tiler)) = tiler_len w tiler ->
  final_result w args = Ok tt ->
  0 < unet_batch_size args /\
  Z.of_nat (length (calls_of is_predict (final_trace w args)))
  = (tiler_len w tiler + unet_batch_size args - 1) / unet_batch_size args.
Proof.
  intros H_model Hin Hgen Hres.
  destruct (run_detail_built _ _ _ _ Hin)
    as (env & t2 & r2 & m2 & rest & -> & -> & Hok & Ht & Hseg & Hdet & Htail).
  assert (Hr2 : r2 = Ok tt).
  { destruct r2 as [[]|e]; [reflexivity|].
    destruct Htail as (_ & Hr & _). congruence. }
  subst r2. unfold segment_detail in Hdet.
  destruct (unet_batch_size args <=? 0) eqn:Eb;
    [destruct Hdet; discriminate|].
  apply Z.leb_gt in Eb. split; [exact Eb|].
  destruct (dataset_of_positive args env Eb) as [Hne Hcat].
  destruct (@loop_shape_counts _ _ _ _ _ _ H_model (model_input_shape args) _ _ _ _ Hdet _ eq_refl) as [_ Hcount].
  rewrite Hcat in Hcount. specialize (Hcount eq_refl Hne).
  rewrite predict_inputs_calls.
  rewrite (@predict_inputs_run _ _ _ _ _ _ _ _ _ Ht Hseg Htail), Hcount by lia.
  rewrite chunk_length by lia. rewrite Hgen, Z2Nat.id by lia. reflexivity.
Qed.
End LoopInRun.

(** ** Batches and their items *)

Section Batches.
Context {V : Type} `{Scalar V}.




End Batches.

Section DatasetInRun.
Context {V : Type} `{Scalar V}.
Variable w : World V.




End DatasetInRun.

(** ** The box of the bulk read *)


Section BulkRead.
Context {V : Type} `{Scalar V}.
Variable w : World V.


End BulkRead.

(** ** The two ways of reducing the class axis *)

Section WindowsInRun.
Context {V : Type} `{Scalar V}.
Variable w : World V.

(** The window of a [writeSlice] call is an item of a reduced model
    output. *)
Lemma window_in_run (args : Args V) tile window o :
  In (C_writeSlice tile window, o) (final_trace w args) ->
  window_ok w args window.
Proof.
  intro Hin.
  destruct (written_in_run w args)
    as [(Hw & _)|(env & t2 & r2 & m2 & _ & Hseg & _ & _ & _ & Hin2)].
  - exfalso.
    assert (Hin' : In tile (written_tiles (final_trace w args))).
    { unfold written_tiles. apply in_flat_map.
      exists (C_writeSlice tile window, o). split; [exact Hin|now left]. }
    now rewrite Hw in Hin'.
  - apply Hin2 in Hin. destruct Hseg as (_ & _ & _ & _ & _ & Hwin & _).
    eapply Hwin, Hin.
Qed.


End WindowsInRun.

(** *** On real numbers *)

Lemma argmax_from_bound (l : list R) :
  forall best_i best i,
    (best_i < i)%nat -> (argmax_from best_i best i l < i + length l)%nat.
Proof.
  induction l as [|x l IH]; intros best_i best i Hi; simpl.
  - lia.
  - destruct (Rlt_dec best x).
    + specialize (IH i x (S i)). lia.
    + specialize (IH best_i best (S i)). lia.
Qed.

(** [np.argmax] of a class vector is the index of one of its classes. *)
Lemma argmax_R_index (l : list R) :
  exists k : nat, argmax_R l = INR k /\ (k < Nat.max 1 (length l))%nat.
Proof.
  destruct l as [|x l]; simpl.
  - exists 0%nat. split; [reflexivity|lia].
  - exists (argmax_from 0 x 1 l). split; [reflexivity|].
    pose proof (@argmax_from_bound l 0%nat x 1%nat). lia.
Qed.

Lemma rows_lengths {A} (n c : nat) (d : list A) r :
  In r (rows n c d) -> (length r <= c)%nat.
Proof.
  unfold rows. rewrite in_map_iff. intros (k & <- & _).
  rewrite length_firstn. lia.
Qed.



(** X22: with as_binary_mask, every value of a window that writeSlice is
    given is the index of a class of the model output from which it was
    reduced: a natural number below the size of the class axis. *)
Theorem binary_mask_values_are_class_indices (w : World R) (args : Args R)
        tile window o :
  as_binary_mask args = true ->
  In (C_writeSlice tile window, o) (final_trace w args) ->
  exists unet inp batch lead c,
    predict w unet inp = Ok batch /\
    shape batch = lead ++ [c] /\ 0 < c /\
    Forall (fun v => exists k : nat, v = INR k /\ Z.of_nat k < c)
           (data window).
Proof.
  intros Hflag Hin. apply window_in_run in Hin.
  destruct Hin as (unet & inp & batch & red & n & i & Hp & Hred & _ & _ & ->).
  unfold reduce_channels in Hred. rewrite Hflag in Hred.
  unfold np_argmax_last in Hred.
  destruct (rev (shape batch)) as [|c lead] eqn:Erev; [discriminate|].
  destruct (Z.leb_spec c 0) as [|Hc]; [discriminate|].
  injection Hred as <-.
  exists unet, inp, batch, (rev lead), c. splits; auto.
  - rewrite <- (rev_involutive (shape batch)), Erev. reflexivity.
  - apply Forall_forall. intros v Hv. apply item_data in Hv.
    cbn [data] in Hv. apply in_map_iff in Hv.
    destruct Hv as (r & <- & Hr). apply rows_lengths in Hr.
    destruct (argmax_R_index r) as (k & Hk & Hlt).
    exists k. split; [exact Hk|]. lia.
Qed.

(** ** The batches of the dataset *)

Section ChunkFacts.
Context {A : Type}.

End ChunkFacts.

Section DatasetFacts2.
Context {V : Type} `{Scalar V}.


End DatasetFacts2.

(** ** The theorems at work on the small worlds *)


(** The model of the small world returns as many items as it is given. *)
Lemma demo_model_items u inp out :
  predict (demo_world None) u inp = Ok out -> shape0 out = shape0 inp.
Proof.
  simpl. destruct (shape inp) as [|b s] eqn:Es; [discriminate|].
  intro Hout. injection Hout as <-. unfold shape0. simpl. now rewrite Es.
Qed.

(** Its generator yields one window for every tile. *)
Lemma demo_generator_length tiler :
  Z.of_nat (length (getGeneratorFactory (demo_world None) tiler))
  = tiler_len (demo_world None) tiler.
Proof. simpl. unfold TileStream.windows. now rewrite length_map. Qed.




Lemma end_longer_than_start_witness :
  final_result (demo_world None) (demo_options [0; 0] [1; 1; 2] false 1)
  = Raise IndexError.
Proof.
  apply (end_longer_than_start (demo_world None)
           (demo_options [0; 0] [1; 1; 2] false 1)).
  - simpl. lia.
  - discriminate.
Defined.


Lemma gpu_fix_stops_at_first_failure_witness :
  exists pre c,
    GpuFix.calls
      (fst (GpuFix._gpu_fix (GpuFix.demo_tf (Some 0%nat))
                            GpuFix.demo_tf_state))
    = pre ++ [(c, Raised "RuntimeError"%string)] /\
    Forall (fun en => snd en = Returned) pre.
Proof.
  destruct (@GpuFixFacts.gpu_fix_stops_at_first_failure
              _ _ _ (GpuFix.demo_tf (Some 0%nat)) GpuFix.demo_tf_state
              (fst (GpuFix._gpu_fix (GpuFix.demo_tf (Some 0%nat))
                                    GpuFix.demo_tf_state))
              "RuntimeError"%string)
    as (pre & c & Hcalls & Hpre & _).
  - reflexivity.
  - exists pre, c. split; [exact Hcalls|exact Hpre].
Defined.

Lemma reversed_box_never_predicts_witness :
  final_result (demo_world None) (demo_options [0; 0; 3] [1; 1; 2] false 1)
  <> Ok tt.
Proof.
  apply (reversed_box_never_predicts (demo_world None)
           (demo_options [0; 0; 3] [1; 1; 2] false 1) 2 (s := 3) (e := 2));
    [reflexivity|reflexivity|lia].
Defined.


Lemma thresholds_unused_without_post_processing_witness :
  run (demo_world None) (with_thresholds (demo_args false) 0%R 0%R 0%R 5)
  = run (demo_world None) (demo_args false).
Proof.
  apply (thresholds_unused_without_post_processing (demo_world None)
           (demo_args false)).
  reflexivity.
Defined.

Lemma stored_canvas_is_stitched_witness :
  let w := demo_world None in
  let args := demo_args false in
  let tiler := tiler_in args demo_env in
  exists sh zeros,
    subvolume_shape_of (start_coord args) (end_coord args) = Ok sh /\
    np_zeros sh = Ok zeros /\
    final_mask w args = Some (replay tiler (final_trace w args) zeros) /\
    (forall path dataset start end_ img o',
        In (C_write_n5_block path dataset start end_ img, o')
           (final_trace w args) ->
        img = replay tiler (final_trace w args) zeros).
Proof.
  intros w args tiler.
  exact (stored_canvas_is_stitched w args tiler Returned eq_refl
                                   (demo_tiler_built false)).
Defined.


Lemma completed_run_had_a_window_for_every_tile_witness :
  let w := demo_world None in
  let tiler := tiler_in (demo_args false) demo_env in
  tiler_len w tiler <= Z.of_nat (length (getGeneratorFactory w tiler)).
Proof.
  intros w tiler.
  exact (completed_run_had_a_window_for_every_tile
           w (demo_args false) tiler Returned demo_model_items
           (demo_tiler_built false) (demo_run_completes false)).
Defined.

Lemma model_called_once_per_batch_witness :
  let w := demo_world None in
  let args := demo_args false in
  let tiler := tiler_in args demo_env in
  0 < unet_batch_size args /\
  Z.of_nat (length (calls_of is_predict (final_trace w args)))
  = (tiler_len w tiler + unet_batch_size args - 1) / unet_batch_size args.
Proof.
  intros w args tiler.
  exact (model_called_once_per_batch
           w args tiler Returned demo_model_items
           (demo_tiler_built false) (demo_generator_length tiler)
           (demo_run_completes false)).
Defined.






Lemma binary_mask_values_are_class_indices_witness :
  let w := demo_world None in
  let args := demo_options [0; 0; 0] [1; 1; 2] true 1 in
  exists window unet inp batch lead c,
    predict w unet inp = Ok batch /\
    shape batch = lead ++ [c] /\ 0 < c /\
    Forall (fun v => exists k : nat, v = INR k /\ Z.of_nat k < c)
           (data window).
Proof.
  intros w args.
  destruct (written_tiles_in (final_trace w args) 0)
    as (window & o & Hin).
  - left. reflexivity.
  - exists window.
    exact (binary_mask_values_are_class_indices w args 0 window o
                                                eq_refl Hin).
Defined.


(** ** The GPU fix within a run *)

Section GpuFixInRun.
Context {V : Type} `{Scalar V}.
Variable w : World V.




End GpuFixInRun.


(** ** A generator that runs out *)

Section ShortGenerator.
Context {V : Type} `{Scalar V}.
Variable w : World V.

End ShortGenerator.



